(** * Bill-splitting core of polarsou: tax engine and split engine

    A shallow embedding of [utils/malaysian/taxCalculator.ts]
    (class [MalaysianTaxCalculator]), of [services/calculations.ts]
    (class [BillCalculator] and the free functions around it) and of the
    balance computation of [pages/SessionPage.tsx], together with the
    properties of the two engines.  Also embedded are the tax helpers
    of [utils/index.ts], the bill items of the local storage service and
    the session total of [components/session/SessionHistory.tsx]; Part III
    has further properties of all of them.

    Numbers.  The TypeScript code computes on IEEE doubles, and the two
    engines are embedded twice.

    On rationals (the modules of Part I but the last two; Parts II and
    III): a JavaScript [number] is an exact rational ([Q]); [+], [-], [*]
    and [/] are taken without rounding error; [Infinity] and [NaN] are
    not numbers of the model.  [Math.round] is rounding to the nearest
    integer with ties towards plus infinity.  A division whose divisor is
    zero leaves the rationals (JavaScript yields [Infinity] or [NaN]); in
    the split engine it is reported as [DivisionByZero] instead of being
    given a value.  Equality of amounts is [Qeq] ([==]).  The properties
    stated on this model are those that do not turn on the last bit of a
    double: who pays whom, which items and flags enter a total, how many
    balances and transfers there are, what a call does to its argument.

    On doubles (the modules [Binary64] and [Doubles] of Part I; Part IV):
    a [number] is a binary64 value, finite, infinite or [NaN]; every
    operation returns the exact result rounded to the nearest double, a
    tie going to the even significand; a zero divisor gives an infinity
    or [NaN].  The properties stated on this model are those about the
    cent that a function returns, about ties, and about the end of the
    settlement loop.

    Objects.  The engines are written as functions on values.  Where the
    question is what a function does to its argument,
    [generatePaymentInstructions] is also given on a heap of objects and
    arrays that are passed by reference, and the two are related. *)

From Stdlib Require Import ZArith QArith Qround Qabs Qminmax Qreduction Qpower Lia Lqa.
From stdpp Require Import base option list gmap strings.

Local Open Scope Q_scope.

(** * Part I: the embedding *)

(** ** JavaScript arithmetic used by both engines *)

Module Js.

(** [Math.round]: nearest integer, a tie goes up. *)
Definition Math_round (x : Q) : Z := Qfloor (x + (1 # 2)).

Definition Math_abs (x : Q) : Q := Qabs x.

Definition Math_min (x y : Q) : Q := Qmin x y.

(** [a < b] and [a > b] on numbers, as booleans. *)
Definition ltb (a b : Q) : bool := negb (Qle_bool b a).
Definition gtb (a b : Q) : bool := ltb b a.

(** Truthiness of a possibly missing number: [undefined] and [0] are
    falsy. *)
Definition truthy (x : option Q) : bool :=
  match x with
  | Some q => negb (Qeq_bool q 0)
  | None => false
  end.

(** [Array.prototype.includes] on an array of strings. *)
Definition includes (l : list string) (x : string) : bool :=
  existsb (String.eqb x) l.

(** How a call ends.  [DivisionByZero]: a division by zero was evaluated,
    so the value is [Infinity] or [NaN] and not a rational.  [TypeError]:
    a property of [undefined] was read, which throws.  [OutOfFuel]: the
    loop was cut off by the fuel of the model (no JavaScript behaviour). *)
Inductive Outcome (A : Type) : Type :=
| Returned (a : A)
| DivisionByZero
| TypeError
| OutOfFuel.

Arguments Returned {A} a.
Arguments DivisionByZero {A}.
Arguments TypeError {A}.
Arguments OutOfFuel {A}.

Definition bind {A B : Type} (m : Outcome A) (k : A -> Outcome B) : Outcome B :=
  match m with
  | Returned a => k a
  | DivisionByZero => DivisionByZero
  | TypeError => TypeError
  | OutOfFuel => OutOfFuel
  end.

#[global] Instance Outcome_ret : MRet Outcome := fun A a => Returned a.
#[global] Instance Outcome_bind : MBind Outcome := fun A B k m => bind m k.
#[global] Instance Outcome_fmap : FMap Outcome :=
  fun A B f m => bind m (fun a => Returned (f a)).

(** [x / y] on numbers. *)
Definition divide (x y : Q) : Outcome Q :=
  if Qeq_bool y 0 then DivisionByZero else Returned (x / y).

(** [array.length] as a number. *)
Definition lengthQ {A : Type} (l : list A) : Q := inject_Z (Z.of_nat (length l)).

(** [array.forEach] with a body that updates accumulators and may fail. *)
Fixpoint forEach {A S : Type} (body : S -> A -> Outcome S) (l : list A) (s : S) : Outcome S :=
  match l with
  | [] => Returned s
  | x :: l' => s' ← body s x; forEach body l' s'
  end.

(** [array.reduce((sum, x) => sum + f x, 0)]. *)
Definition reduceSum {A : Type} (f : A -> Q) (l : list A) : Q :=
  fold_left (fun sum x => sum + f x) l 0.

End Js.

Export Js(Outcome, Returned, DivisionByZero, TypeError, OutOfFuel).

(** ** [utils/index.ts] *)

(** [roundToTwoDecimals]: [Math.round(amount * 100) / 100]. *)
Definition roundToTwoDecimals (amount : Q) : Q :=
  inject_Z (Js.Math_round (amount * 100)) / 100.

(** ** [utils/malaysian/taxCalculator.ts] *)

Module MalaysianTaxCalculator.

Record TaxableItem := {
  amount : Q;
  hasSST : bool;
  hasServiceCharge : bool;
  isExempt : bool
}.

Record TaxTotals := {
  subtotal : Q;
  serviceChargeAmount : Q;
  sstAmount : Q;
  totalBeforeRounding : Q;
  roundingAdjustment : Q;
  finalTotal : Q
}.

Definition SST_RATE : Q := 0.06.
Definition SERVICE_CHARGE_RATE : Q := 0.10.

(** [roundToSen]: [Math.round(amount * 100) / 100]. *)
Definition roundToSen (amount : Q) : Q :=
  inject_Z (Js.Math_round (amount * 100)) / 100.

(** [applyMalaysianRounding].  [cents % 10] is JavaScript's remainder,
    which takes the sign of the dividend: [Z.rem]. *)
Definition applyMalaysianRounding (amount : Q) : Q :=
  let cents := Js.Math_round (amount * 100) in
  let lastDigit := Z.rem cents 10 in
  let roundedCents :=
    if (lastDigit <=? 2)%Z then (cents - lastDigit)%Z
    else if (lastDigit <=? 7)%Z then (cents - lastDigit + 5)%Z
    else (cents - lastDigit + 10)%Z in
  inject_Z roundedCents / 100.

(** The three accumulators of the first loop of [calculateTaxes]. *)
Record Bases := {
  b_subtotal : Q;
  b_serviceChargeBase : Q;
  b_sstBase : Q
}.

(** Body of the first loop: an exempt item adds to the subtotal and
    [continue]s. *)
Definition baseStep (acc : Bases) (item : TaxableItem) : Bases :=
  if isExempt item then
    {| b_subtotal := b_subtotal acc + amount item;
       b_serviceChargeBase := b_serviceChargeBase acc;
       b_sstBase := b_sstBase acc |}
  else
    {| b_subtotal := b_subtotal acc + amount item;
       b_serviceChargeBase :=
         if hasServiceCharge item then b_serviceChargeBase acc + amount item
         else b_serviceChargeBase acc;
       b_sstBase :=
         if hasSST item then b_sstBase acc + amount item else b_sstBase acc |}.

(** Body of the second loop: SST of one item, on the amount plus the
    item's own service charge. *)
Definition sstStep (sstAmount : Q) (item : TaxableItem) : Q :=
  if negb (isExempt item) && hasSST item then
    let itemServiceCharge :=
      if hasServiceCharge item then amount item * SERVICE_CHARGE_RATE else 0 in
    sstAmount + (amount item + itemServiceCharge) * SST_RATE
  else sstAmount.

Definition calculateTaxes (items : list TaxableItem) : TaxTotals :=
  let bases :=
    fold_left baseStep items
      {| b_subtotal := 0; b_serviceChargeBase := 0; b_sstBase := 0 |} in
  let serviceChargeAmount := roundToSen (b_serviceChargeBase bases * SERVICE_CHARGE_RATE) in
  let sstAmount := roundToSen (fold_left sstStep items 0) in
  let totalBeforeRounding := b_subtotal bases + serviceChargeAmount + sstAmount in
  let finalTotal := applyMalaysianRounding totalBeforeRounding in
  let roundingAdjustment := finalTotal - totalBeforeRounding in
  {| subtotal := roundToSen (b_subtotal bases);
     serviceChargeAmount := serviceChargeAmount;
     sstAmount := sstAmount;
     totalBeforeRounding := totalBeforeRounding;
     roundingAdjustment := roundToSen roundingAdjustment;
     finalTotal := finalTotal |}.

(** [calculateItemTax]: the breakdown of one item that is not exempt. *)
Module TaxBreakdown.
Record t := mk {
  subtotal : Q;
  serviceCharge : Q;
  sstAmount : Q;
  total : Q;
  roundingAdjustment : Q
}.
End TaxBreakdown.

Definition calculateItemTax (amount : Q) (hasSST hasServiceCharge : bool)
    : TaxBreakdown.t :=
  let result :=
    calculateTaxes
      [ {| amount := amount; hasSST := hasSST;
           hasServiceCharge := hasServiceCharge; isExempt := false |} ] in
  {| TaxBreakdown.subtotal := subtotal result;
     TaxBreakdown.serviceCharge := serviceChargeAmount result;
     TaxBreakdown.sstAmount := sstAmount result;
     TaxBreakdown.total := finalTotal result;
     TaxBreakdown.roundingAdjustment := roundingAdjustment result |}.

(** [suggestTaxSettings].  Item names are taken to be ASCII text: on
    other characters [toLowerCase] and [trim] of JavaScript do more than
    the two functions below. *)
Module TaxSuggestion.
Record t := mk {
  hasSST : bool;
  hasServiceCharge : bool;
  reason : string
}.
End TaxSuggestion.

(** The entries of [COMMON_ITEMS], in the order in which
    [Object.entries] lists them. *)
Definition COMMON_ITEMS : list (string * TaxSuggestion.t) :=
  let exempt := "Basic food items are typically SST-exempt"%string in
  let fastFood := "Fast food items are typically subject to SST"%string in
  let beverages := "Beverages are typically subject to SST"%string in
  let restaurant :=
    "Restaurant items typically have both SST and service charge"%string in
  [ ("rice", TaxSuggestion.mk false false exempt);
    ("nasi lemak", TaxSuggestion.mk false false exempt);
    ("roti canai", TaxSuggestion.mk false false exempt);
    ("teh tarik", TaxSuggestion.mk false false exempt);
    ("kopi", TaxSuggestion.mk false false exempt);
    ("burger", TaxSuggestion.mk true false fastFood);
    ("pizza", TaxSuggestion.mk true false fastFood);
    ("coffee", TaxSuggestion.mk true false beverages);
    ("western food", TaxSuggestion.mk true false fastFood);
    ("fine dining", TaxSuggestion.mk true true restaurant);
    ("hotel restaurant", TaxSuggestion.mk true true restaurant) ]%string.

(** The properties that an object literal inherits from
    [Object.prototype]; all of them have a truthy value. *)
Definition OBJECT_PROTOTYPE : list string :=
  [ "constructor"; "__defineGetter__"; "__defineSetter__"; "hasOwnProperty";
    "__lookupGetter__"; "__lookupSetter__"; "isPrototypeOf"; "propertyIsEnumerable";
    "toString"; "valueOf"; "__proto__"; "toLocaleString" ]%string.

(** What [suggestTaxSettings] returns: a suggestion, or the value of an
    inherited property, which is not a suggestion. *)
Inductive Suggested :=
| Suggestion (s : TaxSuggestion.t)
| Inherited (property : string).

Definition isUpper (c : Ascii.ascii) : bool :=
  let n := Ascii.nat_of_ascii c in (65 <=? n)%nat && (n <=? 90)%nat.

Definition isSpace (c : Ascii.ascii) : bool :=
  let n := Ascii.nat_of_ascii c in ((9 <=? n)%nat && (n <=? 13)%nat) || (n =? 32)%nat.

Fixpoint toLowerCase (s : string) : string :=
  match s with
  | EmptyString => EmptyString
  | String c s' =>
      String (if isUpper c then Ascii.ascii_of_nat (Ascii.nat_of_ascii c + 32) else c) (toLowerCase s')
  end.

Fixpoint trimStart (s : string) : string :=
  match s with
  | EmptyString => EmptyString
  | String c s' => if isSpace c then trimStart s' else s
  end.

Fixpoint trimEnd (s : string) : string :=
  match s with
  | EmptyString => EmptyString
  | String c s' =>
      let rest := trimEnd s' in
      if isSpace c && String.eqb rest EmptyString then EmptyString else String c rest
  end.

Definition trim (s : string) : string := trimEnd (trimStart s).

(** [s.includes(part)] on strings. *)
Fixpoint String_includes (s part : string) : bool :=
  String.prefix part s
  || match s with
     | EmptyString => false
     | String _ s' => String_includes s' part
     end.

(** [object[name]] on [COMMON_ITEMS]: an own property, else an inherited
    one, else [undefined]. *)
Definition COMMON_ITEMS_get (name : string) : option Suggested :=
  match List.find (fun entry => String.eqb (fst entry) name) COMMON_ITEMS with
  | Some entry => Some (Suggestion (snd entry))
  | None =>
      if existsb (String.eqb name) OBJECT_PROTOTYPE then Some (Inherited name) else None
  end.

Definition suggestTaxSettings (itemName : string) : Suggested :=
  let name := trim (toLowerCase itemName) in
  match COMMON_ITEMS_get name with
  | Some value => value
  | None =>
      match List.find (fun entry => String_includes name (fst entry)
                                   || String_includes (fst entry) name) COMMON_ITEMS with
      | Some entry => Suggestion (snd entry)
      | None =>
          let localFoodKeywords :=
            [ "nasi"; "mee"; "char"; "wan tan"; "laksa"; "cendol"; "abc"; "teh"; "kopi" ]%string in
          let hasLocalKeyword := existsb (String_includes name) localFoodKeywords in
          Suggestion (TaxSuggestion.mk false false "Default: no taxes applied")
      end
  end.

End MalaysianTaxCalculator.


(** ** [types/index.ts]: the data the split engine reads and returns

    Fields the engine never reads ([sessionId], [perPersonAmount],
    [createdAt], the cached balances of a participant) are left out. *)

Module Participant.
Record t := mk {
  id : string;
  name : string
}.
End Participant.

Module BillItem.
Record t := mk {
  id : string;
  name : string;
  totalAmount : Q;
  paidBy : string;
  sharedBy : list string;
  hasSst : bool;
  sstAmount : option Q   (* [sstAmount?: number]; [None] is a missing field *)
}.
End BillItem.

Module TaxConfig.
Record t := mk {
  sstRate : Q;
  serviceChargeRate : Q;
  applyServiceChargeToAll : bool
}.
End TaxConfig.

Module ItemContribution.
Record t := mk {
  itemId : string;
  itemName : string;
  contribution : Q;
  sstContribution : Q;
  serviceChargeContribution : Q
}.
End ItemContribution.

(** [participant] and the three legacy fields are optional here because
    [createEmptyResult] builds balances without them. *)
Module ParticipantBalance.
Record t := mk {
  participant : option Participant.t;
  participantId : string;
  name : string;
  totalOwed : Q;
  totalPaid : Q;
  netAmount : Q;
  itemBreakdown : list ItemContribution.t;
  paid : option Q;
  owes : option Q;
  balance : option Q
}.

(** Assignment to the field [netAmount]. *)
Definition set_netAmount (b : t) (v : Q) : t :=
  {| participant := participant b; participantId := participantId b; name := name b;
     totalOwed := totalOwed b; totalPaid := totalPaid b; netAmount := v;
     itemBreakdown := itemBreakdown b; paid := paid b; owes := owes b;
     balance := balance b |}.
End ParticipantBalance.

Module Summary.
Record t := mk {
  totalAmount : Q;
  totalSst : Q;
  totalServiceCharge : Q;
  itemCount : nat
}.
End Summary.

Module CalculationResult.
Record t := mk {
  participants : list ParticipantBalance.t;
  summary : Summary.t
}.
End CalculationResult.

Module Session.
Record t := mk {
  participants : list Participant.t;
  items : list BillItem.t
}.
End Session.

(** A payment instruction, [{ from, to, amount }]. *)
Module Transfer.
Record t := mk {
  from : string;
  to : string;
  amount : Q
}.
End Transfer.

(** ** [services/calculations.ts] *)

Module Calculations.

Definition DEFAULT_TAX_CONFIG : TaxConfig.t :=
  {| TaxConfig.sstRate := 0.06;
     TaxConfig.serviceChargeRate := 0.10;
     TaxConfig.applyServiceChargeToAll := true |}.

(** *** class [BillCalculator]; the section variable is [this.taxConfig] *)

Section BillCalculator.

Variable taxConfig : TaxConfig.t.

Definition calculateServiceCharge (amount : Q) : Q :=
  roundToTwoDecimals (amount * TaxConfig.serviceChargeRate taxConfig).

Definition calculateSst (amount : Q) : Q :=
  roundToTwoDecimals (amount * TaxConfig.sstRate taxConfig).

(** [item.hasSst && item.sstAmount ? f(item.sstAmount) : otherwise] *)
Definition withSst {A : Type} (item : BillItem.t) (f : Q -> A) (otherwise : A) : A :=
  match BillItem.sstAmount item with
  | Some sst => if BillItem.hasSst item && Js.truthy (Some sst) then f sst else otherwise
  | None => otherwise
  end.

Definition calculateItemContribution
    (participant : Participant.t) (item : BillItem.t) (totalParticipants : nat)
    : Outcome ItemContribution.t :=
  let isSharing := Js.includes (BillItem.sharedBy item) (Participant.id participant) in
  if negb isSharing then
    mret {| ItemContribution.itemId := BillItem.id item;
            ItemContribution.itemName := BillItem.name item;
            ItemContribution.contribution := 0;
            ItemContribution.sstContribution := 0;
            ItemContribution.serviceChargeContribution := 0 |}
  else
    let shareCount := Js.lengthQ (BillItem.sharedBy item) in
    baseShare ← Js.divide (BillItem.totalAmount item) shareCount;
    let baseContribution := roundToTwoDecimals baseShare in
    sstContribution ←
      withSst item
        (fun sst => roundToTwoDecimals <$> Js.divide sst shareCount)
        (mret 0);
    let serviceChargeAmount := calculateServiceCharge (BillItem.totalAmount item) in
    serviceChargeContribution ←
      (if TaxConfig.applyServiceChargeToAll taxConfig
       then roundToTwoDecimals <$>
              Js.divide serviceChargeAmount (inject_Z (Z.of_nat totalParticipants))
       else roundToTwoDecimals <$> Js.divide serviceChargeAmount shareCount);
    mret {| ItemContribution.itemId := BillItem.id item;
            ItemContribution.itemName := BillItem.name item;
            ItemContribution.contribution := baseContribution;
            ItemContribution.sstContribution := sstContribution;
            ItemContribution.serviceChargeContribution := serviceChargeContribution |}.

(** The three [let]/[const] accumulators of [calculateParticipantBalance]. *)
Record Totals := {
  t_totalOwed : Q;
  t_totalPaid : Q;
  t_itemBreakdown : list ItemContribution.t
}.

(** Body of [items.forEach] in [calculateParticipantBalance]. *)
Definition balanceStep (participant : Participant.t) (totalParticipants : nat)
    (acc : Totals) (item : BillItem.t) : Outcome Totals :=
  contribution ← calculateItemContribution participant item totalParticipants;
  let acc1 :=
    if Js.gtb (ItemContribution.contribution contribution) 0 then
      {| t_totalOwed :=
           t_totalOwed acc
           + (ItemContribution.contribution contribution
              + ItemContribution.sstContribution contribution
              + ItemContribution.serviceChargeContribution contribution);
         t_totalPaid := t_totalPaid acc;
         t_itemBreakdown := t_itemBreakdown acc ++ [contribution] |}
    else acc in
  if String.eqb (BillItem.paidBy item) (Participant.id participant) then
    let paid1 := t_totalPaid acc1 + BillItem.totalAmount item in
    let paid2 := withSst item (fun sst => paid1 + sst) paid1 in
    let paid3 := paid2 + calculateServiceCharge (BillItem.totalAmount item) in
    mret {| t_totalOwed := t_totalOwed acc1;
            t_totalPaid := paid3;
            t_itemBreakdown := t_itemBreakdown acc1 |}
  else mret acc1.

Definition calculateParticipantBalance
    (participant : Participant.t) (items : list BillItem.t) (totalParticipants : nat)
    : Outcome ParticipantBalance.t :=
  totals ← Js.forEach (balanceStep participant totalParticipants) items
             {| t_totalOwed := 0; t_totalPaid := 0; t_itemBreakdown := [] |};
  let totalOwed := t_totalOwed totals in
  let totalPaid := t_totalPaid totals in
  let netAmount := roundToTwoDecimals (totalOwed - totalPaid) in
  mret {| ParticipantBalance.participant := Some participant;
          ParticipantBalance.participantId := Participant.id participant;
          ParticipantBalance.name := Participant.name participant;
          ParticipantBalance.totalOwed := roundToTwoDecimals totalOwed;
          ParticipantBalance.totalPaid := roundToTwoDecimals totalPaid;
          ParticipantBalance.netAmount := netAmount;
          ParticipantBalance.itemBreakdown := t_itemBreakdown totals;
          ParticipantBalance.paid := Some (roundToTwoDecimals totalPaid);
          ParticipantBalance.owes := Some (roundToTwoDecimals totalOwed);
          ParticipantBalance.balance := Some netAmount |}.

(** The accumulators and the loop body of [calculateSummary]. *)
Record SummaryTotals := {
  s_totalAmount : Q;
  s_totalSst : Q;
  s_totalServiceCharge : Q
}.

Definition summaryStep (acc : SummaryTotals) (item : BillItem.t) : SummaryTotals :=
  {| s_totalAmount := s_totalAmount acc + BillItem.totalAmount item;
     s_totalSst := withSst item (fun sst => s_totalSst acc + sst) (s_totalSst acc);
     s_totalServiceCharge :=
       s_totalServiceCharge acc + calculateServiceCharge (BillItem.totalAmount item) |}.

Definition calculateSummary (items : list BillItem.t) : Summary.t :=
  let acc := fold_left summaryStep items
               {| s_totalAmount := 0; s_totalSst := 0; s_totalServiceCharge := 0 |} in
  {| Summary.totalAmount := roundToTwoDecimals (s_totalAmount acc);
     Summary.totalSst := roundToTwoDecimals (s_totalSst acc);
     Summary.totalServiceCharge := roundToTwoDecimals (s_totalServiceCharge acc);
     Summary.itemCount := length items |}.

Definition createEmptyResult (participants : list Participant.t) : CalculationResult.t :=
  {| CalculationResult.participants :=
       map (fun p =>
              {| ParticipantBalance.participant := None;
                 ParticipantBalance.participantId := Participant.id p;
                 ParticipantBalance.name := Participant.name p;
                 ParticipantBalance.totalOwed := 0;
                 ParticipantBalance.totalPaid := 0;
                 ParticipantBalance.netAmount := 0;
                 ParticipantBalance.itemBreakdown := [];
                 ParticipantBalance.paid := None;
                 ParticipantBalance.owes := None;
                 ParticipantBalance.balance := None |})
           participants;
     CalculationResult.summary :=
       {| Summary.totalAmount := 0; Summary.totalSst := 0;
          Summary.totalServiceCharge := 0; Summary.itemCount := 0 |} |}.

Definition calculateSession (session : Session.t) : Outcome CalculationResult.t :=
  let participants := Session.participants session in
  let items := Session.items session in
  if (length participants =? 0)%nat || (length items =? 0)%nat then
    mret (createEmptyResult participants)
  else
    participantBalances ←
      mapM (fun participant =>
              calculateParticipantBalance participant items (length participants))
           participants;
    let summary := calculateSummary items in
    mret {| CalculationResult.participants := participantBalances;
            CalculationResult.summary := summary |}.

End BillCalculator.

(** *** The free functions of the file *)

(** [calculatePaymentInstructions].  An entry of [to] or [from] is the
    text [`${name} (RM ${amount.toFixed(2)})`]; it is kept as the pair of
    its two parts. *)
Record PayEntry := {
  pay_name : string;
  pay_amount : Q;
  pay_to : list (string * Q)
}.

Record ReceiveEntry := {
  rcv_name : string;
  rcv_amount : Q;
  rcv_from : list (string * Q)
}.

(** Body of the first [forEach]: who pays and who receives. *)
Definition classifyStep (acc : list PayEntry * list ReceiveEntry)
    (participant : ParticipantBalance.t) : list PayEntry * list ReceiveEntry :=
  let (toPay, toReceive) := acc in
  if Js.gtb (ParticipantBalance.netAmount participant) 0 then
    (toPay ++ [ {| pay_name := ParticipantBalance.name participant;
                   pay_amount := ParticipantBalance.netAmount participant;
                   pay_to := [] |} ],
     toReceive)
  else if Js.ltb (ParticipantBalance.netAmount participant) 0 then
    (toPay,
     toReceive ++ [ {| rcv_name := ParticipantBalance.name participant;
                       rcv_amount := Js.Math_abs (ParticipantBalance.netAmount participant);
                       rcv_from := [] |} ])
  else acc.

(** Body of the inner [toReceive.forEach] for one payer: the state is the
    payer's remaining amount, the payer's [to] list and the receivers
    visited so far. *)
Definition matchStep (payerName : string)
    (st : Q * list (string * Q) * list ReceiveEntry) (receiver : ReceiveEntry)
    : Q * list (string * Q) * list ReceiveEntry :=
  let '(remainingAmount, to, visited) := st in
  if Js.gtb remainingAmount 0 && Js.gtb (rcv_amount receiver) 0 then
    let transferAmount := Js.Math_min remainingAmount (rcv_amount receiver) in
    (remainingAmount - transferAmount,
     to ++ [(rcv_name receiver, transferAmount)],
     visited ++ [ {| rcv_name := rcv_name receiver;
                     rcv_amount := rcv_amount receiver - transferAmount;
                     rcv_from := rcv_from receiver ++ [(payerName, transferAmount)] |} ])
  else (remainingAmount, to, visited ++ [receiver]).

(** Body of the outer [toPay.forEach]. *)
Definition payerStep (st : list PayEntry * list ReceiveEntry) (payer : PayEntry)
    : list PayEntry * list ReceiveEntry :=
  let (visitedPayers, toReceive) := st in
  let '(_, to, toReceive') :=
    fold_left (matchStep (pay_name payer)) toReceive
      (pay_amount payer, pay_to payer, []) in
  (visitedPayers ++ [ {| pay_name := pay_name payer;
                         pay_amount := pay_amount payer;
                         pay_to := to |} ],
   toReceive').

Definition calculatePaymentInstructions (result : CalculationResult.t)
    : list PayEntry * list ReceiveEntry :=
  let (toPay, toReceive) :=
    fold_left classifyStep (CalculationResult.participants result) ([], []) in
  fold_left payerStep toPay ([], toReceive).

(** The checks of [validateCalculation]; an error is kept as its kind,
    the message text is dropped. *)
Inductive ValidationError :=
| OwedDoesNotMatchPaid
| NetAmountsDoNotSumToZero.

Record Validation := {
  isValid : bool;
  errors : list ValidationError
}.

Definition validateCalculation (result : CalculationResult.t) : Validation :=
  let participants := CalculationResult.participants result in
  let totalOwed := Js.reduceSum ParticipantBalance.totalOwed participants in
  let totalPaid := Js.reduceSum ParticipantBalance.totalPaid participants in
  let errors1 :=
    if Js.gtb (Js.Math_abs (totalOwed - totalPaid)) 0.01 then [OwedDoesNotMatchPaid] else [] in
  let netSum := Js.reduceSum ParticipantBalance.netAmount participants in
  let errors2 :=
    if Js.gtb (Js.Math_abs netSum) 0.01 then errors1 ++ [NetAmountsDoNotSumToZero]
    else errors1 in
  {| isValid := (length errors2 =? 0)%nat; errors := errors2 |}.

(** [defaultCalculator = new BillCalculator()] *)
Definition defaultCalculator_calculateSession : Session.t -> Outcome CalculationResult.t :=
  calculateSession DEFAULT_TAX_CONFIG.

Definition calculateParticipantBalances
    (items : list BillItem.t) (participants : list Participant.t)
    : Outcome (list ParticipantBalance.t) :=
  CalculationResult.participants <$>
    defaultCalculator_calculateSession
      {| Session.participants := participants; Session.items := items |}.

(** [debtor.participant.name]: reading [name] of a missing [participant]
    throws. *)
Definition participant_name (b : ParticipantBalance.t) : Outcome string :=
  match ParticipantBalance.participant b with
  | Some p => mret (Participant.name p)
  | None => TypeError
  end.

(** The [while] loop of [generatePaymentInstructions].  [debtors] and
    [creditors] are the two arrays of copies; the head of each is the
    object the body mutates.  One unit of [fuel] is one iteration. *)
Fixpoint settle (fuel : nat) (debtors creditors : list ParticipantBalance.t)
    (instructions : list Transfer.t) : Outcome (list Transfer.t) :=
  match debtors, creditors with
  | debtor :: debtors_rest, creditor :: creditors_rest =>
      match fuel with
      | O => OutOfFuel
      | S fuel' =>
          let paymentAmount :=
            Js.Math_min (Js.Math_abs (ParticipantBalance.netAmount debtor))
                        (ParticipantBalance.netAmount creditor) in
          from ← participant_name debtor;
          to ← participant_name creditor;
          let instructions' :=
            instructions ++
              [ {| Transfer.from := from; Transfer.to := to;
                   Transfer.amount := roundToTwoDecimals paymentAmount |} ] in
          let debtor' :=
            ParticipantBalance.set_netAmount debtor
              (ParticipantBalance.netAmount debtor + paymentAmount) in
          let creditor' :=
            ParticipantBalance.set_netAmount creditor
              (ParticipantBalance.netAmount creditor - paymentAmount) in
          let debtors' :=
            if Js.ltb (Js.Math_abs (ParticipantBalance.netAmount debtor')) 0.01
            then debtors_rest else debtor' :: debtors_rest in
          let creditors' :=
            if Js.ltb (Js.Math_abs (ParticipantBalance.netAmount creditor')) 0.01
            then creditors_rest else creditor' :: creditors_rest in
          settle fuel' debtors' creditors' instructions'
      end
  | _, _ => mret instructions
  end.

Definition generatePaymentInstructions_fuel (fuel : nat)
    (balances : list ParticipantBalance.t) : Outcome (list Transfer.t) :=
  let debtors :=
    List.filter (fun b => Js.ltb (ParticipantBalance.netAmount b) 0) balances in
  let creditors :=
    List.filter (fun b => Js.gtb (ParticipantBalance.netAmount b) 0) balances in
  settle fuel debtors creditors [].

(** The loop never needs more iterations than there are balances (see
    [generatePaymentInstructions_runs]), so this is the function itself. *)
Definition generatePaymentInstructions (balances : list ParticipantBalance.t)
    : Outcome (list Transfer.t) :=
  generatePaymentInstructions_fuel (length balances) balances.

(** [calculateBillSplit]: the legacy view of a calculation. *)
Module ParticipantShare.
Record t := mk {
  participantId : string;
  name : string;
  share : Q;
  paid : Q;
  balance : Q
}.
End ParticipantShare.

Module BillSplit.
Record t := mk {
  totalAmount : Q;
  participantShares : list ParticipantShare.t
}.
End BillSplit.


End Calculations.

(** ** [pages/SessionPage.tsx]: the balances shown on the session page

    The page does not call [BillCalculator]; it computes [paid], [owes]
    and [balance] by itself from items that carry their amount in the
    field [amount]. *)

Module SessionPage.

Record Item := {
  amount : option Q;   (* [None]: the field is missing *)
  paidBy : string;
  sharedBy : list string;
  hasSst : bool
}.

Record Balance := {
  id : string;
  name : string;
  paid : Q;
  owes : Q;
  balance : Q
}.

(** [Number(x.toFixed(2))]: two decimals, a tie goes away from zero. *)
Definition toFixed2 (x : Q) : Q :=
  if Js.ltb x 0 then - (inject_Z (Js.Math_round (- x * 100)) / 100)
  else inject_Z (Js.Math_round (x * 100)) / 100.

(** [Number(item.amount) || 0] *)
Definition amountOf (item : Item) : Q :=
  match amount item with
  | Some a => a
  | None => 0
  end.

Definition itemTotal (item : Item) : Q :=
  if hasSst item then amountOf item * 1.06 else amountOf item.

(** [item.sharedBy.length || 1] *)
Definition shareCount (item : Item) : Q :=
  if (length (sharedBy item) =? 0)%nat then 1 else Js.lengthQ (sharedBy item).

Definition getParticipantBalances
    (participants : list Participant.t) (items : list Item) : list Balance :=
  if (length participants =? 0)%nat || (length items =? 0)%nat then []
  else
    map (fun participant =>
           let paid :=
             Js.reduceSum itemTotal
               (List.filter (fun item => String.eqb (paidBy item) (Participant.id participant))
                  items) in
           let owes :=
             Js.reduceSum (fun item => itemTotal item / shareCount item)
               (List.filter (fun item => Js.includes (sharedBy item) (Participant.id participant))
                  items) in
           let balance := paid - owes in
           {| id := Participant.id participant;
              name := Participant.name participant;
              paid := toFixed2 paid;
              owes := toFixed2 owes;
              balance := toFixed2 balance |})
        participants.

End SessionPage.

(** ** [generatePaymentInstructions] on the JavaScript heap

    Arrays and balance objects live in a heap and are passed by
    reference, so that a write through one reference is seen through all
    of them.  The nested [participant] and [itemBreakdown] of a balance
    are only read by the function and stay values. *)

Module Heap.

Abbreviation loc := positive.

Inductive object :=
| ArrayObject (elements : list loc)
| BalanceObject (b : ParticipantBalance.t).

Abbreviation heap := (gmap loc object).

(** A computation on the heap: the heap it leaves and how it ends. *)
Definition Run (A : Type) : Type := heap -> heap * Outcome A.

Definition ret {A : Type} (a : A) : Run A := fun h => (h, Returned a).

Definition bind {A B : Type} (m : Run A) (k : A -> Run B) : Run B :=
  fun h =>
    match m h with
    | (h', Returned a) => k a h'
    | (h', DivisionByZero) => (h', DivisionByZero)
    | (h', TypeError) => (h', TypeError)
    | (h', OutOfFuel) => (h', OutOfFuel)
    end.

#[global] Instance Run_ret : MRet Run := fun A a => ret a.
#[global] Instance Run_bind : MBind Run := fun A B k m => bind m k.

(** An outcome that does not touch the heap. *)
Definition lift {A : Type} (o : Outcome A) : Run A := fun h => (h, o).

(** A new object, at a location that is not in use. *)
Definition alloc (o : object) : Run loc :=
  fun h => let l := fresh (dom h) in (<[l := o]> h, Returned l).

Definition write (l : loc) (o : object) : Run unit :=
  fun h => (<[l := o]> h, Returned tt).

Definition readArray (a : loc) : Run (list loc) :=
  fun h =>
    match h !! a with
    | Some (ArrayObject elements) => (h, Returned elements)
    | _ => (h, TypeError)
    end.

Definition readBalance (l : loc) : Run ParticipantBalance.t :=
  fun h =>
    match h !! l with
    | Some (BalanceObject b) => (h, Returned b)
    | _ => (h, TypeError)
    end.

(** [array.filter(pred)]: a new array with the references that pass. *)
Fixpoint filterRefs (pred : ParticipantBalance.t -> bool) (refs : list loc)
    : Run (list loc) :=
  match refs with
  | [] => mret []
  | r :: rest =>
      b ← readBalance r;
      kept ← filterRefs pred rest;
      mret (if pred b then r :: kept else kept)
  end.

Definition Array_filter (pred : ParticipantBalance.t -> bool) (a : loc) : Run loc :=
  refs ← readArray a;
  kept ← filterRefs pred refs;
  alloc (ArrayObject kept).

(** [array.map(b => ({ ...b }))]: a new array of new objects, each with
    the fields of the object it copies. *)
Fixpoint copyRefs (refs : list loc) : Run (list loc) :=
  match refs with
  | [] => mret []
  | r :: rest =>
      b ← readBalance r;
      copy ← alloc (BalanceObject b);
      copies ← copyRefs rest;
      mret (copy :: copies)
  end.

Definition Array_mapCopy (a : loc) : Run loc :=
  refs ← readArray a;
  copies ← copyRefs refs;
  alloc (ArrayObject copies).

(** [array.shift()], the removed element dropped. *)
Definition Array_shift (a : loc) : Run unit :=
  refs ← readArray a;
  write a (ArrayObject (tail refs)).

(** [object.netAmount = f(object.netAmount)] *)
Definition update_netAmount (l : loc) (f : Q -> Q) : Run unit :=
  b ← readBalance l;
  write l (BalanceObject
             (ParticipantBalance.set_netAmount b (f (ParticipantBalance.netAmount b)))).

(** [if (Math.abs(object.netAmount) < 0.01) array.shift()] *)
Definition shift_if_settled (l : loc) (array : loc) : Run unit :=
  b ← readBalance l;
  if Js.ltb (Js.Math_abs (ParticipantBalance.netAmount b)) 0.01
  then Array_shift array else mret tt.

(** The [while] loop: [debtors] and [creditors] are the two arrays of
    copies.  The list of instructions is the value the function builds
    and returns. *)
Fixpoint settle (fuel : nat) (debtors creditors : loc) (instructions : list Transfer.t)
    : Run (list Transfer.t) :=
  ds ← readArray debtors;
  cs ← readArray creditors;
  match ds, cs with
  | debtor :: _, creditor :: _ =>
      match fuel with
      | O => lift OutOfFuel
      | S fuel' =>
          d ← readBalance debtor;
          c ← readBalance creditor;
          let paymentAmount :=
            Js.Math_min (Js.Math_abs (ParticipantBalance.netAmount d))
                        (ParticipantBalance.netAmount c) in
          from ← lift (Calculations.participant_name d);
          to ← lift (Calculations.participant_name c);
          let instructions' :=
            instructions ++
              [ {| Transfer.from := from; Transfer.to := to;
                   Transfer.amount := roundToTwoDecimals paymentAmount |} ] in
          update_netAmount debtor (fun n => n + paymentAmount);;
          update_netAmount creditor (fun n => n - paymentAmount);;
          shift_if_settled debtor debtors;;
          shift_if_settled creditor creditors;;
          settle fuel' debtors creditors instructions'
      end
  | _, _ => mret instructions
  end.

(** [balances] is the reference of the input array. *)
Definition generatePaymentInstructions_fuel (fuel : nat) (balances : loc)
    : Run (list Transfer.t) :=
  negatives ← Array_filter (fun b => Js.ltb (ParticipantBalance.netAmount b) 0) balances;
  debtors ← Array_mapCopy negatives;
  positives ← Array_filter (fun b => Js.gtb (ParticipantBalance.netAmount b) 0) balances;
  creditors ← Array_mapCopy positives;
  settle fuel debtors creditors [].

(** A heap that holds the list [bs] as an array at the reference
    [balances]. *)
Definition holds (h : heap) (balances : loc) (bs : list ParticipantBalance.t) : Prop :=
  exists refs,
    h !! balances = Some (ArrayObject refs)
    /\ Forall2 (fun r b => h !! r = Some (BalanceObject b)) refs bs.

End Heap.

(** ** [utils/index.ts]: the two tax helpers

    A missing [rate] argument takes the default value. *)

Module Utils.

Definition calculateSst (amount : Q) (rate : option Q) : Q :=
  roundToTwoDecimals (amount * default 0.06 rate).

Definition calculateServiceCharge (amount : Q) (rate : option Q) : Q :=
  roundToTwoDecimals (amount * default 0.10 rate).

End Utils.

(** ** The local storage service: bill items

    The items of all sessions are kept as one JSON array under the key
    [billsplit_items].  An operation reads the array, works on the parsed
    copy and writes the whole array back.  [createdAt] is left out. *)

Module LocalStorage.

(** A stored [BillItem]: the fields the engine reads, [sessionId] and
    [perPersonAmount].  [perPersonAmount] is [None] when the division that
    computes it is by zero, so that the value is not a finite number. *)
Module StoredItem.
Record t := mk {
  item : BillItem.t;
  sessionId : string;
  perPersonAmount : option Q
}.
End StoredItem.

Module AddItemForm.
Record t := mk {
  name : string;
  amount : Q;
  paidBy : string;
  sharedBy : list string;
  hasSst : bool
}.
End AddItemForm.

(** [Partial<AddItemForm>]: [None] is a field that is [undefined]. *)
Module PartialAddItemForm.
Record t := mk {
  name : option string;
  amount : option Q;
  paidBy : option string;
  sharedBy : option (list string);
  hasSst : option bool
}.
End PartialAddItemForm.

(** How an [async] function ends. *)
Inductive Promise (A : Type) : Type :=
| Fulfilled (a : A)
| Rejected (message : string).

Arguments Fulfilled {A} a.
Arguments Rejected {A} message.

(** The value under the key; [None]: the key is not set. *)
Definition Store : Type := option (list StoredItem.t).

(** [x || y] on strings and on numbers: the empty string and 0 are
    falsy, as is [undefined]. *)
Definition orString (x : option string) (y : string) : string :=
  match x with
  | Some s => if String.eqb s EmptyString then y else s
  | None => y
  end.

Definition orNumber (x : option Q) (y : Q) : Q :=
  match x with
  | Some q => if Qeq_bool q 0 then y else q
  | None => y
  end.

(** [x / array.length] *)
Definition perPerson (amount : Q) (sharedBy : list string) : option Q :=
  if (length sharedBy =? 0)%nat then None else Some (amount / Js.lengthQ sharedBy).

(** [items.findIndex(i => i.id === itemId)]; [None] is -1. *)
Fixpoint findIndex (itemId : string) (items : list StoredItem.t) : option nat :=
  match items with
  | [] => None
  | i :: rest =>
      if String.eqb (BillItem.id (StoredItem.item i)) itemId then Some 0%nat
      else S <$> findIndex itemId rest
  end.

(** [storage.get(STORAGE_KEYS.ITEMS) || []] *)
Definition storage_get (store : Store) : list StoredItem.t := default [] store.

(** [storage.set].  [accepted] tells whether [localStorage.setItem]
    takes the array; when it throws, [storage.set] swallows the error
    and the key keeps its value. *)
Definition storage_set (accepted : bool) (items : list StoredItem.t) (store : Store)
    : Store :=
  if accepted then Some items else store.

(** [items.add]; [newId] is what [generateItemId()] returns. *)
Definition add (accepted : bool) (newId : string) (sessionId : string)
    (data : AddItemForm.t) (store : Store) : Store * StoredItem.t :=
  let items := storage_get store in
  let newItem :=
    {| StoredItem.item :=
         {| BillItem.id := newId;
            BillItem.name := AddItemForm.name data;
            BillItem.totalAmount := AddItemForm.amount data;
            BillItem.paidBy := AddItemForm.paidBy data;
            BillItem.sharedBy := AddItemForm.sharedBy data;
            BillItem.hasSst := AddItemForm.hasSst data;
            BillItem.sstAmount :=
              Some (if AddItemForm.hasSst data then AddItemForm.amount data * 0.06 else 0) |};
       StoredItem.sessionId := sessionId;
       StoredItem.perPersonAmount :=
         perPerson (AddItemForm.amount data) (AddItemForm.sharedBy data) |} in
  (storage_set accepted (items ++ [newItem]) store, newItem).

(** [items.update].  The index that [findIndex] returns lies within the
    array, so the second rejection is never reached. *)
Definition update (accepted : bool) (itemId : string) (data : PartialAddItemForm.t)
    (store : Store) : Store * Promise StoredItem.t :=
  let items := storage_get store in
  match findIndex itemId items with
  | None => (store, Rejected "Item not found")
  | Some index =>
      match items !! index with
      | None => (store, Rejected "Item not found")
      | Some currentItem =>
          let current := StoredItem.item currentItem in
          let amount := orNumber (PartialAddItemForm.amount data) (BillItem.totalAmount current) in
          let sharedBy := default (BillItem.sharedBy current) (PartialAddItemForm.sharedBy data) in
          let updatedItem :=
            {| StoredItem.item :=
                 {| BillItem.id := BillItem.id current;
                    BillItem.name :=
                      orString (PartialAddItemForm.name data) (BillItem.name current);
                    BillItem.totalAmount := amount;
                    BillItem.paidBy :=
                      orString (PartialAddItemForm.paidBy data) (BillItem.paidBy current);
                    BillItem.sharedBy := sharedBy;
                    BillItem.hasSst :=
                      default (BillItem.hasSst current) (PartialAddItemForm.hasSst data);
                    BillItem.sstAmount :=
                      Some (if default false (PartialAddItemForm.hasSst data)
                            then amount * 0.06 else 0) |};
               StoredItem.sessionId := StoredItem.sessionId currentItem;
               StoredItem.perPersonAmount := perPerson amount sharedBy |} in
          (storage_set accepted (<[index := updatedItem]> items) store,
           Fulfilled updatedItem)
      end
  end.

(** [items.remove] *)
Definition remove (accepted : bool) (itemId : string) (store : Store) : Store :=
  let items := storage_get store in
  let filtered :=
    List.filter (fun i => negb (String.eqb (BillItem.id (StoredItem.item i)) itemId)) items in
  storage_set accepted filtered store.

(** [items.getBySession] *)
Definition getBySession (sessionId : string) (store : Store) : list StoredItem.t :=
  let items := storage_get store in
  List.filter (fun i => String.eqb (StoredItem.sessionId i) sessionId) items.


End LocalStorage.

(** ** [components/session/SessionHistory.tsx]: the total of a session *)

Module SessionHistory.


End SessionHistory.

(** ** IEEE 754 binary64: the numbers of JavaScript

    A [number] is a rational, an infinity or [NaN].  An operation returns
    the exact result rounded to the nearest double, a tie going to the
    even significand ([fl]); a result beyond the largest double is an
    infinity.  The sign of a zero is not kept: the code never divides by
    a computed zero and never prints one. *)

Module Binary64.

Inductive number : Type :=
| Finite (value : Q)
| PosInfinity
| NegInfinity
| NaN.

Definition pow2 (k : Z) : Q := 2 ^ k.

(** [floorLog2 a], for [0 < a]: the [k] with [2^k <= a < 2^(k+1)]. *)
Definition floorLog2 (a : Q) : Z :=
  let k := (Z.log2 (Qnum a) - Z.log2 (Zpos (Qden a)))%Z in
  if Qle_bool (pow2 k) a then k else (k - 1)%Z.

(** Nearest integer, a tie goes to the even one. *)
Definition roundHalfEven (x : Q) : Z :=
  let f := Qfloor x in
  match Qcompare (x - inject_Z f) (1 # 2) with
  | Lt => f
  | Gt => (f + 1)%Z
  | Eq => if Z.even f then f else (f + 1)%Z
  end.

(** The largest double, [(2^53 - 1) * 2^971]. *)
Definition maxValue : Q := inject_Z ((2 ^ 53 - 1) * 2 ^ 971).

(** The exponent of the last place of the doubles around [a]: 53 bits of
    significand, and no exponent below that of the subnormal numbers. *)
Definition ulpExponent (a : Q) : Z := Z.max (floorLog2 a - 52) (-1074).

(** [0 < a] rounded to a multiple of its last place. *)
Definition roundPositive (a : Q) : Q :=
  let e := ulpExponent a in
  Qred (inject_Z (roundHalfEven (a / pow2 e)) * pow2 e).

Definition roundReduced (q : Q) : number :=
  match Qcompare q 0 with
  | Eq => Finite 0
  | Gt => let r := roundPositive q in
          if Qle_bool r maxValue then Finite r else PosInfinity
  | Lt => let r := roundPositive (- q) in
          if Qle_bool r maxValue then Finite (- r) else NegInfinity
  end.

(** The double nearest to [q]. *)
Definition fl (q : Q) : number := roundReduced (Qred q).

(** An integer, and [array.length], as a number. *)
Definition ofZ (z : Z) : number := fl (inject_Z z).
Definition lengthNumber {A : Type} (l : list A) : number := ofZ (Z.of_nat (length l)).

Definition neg (x : number) : number :=
  match x with
  | Finite q => Finite (- q)
  | PosInfinity => NegInfinity
  | NegInfinity => PosInfinity
  | NaN => NaN
  end.

(** [x + y] *)
Definition add (x y : number) : number :=
  match x, y with
  | NaN, _ | _, NaN => NaN
  | Finite a, Finite b => fl (a + b)
  | PosInfinity, NegInfinity | NegInfinity, PosInfinity => NaN
  | PosInfinity, _ | _, PosInfinity => PosInfinity
  | NegInfinity, _ | _, NegInfinity => NegInfinity
  end.

(** [x - y] *)
Definition sub (x y : number) : number := add x (neg y).

(** The infinity of the sign of [a] ([NaN] for zero), and its opposite. *)
Definition infinityOfSign (a : Q) : number :=
  match Qcompare a 0 with
  | Eq => NaN
  | Gt => PosInfinity
  | Lt => NegInfinity
  end.

(** [x * y] *)
Definition mul (x y : number) : number :=
  match x, y with
  | NaN, _ | _, NaN => NaN
  | Finite a, Finite b => fl (a * b)
  | Finite a, PosInfinity | PosInfinity, Finite a => infinityOfSign a
  | Finite a, NegInfinity | NegInfinity, Finite a => neg (infinityOfSign a)
  | PosInfinity, PosInfinity | NegInfinity, NegInfinity => PosInfinity
  | PosInfinity, NegInfinity | NegInfinity, PosInfinity => NegInfinity
  end.

(** [x / y]; a zero divisor is the positive zero. *)
Definition div (x y : number) : number :=
  match x, y with
  | NaN, _ | _, NaN => NaN
  | Finite a, Finite b =>
      if Qeq_bool b 0 then infinityOfSign a else fl (a / b)
  | Finite _, _ => Finite 0
  | PosInfinity, Finite b => if Qle_bool 0 b then PosInfinity else NegInfinity
  | NegInfinity, Finite b => if Qle_bool 0 b then NegInfinity else PosInfinity
  | _, _ => NaN
  end.

(** [x < y], [x <= y] and [x > y]: false when an operand is [NaN]. *)
Definition ltb (x y : number) : bool :=
  match x, y with
  | NaN, _ | _, NaN => false
  | Finite a, Finite b => negb (Qle_bool b a)
  | NegInfinity, NegInfinity | PosInfinity, _ | _, NegInfinity => false
  | _, _ => true
  end.

Definition leb (x y : number) : bool :=
  match x, y with
  | NaN, _ | _, NaN => false
  | Finite a, Finite b => Qle_bool a b
  | NegInfinity, _ | _, PosInfinity => true
  | _, _ => false
  end.

Definition gtb (x y : number) : bool := ltb y x.

(** [Math.round]: the nearest integer, a tie goes up. *)
Definition Math_round (x : number) : number :=
  match x with
  | Finite q => Finite (inject_Z (Qfloor (q + (1 # 2))))
  | _ => x
  end.

Definition Math_abs (x : number) : number :=
  match x with
  | Finite q => Finite (Qabs q)
  | NaN => NaN
  | _ => PosInfinity
  end.

(** [Math.min]: [NaN] when an argument is. *)
Definition Math_min (x y : number) : number :=
  match x, y with
  | NaN, _ | _, NaN => NaN
  | _, _ => if ltb y x then y else x
  end.

(** [q] with its fraction dropped. *)
Definition truncate (q : Q) : Z :=
  if Qle_bool 0 q then Qfloor q else (- Qfloor (- q))%Z.

(** [x % y]: the remainder has the sign of [x] and is exact. *)
Definition rem (x y : number) : number :=
  match x, y with
  | Finite a, Finite b =>
      if Qeq_bool b 0 then NaN
      else fl (a - b * inject_Z (truncate (a / b)))
  | Finite a, (PosInfinity | NegInfinity) => Finite a
  | _, _ => NaN
  end.

(** Truthiness of a possibly missing number: [undefined], [0] and [NaN]
    are falsy. *)
Definition truthy (x : option number) : bool :=
  match x with
  | Some (Finite q) => negb (Qeq_bool q 0)
  | Some NaN | None => false
  | Some _ => true
  end.

Definition isFinite (x : number) : bool :=
  match x with
  | Finite _ => true
  | _ => false
  end.

(** No double is beyond the largest one.  A [Finite] rational that is
    would not be a value of the program; [representable] leaves it out. *)
Definition representable (x : number) : bool :=
  match x with
  | Finite q => Qle_bool (Qabs q) maxValue
  | _ => true
  end.

(** The finite numbers of the range of the doubles. *)
Definition inRange (x : number) : bool := isFinite x && representable x.



End Binary64.

(** ** The two engines on doubles

    The functions of [utils/index.ts], [utils/malaysian/taxCalculator.ts]
    and [services/calculations.ts] again, statement by statement, with
    every [number] a double of [Binary64] and every operation rounded as
    JavaScript rounds it.  No division is refused here: a zero divisor
    gives an infinity or [NaN], which the later operations carry along.
    Of [Outcome], only [TypeError] and [OutOfFuel] occur. *)

Module Doubles.

Import Binary64.

(** [roundToTwoDecimals]: [Math.round(amount * 100) / 100]. *)
Definition roundToTwoDecimals (amount : number) : number :=
  div (Math_round (mul amount (ofZ 100))) (ofZ 100).

Module MalaysianTaxCalculator.

Record TaxableItem := {
  amount : number;
  hasSST : bool;
  hasServiceCharge : bool;
  isExempt : bool
}.

Record TaxTotals := {
  subtotal : number;
  serviceChargeAmount : number;
  sstAmount : number;
  totalBeforeRounding : number;
  roundingAdjustment : number;
  finalTotal : number
}.

(** The literals [0.06] and [0.10]: the doubles nearest to them. *)
Definition SST_RATE : number := fl 0.06.
Definition SERVICE_CHARGE_RATE : number := fl 0.10.

(** [roundToSen]: [Math.round(amount * 100) / 100]. *)
Definition roundToSen (amount : number) : number :=
  div (Math_round (mul amount (ofZ 100))) (ofZ 100).

Definition applyMalaysianRounding (amount : number) : number :=
  let cents := Math_round (mul amount (ofZ 100)) in
  let lastDigit := rem cents (ofZ 10) in
  let roundedCents :=
    if leb lastDigit (ofZ 2) then sub cents lastDigit
    else if leb lastDigit (ofZ 7) then add (sub cents lastDigit) (ofZ 5)
    else add (sub cents lastDigit) (ofZ 10) in
  div roundedCents (ofZ 100).

(** The three accumulators of the first loop of [calculateTaxes]. *)
Record Bases := {
  b_subtotal : number;
  b_serviceChargeBase : number;
  b_sstBase : number
}.

(** Body of the first loop: an exempt item adds to the subtotal and
    [continue]s. *)
Definition baseStep (acc : Bases) (item : TaxableItem) : Bases :=
  if isExempt item then
    {| b_subtotal := add (b_subtotal acc) (amount item);
       b_serviceChargeBase := b_serviceChargeBase acc;
       b_sstBase := b_sstBase acc |}
  else
    {| b_subtotal := add (b_subtotal acc) (amount item);
       b_serviceChargeBase :=
         if hasServiceCharge item then add (b_serviceChargeBase acc) (amount item)
         else b_serviceChargeBase acc;
       b_sstBase :=
         if hasSST item then add (b_sstBase acc) (amount item) else b_sstBase acc |}.

(** Body of the second loop: SST of one item, on the amount plus the
    item's own service charge. *)
Definition sstStep (sstAmount : number) (item : TaxableItem) : number :=
  if negb (isExempt item) && hasSST item then
    let itemServiceCharge :=
      if hasServiceCharge item then mul (amount item) SERVICE_CHARGE_RATE
      else Finite 0 in
    add sstAmount (mul (add (amount item) itemServiceCharge) SST_RATE)
  else sstAmount.

Definition calculateTaxes (items : list TaxableItem) : TaxTotals :=
  let bases :=
    fold_left baseStep items
      {| b_subtotal := Finite 0; b_serviceChargeBase := Finite 0;
         b_sstBase := Finite 0 |} in
  let serviceChargeAmount :=
    roundToSen (mul (b_serviceChargeBase bases) SERVICE_CHARGE_RATE) in
  let sstAmount := roundToSen (fold_left sstStep items (Finite 0)) in
  let totalBeforeRounding :=
    add (add (b_subtotal bases) serviceChargeAmount) sstAmount in
  let finalTotal := applyMalaysianRounding totalBeforeRounding in
  let roundingAdjustment := sub finalTotal totalBeforeRounding in
  {| subtotal := roundToSen (b_subtotal bases);
     serviceChargeAmount := serviceChargeAmount;
     sstAmount := sstAmount;
     totalBeforeRounding := totalBeforeRounding;
     roundingAdjustment := roundToSen roundingAdjustment;
     finalTotal := finalTotal |}.

End MalaysianTaxCalculator.

(** The data of the split engine; a participant is as before. *)

Module BillItem.
Record t := mk {
  id : string;
  name : string;
  totalAmount : number;
  paidBy : string;
  sharedBy : list string;
  hasSst : bool;
  sstAmount : option number   (* [sstAmount?: number]; [None] is a missing field *)
}.
End BillItem.

Module TaxConfig.
Record t := mk {
  sstRate : number;
  serviceChargeRate : number;
  applyServiceChargeToAll : bool
}.
End TaxConfig.

Module ItemContribution.
Record t := mk {
  itemId : string;
  itemName : string;
  contribution : number;
  sstContribution : number;
  serviceChargeContribution : number
}.
End ItemContribution.

Module ParticipantBalance.
Record t := mk {
  participant : option Participant.t;
  participantId : string;
  name : string;
  totalOwed : number;
  totalPaid : number;
  netAmount : number;
  itemBreakdown : list ItemContribution.t;
  paid : option number;
  owes : option number;
  balance : option number
}.

(** Assignment to the field [netAmount]. *)
Definition set_netAmount (b : t) (v : number) : t :=
  {| participant := participant b; participantId := participantId b; name := name b;
     totalOwed := totalOwed b; totalPaid := totalPaid b; netAmount := v;
     itemBreakdown := itemBreakdown b; paid := paid b; owes := owes b;
     balance := balance b |}.
End ParticipantBalance.

Module Summary.
Record t := mk {
  totalAmount : number;
  totalSst : number;
  totalServiceCharge : number;
  itemCount : nat
}.
End Summary.

Module CalculationResult.
Record t := mk {
  participants : list ParticipantBalance.t;
  summary : Summary.t
}.
End CalculationResult.

Module Session.
Record t := mk {
  participants : list Participant.t;
  items : list BillItem.t
}.
End Session.

Module Transfer.
Record t := mk {
  from : string;
  to : string;
  amount : number
}.
End Transfer.

Module Calculations.

Definition DEFAULT_TAX_CONFIG : TaxConfig.t :=
  {| TaxConfig.sstRate := fl 0.06;
     TaxConfig.serviceChargeRate := fl 0.10;
     TaxConfig.applyServiceChargeToAll := true |}.

Section BillCalculator.

Variable taxConfig : TaxConfig.t.

Definition calculateServiceCharge (amount : number) : number :=
  roundToTwoDecimals (mul amount (TaxConfig.serviceChargeRate taxConfig)).

Definition calculateSst (amount : number) : number :=
  roundToTwoDecimals (mul amount (TaxConfig.sstRate taxConfig)).

(** [item.hasSst && item.sstAmount ? f(item.sstAmount) : otherwise] *)
Definition withSst {A : Type} (item : BillItem.t) (f : number -> A) (otherwise : A) : A :=
  match BillItem.sstAmount item with
  | Some sst => if BillItem.hasSst item && truthy (Some sst) then f sst else otherwise
  | None => otherwise
  end.

Definition calculateItemContribution
    (participant : Participant.t) (item : BillItem.t) (totalParticipants : nat)
    : ItemContribution.t :=
  let isSharing := Js.includes (BillItem.sharedBy item) (Participant.id participant) in
  if negb isSharing then
    {| ItemContribution.itemId := BillItem.id item;
       ItemContribution.itemName := BillItem.name item;
       ItemContribution.contribution := Finite 0;
       ItemContribution.sstContribution := Finite 0;
       ItemContribution.serviceChargeContribution := Finite 0 |}
  else
    let shareCount := lengthNumber (BillItem.sharedBy item) in
    let baseContribution := roundToTwoDecimals (div (BillItem.totalAmount item) shareCount) in
    let sstContribution :=
      withSst item (fun sst => roundToTwoDecimals (div sst shareCount)) (Finite 0) in
    let serviceChargeAmount := calculateServiceCharge (BillItem.totalAmount item) in
    let serviceChargeContribution :=
      if TaxConfig.applyServiceChargeToAll taxConfig
      then roundToTwoDecimals (div serviceChargeAmount (ofZ (Z.of_nat totalParticipants)))
      else roundToTwoDecimals (div serviceChargeAmount shareCount) in
    {| ItemContribution.itemId := BillItem.id item;
       ItemContribution.itemName := BillItem.name item;
       ItemContribution.contribution := baseContribution;
       ItemContribution.sstContribution := sstContribution;
       ItemContribution.serviceChargeContribution := serviceChargeContribution |}.

(** The three [let]/[const] accumulators of [calculateParticipantBalance]. *)
Record Totals := {
  t_totalOwed : number;
  t_totalPaid : number;
  t_itemBreakdown : list ItemContribution.t
}.

(** Body of [items.forEach] in [calculateParticipantBalance]. *)
Definition balanceStep (participant : Participant.t) (totalParticipants : nat)
    (acc : Totals) (item : BillItem.t) : Totals :=
  let contribution := calculateItemContribution participant item totalParticipants in
  let acc1 :=
    if gtb (ItemContribution.contribution contribution) (Finite 0) then
      {| t_totalOwed :=
           add (t_totalOwed acc)
               (add (add (ItemContribution.contribution contribution)
                         (ItemContribution.sstContribution contribution))
                    (ItemContribution.serviceChargeContribution contribution));
         t_totalPaid := t_totalPaid acc;
         t_itemBreakdown := t_itemBreakdown acc ++ [contribution] |}
    else acc in
  if String.eqb (BillItem.paidBy item) (Participant.id participant) then
    let paid1 := add (t_totalPaid acc1) (BillItem.totalAmount item) in
    let paid2 := withSst item (fun sst => add paid1 sst) paid1 in
    let paid3 := add paid2 (calculateServiceCharge (BillItem.totalAmount item)) in
    {| t_totalOwed := t_totalOwed acc1;
       t_totalPaid := paid3;
       t_itemBreakdown := t_itemBreakdown acc1 |}
  else acc1.

Definition calculateParticipantBalance
    (participant : Participant.t) (items : list BillItem.t) (totalParticipants : nat)
    : ParticipantBalance.t :=
  let totals :=
    fold_left (balanceStep participant totalParticipants) items
      {| t_totalOwed := Finite 0; t_totalPaid := Finite 0; t_itemBreakdown := [] |} in
  let totalOwed := t_totalOwed totals in
  let totalPaid := t_totalPaid totals in
  let netAmount := roundToTwoDecimals (sub totalOwed totalPaid) in
  {| ParticipantBalance.participant := Some participant;
     ParticipantBalance.participantId := Participant.id participant;
     ParticipantBalance.name := Participant.name participant;
     ParticipantBalance.totalOwed := roundToTwoDecimals totalOwed;
     ParticipantBalance.totalPaid := roundToTwoDecimals totalPaid;
     ParticipantBalance.netAmount := netAmount;
     ParticipantBalance.itemBreakdown := t_itemBreakdown totals;
     ParticipantBalance.paid := Some (roundToTwoDecimals totalPaid);
     ParticipantBalance.owes := Some (roundToTwoDecimals totalOwed);
     ParticipantBalance.balance := Some netAmount |}.

(** The accumulators and the loop body of [calculateSummary]. *)
Record SummaryTotals := {
  s_totalAmount : number;
  s_totalSst : number;
  s_totalServiceCharge : number
}.

Definition summaryStep (acc : SummaryTotals) (item : BillItem.t) : SummaryTotals :=
  {| s_totalAmount := add (s_totalAmount acc) (BillItem.totalAmount item);
     s_totalSst := withSst item (fun sst => add (s_totalSst acc) sst) (s_totalSst acc);
     s_totalServiceCharge :=
       add (s_totalServiceCharge acc) (calculateServiceCharge (BillItem.totalAmount item)) |}.

Definition calculateSummary (items : list BillItem.t) : Summary.t :=
  let acc := fold_left summaryStep items
               {| s_totalAmount := Finite 0; s_totalSst := Finite 0;
                  s_totalServiceCharge := Finite 0 |} in
  {| Summary.totalAmount := roundToTwoDecimals (s_totalAmount acc);
     Summary.totalSst := roundToTwoDecimals (s_totalSst acc);
     Summary.totalServiceCharge := roundToTwoDecimals (s_totalServiceCharge acc);
     Summary.itemCount := length items |}.

Definition createEmptyResult (participants : list Participant.t) : CalculationResult.t :=
  {| CalculationResult.participants :=
       map (fun p =>
              {| ParticipantBalance.participant := None;
                 ParticipantBalance.participantId := Participant.id p;
                 ParticipantBalance.name := Participant.name p;
                 ParticipantBalance.totalOwed := Finite 0;
                 ParticipantBalance.totalPaid := Finite 0;
                 ParticipantBalance.netAmount := Finite 0;
                 ParticipantBalance.itemBreakdown := [];
                 ParticipantBalance.paid := None;
                 ParticipantBalance.owes := None;
                 ParticipantBalance.balance := None |})
           participants;
     CalculationResult.summary :=
       {| Summary.totalAmount := Finite 0; Summary.totalSst := Finite 0;
          Summary.totalServiceCharge := Finite 0; Summary.itemCount := 0 |} |}.

Definition calculateSession (session : Session.t) : CalculationResult.t :=
  let participants := Session.participants session in
  let items := Session.items session in
  if (length participants =? 0)%nat || (length items =? 0)%nat then
    createEmptyResult participants
  else
    let participantBalances :=
      map (fun participant =>
             calculateParticipantBalance participant items (length participants))
          participants in
    let summary := calculateSummary items in
    {| CalculationResult.participants := participantBalances;
       CalculationResult.summary := summary |}.

End BillCalculator.

(** [debtor.participant.name]: reading [name] of a missing [participant]
    throws. *)
Definition participant_name (b : ParticipantBalance.t) : Outcome string :=
  match ParticipantBalance.participant b with
  | Some p => mret (Participant.name p)
  | None => TypeError
  end.

(** The [while] loop of [generatePaymentInstructions].  [debtors] and
    [creditors] are the two arrays of copies; the head of each is the
    object the body mutates.  One unit of [fuel] is one iteration, and
    [OutOfFuel] says that the loop has not ended within [fuel]
    iterations. *)
Fixpoint settle (fuel : nat) (debtors creditors : list ParticipantBalance.t)
    (instructions : list Transfer.t) : Outcome (list Transfer.t) :=
  match debtors, creditors with
  | debtor :: debtors_rest, creditor :: creditors_rest =>
      match fuel with
      | O => OutOfFuel
      | S fuel' =>
          let paymentAmount :=
            Math_min (Math_abs (ParticipantBalance.netAmount debtor))
                     (ParticipantBalance.netAmount creditor) in
          from ← participant_name debtor;
          to ← participant_name creditor;
          let instructions' :=
            instructions ++
              [ {| Transfer.from := from; Transfer.to := to;
                   Transfer.amount := roundToTwoDecimals paymentAmount |} ] in
          let debtor' :=
            ParticipantBalance.set_netAmount debtor
              (add (ParticipantBalance.netAmount debtor) paymentAmount) in
          let creditor' :=
            ParticipantBalance.set_netAmount creditor
              (sub (ParticipantBalance.netAmount creditor) paymentAmount) in
          let debtors' :=
            if ltb (Math_abs (ParticipantBalance.netAmount debtor')) (fl 0.01)
            then debtors_rest else debtor' :: debtors_rest in
          let creditors' :=
            if ltb (Math_abs (ParticipantBalance.netAmount creditor')) (fl 0.01)
            then creditors_rest else creditor' :: creditors_rest in
          settle fuel' debtors' creditors' instructions'
      end
  | _, _ => mret instructions
  end.

(** [generatePaymentInstructions], cut off after [fuel] iterations of
    its loop. *)
Definition generatePaymentInstructions_fuel (fuel : nat)
    (balances : list ParticipantBalance.t) : Outcome (list Transfer.t) :=
  let debtors :=
    List.filter (fun b => ltb (ParticipantBalance.netAmount b) (Finite 0)) balances in
  let creditors :=
    List.filter (fun b => gtb (ParticipantBalance.netAmount b) (Finite 0)) balances in
  settle fuel debtors creditors [].

End Calculations.

End Doubles.

(** * Part II: properties *)

(** ** Facts on the arithmetic *)

Section QSums.

(** Sum of a list of amounts. *)
Definition sumQ (l : list Q) : Q := fold_right Qplus 0 l.

Lemma sumQ_app (l1 l2 : list Q) : sumQ (l1 ++ l2) == sumQ l1 + sumQ l2.
Proof. induction l1 as [|a l1 IH]; simpl; [ring | rewrite IH; ring]. Qed.

End QSums.

Module JsFacts.
Import Js.


Lemma ltb_lt a b : ltb a b = true <-> a < b.
Proof.
  unfold ltb. rewrite negb_true_iff, <- not_true_iff_false, Qle_bool_iff.
  split; [apply Qnot_le_lt | apply Qlt_not_le].
Qed.


Lemma gtb_gt a b : gtb a b = true <-> b < a.
Proof. apply ltb_lt. Qed.




#[global] Instance Math_round_proper : Proper (Qeq ==> eq) Math_round.
Proof. intros x y Hxy. unfold Math_round. now rewrite Hxy. Qed.

#[global] Instance roundToTwoDecimals_proper : Proper (Qeq ==> Qeq) roundToTwoDecimals.
Proof. intros x y Hxy. unfold roundToTwoDecimals. now rewrite Hxy. Qed.

End JsFacts.

(** ** The tax engine *)

Module TaxEngineFacts.
Import Js JsFacts MalaysianTaxCalculator.

#[global] Instance roundToSen_proper : Proper (Qeq ==> Qeq) roundToSen.
Proof. intros x y Hxy. unfold roundToSen. now rewrite Hxy. Qed.

(** What one item adds to the SST amount, to the service-charge base
    and to the subtotal, in the words of the specification. *)
Definition sstOfItem (item : TaxableItem) : Q :=
  if isExempt item then 0
  else if hasSST item then
    (amount item + (if hasServiceCharge item then amount item * 0.10 else 0)) * 0.06
  else 0.


Lemma fold_sstStep (items : list TaxableItem) (acc : Q) :
  fold_left sstStep items acc == acc + sumQ (map sstOfItem items).
Proof.
  revert acc. induction items as [|item items IH]; intros acc; simpl.
  - ring.
  - rewrite IH. unfold sstStep, sstOfItem, SST_RATE, SERVICE_CHARGE_RATE.
    destruct (isExempt item), (hasSST item), (hasServiceCharge item); simpl; ring.
Qed.



Lemma sstAmount_closed (items : list TaxableItem) :
  sstAmount (calculateTaxes items) == roundToSen (sumQ (map sstOfItem items)).
Proof.
  unfold calculateTaxes; simpl. apply roundToSen_proper.
  rewrite fold_sstStep. ring.
Qed.



(** The digit rule on integer cents: [d = cents mod 10], [base = cents - d]. *)
Definition digitRule (cents : Z) : Z :=
  let d := (cents mod 10)%Z in
  let base := (cents - d)%Z in
  if (d <=? 2)%Z then base
  else if (d <=? 7)%Z then (base + 5)%Z
  else (base + 10)%Z.



End TaxEngineFacts.
(** ** The split engine: contributions and balances *)

Module CalculationsFacts.
Import Js JsFacts Calculations.

Lemma includes_In (l : list string) (x : string) : includes l x = true <-> In x l.
Proof.
  unfold includes. rewrite existsb_exists. split.
  - intros (y & Hy & Heq). apply String.eqb_eq in Heq. now subst.
  - intros H. exists x. split; [assumption | apply String.eqb_refl].
Qed.

Lemma bind_Returned_inv {A B : Type} (m : Outcome A) (k : A -> Outcome B) (b : B) :
  m ≫= k = Returned b -> exists a, m = Returned a /\ k a = Returned b.
Proof. destruct m; simpl; intros H; try discriminate. eauto. Qed.

Lemma mret_Returned_inv {A : Type} (a b : A) : mret a = Returned b -> a = b.
Proof. now intros [= ->]. Qed.

Lemma divide_Returned (x y : Q) : ~ y == 0 -> divide x y = Returned (x / y).
Proof.
  intros Hy. unfold divide. destruct (Qeq_bool y 0) eqn:E; [|reflexivity].
  apply Qeq_bool_iff in E. contradiction.
Qed.

Lemma lengthQ_nonzero {A : Type} (l : list A) : l <> [] -> ~ lengthQ l == 0.
Proof.
  intros Hl. destruct l as [|a l]; [contradiction|].
  unfold lengthQ. change 0 with (inject_Z 0). rewrite inject_Z_injective.
  simpl length. lia.
Qed.

Lemma of_nat_nonzero (n : nat) : (0 < n)%nat -> ~ inject_Z (Z.of_nat n) == 0.
Proof.
  intros Hn. change 0 with (inject_Z 0). rewrite inject_Z_injective. lia.
Qed.

(** The contribution record of a participant who does not share the item. *)
Definition noContribution (item : BillItem.t) : ItemContribution.t :=
  {| ItemContribution.itemId := BillItem.id item;
     ItemContribution.itemName := BillItem.name item;
     ItemContribution.contribution := 0;
     ItemContribution.sstContribution := 0;
     ItemContribution.serviceChargeContribution := 0 |}.

Section PerCalculator.

Variable taxConfig : TaxConfig.t.

Lemma calculateItemContribution_not_sharing participant item totalParticipants :
  includes (BillItem.sharedBy item) (Participant.id participant) = false ->
  calculateItemContribution taxConfig participant item totalParticipants
  = Returned (noContribution item).
Proof. intros H. unfold calculateItemContribution. rewrite H. reflexivity. Qed.

(** With at least one participant in the session, no divisor of
    [calculateItemContribution] is zero. *)
Lemma calculateItemContribution_Returned participant item totalParticipants :
  (0 < totalParticipants)%nat ->
  exists c, calculateItemContribution taxConfig participant item totalParticipants
            = Returned c.
Proof.
  intros Hn. unfold calculateItemContribution.
  destruct (includes _ _) eqn:Hinc; simpl; [|eauto].
  assert (~ lengthQ (BillItem.sharedBy item) == 0) as Hshare.
  { apply lengthQ_nonzero. apply includes_In in Hinc.
    intros E. rewrite E in Hinc. destruct Hinc. }
  pose proof (of_nat_nonzero _ Hn) as Htotal.
  rewrite (divide_Returned (BillItem.totalAmount item) _ Hshare). simpl.
  assert (exists s, withSst item
            (fun sst => roundToTwoDecimals <$> divide sst (lengthQ (BillItem.sharedBy item)))
            (mret 0) = Returned s) as [s Hs].
  { unfold withSst. destruct (BillItem.sstAmount item) as [sst|]; [|eauto].
    destruct (_ && _); [|eauto]. rewrite (divide_Returned _ _ Hshare). simpl. eauto. }
  rewrite Hs. simpl.
  destruct (TaxConfig.applyServiceChargeToAll taxConfig);
    rewrite divide_Returned by assumption; simpl; eauto.
Qed.

Lemma balanceStep_Returned participant totalParticipants acc item :
  (0 < totalParticipants)%nat ->
  exists acc', balanceStep taxConfig participant totalParticipants acc item = Returned acc'.
Proof.
  intros Hn. unfold balanceStep.
  destruct (calculateItemContribution_Returned participant item _ Hn) as [c ->]. simpl.
  destruct (String.eqb _ _); eauto.
Qed.

Lemma forEach_Returned {A S : Type} (body : S -> A -> Outcome S) (l : list A) :
  (forall s x, exists s', body s x = Returned s') ->
  forall s, exists s', forEach body l s = Returned s'.
Proof.
  intros Hbody. induction l as [|x l IH]; intros s; simpl; [eauto|].
  destruct (Hbody s x) as [s' ->]. simpl. apply IH.
Qed.

Lemma calculateParticipantBalance_Returned participant items totalParticipants :
  (0 < totalParticipants)%nat ->
  exists b, calculateParticipantBalance taxConfig participant items totalParticipants
            = Returned b
            /\ ParticipantBalance.participant b = Some participant.
Proof.
  intros Hn. unfold calculateParticipantBalance.
  destruct (forEach_Returned (balanceStep taxConfig participant totalParticipants) items
              (fun s x => balanceStep_Returned participant _ s x Hn)
              {| t_totalOwed := 0; t_totalPaid := 0; t_itemBreakdown := [] |})
    as [totals ->].
  simpl. eauto.
Qed.

Lemma mapM_Returned {A B : Type} (f : A -> Outcome B) (P : B -> Prop) (l : list A) :
  (forall x, In x l -> exists y, f x = Returned y /\ P y) ->
  exists ys, mapM f l = Returned ys /\ length ys = length l /\ Forall P ys.
Proof.
  induction l as [|x l IH]; intros Hf; simpl.
  - exists []. repeat split. constructor.
  - destruct (Hf x (or_introl eq_refl)) as (y & Hy & HP).
    destruct IH as (ys & Hys & Hlen & HPs); [intros; apply Hf; now right|].
    exists (y :: ys). rewrite Hy. simpl. rewrite Hys. simpl.
    repeat split; [now rewrite Hlen | now constructor].
Qed.

(** A balance that can take part in a settlement without a [TypeError],
    or that is settled already. *)
Definition named_or_settled (b : ParticipantBalance.t) : Prop :=
  is_Some (ParticipantBalance.participant b) \/ ParticipantBalance.netAmount b = 0.

(** [calculateSession] returns on every session: it never divides by
    zero.  One balance per participant comes back. *)
Lemma calculateSession_Returned (session : Session.t) :
  exists r, calculateSession taxConfig session = Returned r
            /\ length (CalculationResult.participants r)
               = length (Session.participants session)
            /\ Forall named_or_settled (CalculationResult.participants r).
Proof.
  unfold calculateSession.
  destruct (_ || _) eqn:Hempty.
  - eexists. split; [reflexivity|]. simpl. rewrite length_map. split; [reflexivity|].
    apply Forall_map. apply Forall_forall. intros p _. now right.
  - apply orb_false_iff in Hempty as [Hp _]. apply Nat.eqb_neq in Hp.
    destruct (mapM_Returned
                (fun participant =>
                   calculateParticipantBalance taxConfig participant (Session.items session)
                     (length (Session.participants session)))
                (fun b => is_Some (ParticipantBalance.participant b))
                (Session.participants session)) as (bs & Hbs & Hlen & Hall).
    { intros p _.
      destruct (calculateParticipantBalance_Returned p (Session.items session)
                  (length (Session.participants session)) ltac:(lia)) as (b & Hb & Hpb).
      exists b. split; [assumption|]. rewrite Hpb. eauto. }
    rewrite Hbs. simpl. eexists. split; [reflexivity|]. simpl. split; [assumption|].
    eapply Forall_impl; [exact Hall|]. intros b Hb. now left.
Qed.

(** *** Items that nobody shares (C8) *)

Lemma forEach_app {A S : Type} (body : S -> A -> Outcome S) (l1 l2 : list A) (s : S) :
  forEach body (l1 ++ l2) s = forEach body l1 s ≫= forEach body l2.
Proof.
  revert s. induction l1 as [|x l1 IH]; intros s; simpl; [reflexivity|].
  destruct (body s x); simpl; auto.
Qed.

(** What is owed after the loop depends on the accumulators only through
    what was owed before it. *)
Lemma forEach_totalOwed {B : Type} (g : Q -> B) participant n items acc1 acc2 :
  t_totalOwed acc1 = t_totalOwed acc2 ->
  (fun t => g (t_totalOwed t)) <$> forEach (balanceStep taxConfig participant n) items acc1
  = (fun t => g (t_totalOwed t)) <$> forEach (balanceStep taxConfig participant n) items acc2.
Proof.
  revert acc1 acc2. induction items as [|item items IH]; intros acc1 acc2 Hacc; simpl.
  - unfold fmap, Outcome_fmap; simpl. now rewrite Hacc.
  - unfold balanceStep.
    destruct (calculateItemContribution taxConfig participant item n) as [c| | |];
      simpl; try reflexivity.
    destruct (gtb _ _), (String.eqb _ _); simpl; apply IH; simpl; congruence.
Qed.

Lemma totalOwed_calculateParticipantBalance participant items n :
  ParticipantBalance.totalOwed <$> calculateParticipantBalance taxConfig participant items n
  = (fun t => roundToTwoDecimals (t_totalOwed t)) <$>
      forEach (balanceStep taxConfig participant n) items
        {| t_totalOwed := 0; t_totalPaid := 0; t_itemBreakdown := [] |}.
Proof.
  unfold calculateParticipantBalance. destruct (forEach _ _ _); reflexivity.
Qed.

(** C8.  An item whose [sharedBy] is empty: every participant gets the
    all-zero contribution, so no division is evaluated; the loop body
    leaves what the participant owes as it was; a balance computed with
    the item owes what it owes without the item; and [calculateSession]
    returns, without a division by zero or a thrown error, on every
    session that holds such an item. *)
Theorem empty_sharedBy_contributes_nothing (item : BillItem.t) :
  BillItem.sharedBy item = [] ->
  (forall participant totalParticipants,
      calculateItemContribution taxConfig participant item totalParticipants
      = Returned (noContribution item))
  /\ (forall participant totalParticipants acc,
        exists acc',
          balanceStep taxConfig participant totalParticipants acc item = Returned acc'
          /\ t_totalOwed acc' = t_totalOwed acc
          /\ t_itemBreakdown acc' = t_itemBreakdown acc)
  /\ (forall participant totalParticipants before after,
        ParticipantBalance.totalOwed <$>
          calculateParticipantBalance taxConfig participant (before ++ item :: after)
            totalParticipants
        = ParticipantBalance.totalOwed <$>
            calculateParticipantBalance taxConfig participant (before ++ after)
              totalParticipants)
  /\ (forall participants before after,
        exists r,
          calculateSession taxConfig
            {| Session.participants := participants;
               Session.items := before ++ item :: after |}
          = Returned r).
Proof.
  intros Hempty.
  assert (forall participant totalParticipants,
             calculateItemContribution taxConfig participant item totalParticipants
             = Returned (noContribution item)) as Hzero.
  { intros. apply calculateItemContribution_not_sharing. now rewrite Hempty. }
  assert (forall participant totalParticipants acc,
        exists acc',
          balanceStep taxConfig participant totalParticipants acc item = Returned acc'
          /\ t_totalOwed acc' = t_totalOwed acc
          /\ t_itemBreakdown acc' = t_itemBreakdown acc) as Hstep.
  { intros participant n acc. unfold balanceStep. rewrite Hzero. simpl.
    destruct (String.eqb _ _); eexists; (split; [reflexivity|]); simpl; auto. }
  repeat split; try assumption.
  - intros participant n before after.
    rewrite !totalOwed_calculateParticipantBalance, !forEach_app.
    destruct (forEach _ before _) as [s| | |]; simpl; try reflexivity.
    destruct (Hstep participant n s) as (s' & -> & Howed & _). simpl.
    now apply forEach_totalOwed.
  - intros participants before after.
    destruct (calculateSession_Returned
                {| Session.participants := participants;
                   Session.items := before ++ item :: after |}) as (r & Hr & _).
    eauto.
Qed.

(** *** SST comes from the stored [sstAmount] only (C9) *)

(** [sstAmount] is 0, [undefined] or missing. *)
Definition sstAmount_absent (item : BillItem.t) : Prop :=
  BillItem.sstAmount item = None
  \/ exists q, BillItem.sstAmount item = Some q /\ q == 0.

Lemma sstAmount_absent_falsy item :
  sstAmount_absent item -> truthy (BillItem.sstAmount item) = false.
Proof.
  intros [-> | (q & -> & Hq)]; [reflexivity|]. simpl.
  apply Qeq_bool_iff in Hq. now rewrite Hq.
Qed.

Lemma withSst_absent {A : Type} item (f : Q -> A) (otherwise : A) :
  sstAmount_absent item -> withSst item f otherwise = otherwise.
Proof.
  intros H. apply sstAmount_absent_falsy in H. unfold withSst.
  destruct (BillItem.sstAmount item); [|reflexivity].
  rewrite H, andb_false_r. reflexivity.
Qed.

End PerCalculator.

(** The theorem on a dangling item paid by Alice and shared by nobody. *)
Lemma empty_sharedBy_contributes_nothing_witness :
  let item := BillItem.mk "1" "Corkage" 25 "1" [] true (Some 1.5) in
  BillItem.sharedBy item = []
  /\ forall participant totalParticipants,
       calculateItemContribution DEFAULT_TAX_CONFIG participant item totalParticipants
       = Returned (noContribution item).
Proof.
  intros item. split; [reflexivity|].
  exact (proj1 (empty_sharedBy_contributes_nothing DEFAULT_TAX_CONFIG item eq_refl)).
Defined.


(** *** The engine on concrete sessions (C2, C3, C4) *)

(** The fixtures of [calculations.test.ts], with the stored SST amount the
    item services compute ([hasSst ? amount * 0.06 : 0]). *)
Definition alice : Participant.t := Participant.mk "1" "Alice".
Definition bob : Participant.t := Participant.mk "2" "Bob".
Definition charlie : Participant.t := Participant.mk "3" "Charlie".

Definition pizza : BillItem.t :=
  BillItem.mk "1" "Pizza" 30 "1" ["1"; "2"; "3"]%string false (Some 0).
Definition drinks : BillItem.t :=
  BillItem.mk "2" "Drinks" 15 "2" ["2"; "3"]%string true (Some (15 * 0.06)).

(** The same Drinks item as the test file writes it, without [sstAmount]. *)
Definition drinks_unstored : BillItem.t :=
  BillItem.mk "2" "Drinks" 15 "2" ["2"; "3"]%string true None.

(** A balance read as name, paid, owes and net. *)
Definition balance_is (b : ParticipantBalance.t) (name : string) (paid owes net : Q) : Prop :=
  ParticipantBalance.name b = name
  /\ ParticipantBalance.totalPaid b == paid
  /\ ParticipantBalance.totalOwed b == owes
  /\ ParticipantBalance.netAmount b == net.

(** The two items as the session page reads them. *)
Definition pizza_on_page : SessionPage.Item :=
  {| SessionPage.amount := Some 30; SessionPage.paidBy := "1";
     SessionPage.sharedBy := ["1"; "2"; "3"]%string; SessionPage.hasSst := false |}.
Definition drinks_on_page : SessionPage.Item :=
  {| SessionPage.amount := Some 15; SessionPage.paidBy := "2";
     SessionPage.sharedBy := ["2"; "3"]%string; SessionPage.hasSst := true |}.

Definition page_balance_is (b : SessionPage.Balance) (name : string) (paid owes net : Q)
    : Prop :=
  SessionPage.name b = name
  /\ SessionPage.paid b == paid
  /\ SessionPage.owes b == owes
  /\ SessionPage.balance b == net.

(** C4.  What the engine returns on the Pizza and Drinks scenario: the
    service charge is part of every figure and the net amount is owed
    minus paid.  Alice: paid 33, owes 11, net -22; Bob: paid 17.40, owes
    19.45, net 2.05; Charlie: paid 0, owes 19.45, net 19.45.  None of the
    three matches the figures of the test (30, 10, 20; 15.90, 17.95, -2.05;
    0, 17.95, -17.95); without a stored SST amount Bob paid 16.50 and
    owes 19.  The computation of the session page, without service charge
    and with paid minus owed, gives the figures of the test. *)
Theorem end_to_end_scenario_as_computed :
  (exists a b c,
      calculateParticipantBalances [pizza; drinks] [alice; bob; charlie]
      = Returned [a; b; c]
      /\ balance_is a "Alice" 33 11 (-22)
      /\ balance_is b "Bob" 17.40 19.45 2.05
      /\ balance_is c "Charlie" 0 19.45 19.45
      /\ ~ balance_is a "Alice" 30 10 20
      /\ ~ balance_is b "Bob" 15.90 17.95 (-2.05)
      /\ ~ balance_is c "Charlie" 0 17.95 (-17.95))
  /\ (exists a b c,
        calculateParticipantBalances [pizza; drinks_unstored] [alice; bob; charlie]
        = Returned [a; b; c]
        /\ balance_is a "Alice" 33 11 (-22)
        /\ balance_is b "Bob" 16.50 19 2.50
        /\ balance_is c "Charlie" 0 19 19)
  /\ (exists a b c,
        SessionPage.getParticipantBalances [alice; bob; charlie]
          [pizza_on_page; drinks_on_page]
        = [a; b; c]
        /\ page_balance_is a "Alice" 30 10 20
        /\ page_balance_is b "Bob" 15.90 17.95 (-2.05)
        /\ page_balance_is c "Charlie" 0 17.95 (-17.95)).
Proof.
  split; [|split].
  - do 3 eexists. split; [vm_compute; reflexivity|].
    repeat split; try (intros (_ & _ & H & _); vm_compute in H; discriminate).
  - do 3 eexists. split; [vm_compute; reflexivity|]. repeat split.
  - do 3 eexists. split; [vm_compute; reflexivity|]. repeat split.
Qed.

(** A dinner of 100 that Alice pays and eats alone while Bob is in the
    session, and a snack of 10 that Alice pays and all three share. *)
Definition dinner : BillItem.t :=
  BillItem.mk "1" "Dinner" 100 "1" ["1"]%string false None.
Definition snack : BillItem.t :=
  BillItem.mk "1" "Snack" 10 "1" ["1"; "2"; "3"]%string false None.

(** C2.  The service charge of an item reaches its sharers only.  Under
    every configuration a participant shares the item or gets a
    contribution with service charge 0.  On the dinner of 100
    the service charge is 10 and its share for two participants is 5:
    Alice owes 100 + 5, Bob owes 0 and his breakdown is empty, and the
    other 5 is owed by nobody. *)
Theorem service_charge_reaches_sharers_only :
  (forall taxConfig participant item totalParticipants,
      includes (BillItem.sharedBy item) (Participant.id participant) = true
      \/ exists c,
           calculateItemContribution taxConfig participant item totalParticipants
           = Returned c
           /\ ItemContribution.serviceChargeContribution c = 0)
  /\ (exists a b,
        calculateParticipantBalances [dinner] [alice; bob] = Returned [a; b]
        /\ balance_is a "Alice" 110 105 (-5)
        /\ balance_is b "Bob" 0 0 0
        /\ ParticipantBalance.itemBreakdown b = []
        /\ ~ ParticipantBalance.totalOwed b == 100 * 0.10 / 2).
Proof.
  split.
  - intros taxConfig participant item n.
    destruct (includes _ _) eqn:Hout; [now left | right].
    exists (noContribution item).
    split; [now apply calculateItemContribution_not_sharing | reflexivity].
  - do 2 eexists. split; [vm_compute; reflexivity|].
    repeat split. intros H. vm_compute in H. discriminate.
Qed.

(** What [validateCalculation] sums. *)
Definition sumOwed (r : CalculationResult.t) : Q :=
  reduceSum ParticipantBalance.totalOwed (CalculationResult.participants r).
Definition sumPaid (r : CalculationResult.t) : Q :=
  reduceSum ParticipantBalance.totalPaid (CalculationResult.participants r).
Definition sumNet (r : CalculationResult.t) : Q :=
  reduceSum ParticipantBalance.netAmount (CalculationResult.participants r).

(** C3.  The totals drift apart by more than 0.01.  On the snack of 10
    shared by all three every share is rounded down (3.33 and 0.33): 10.98
    is owed and 11 was paid, the net amounts sum to -0.02, and
    [validateCalculation] reports both errors.  On the dinner the unshared
    part of the service charge makes the difference 5. *)
Theorem owed_and_paid_drift_apart :
  (exists r,
      defaultCalculator_calculateSession
        {| Session.participants := [alice; bob; charlie]; Session.items := [snack] |}
      = Returned r
      /\ sumOwed r == 10.98 /\ sumPaid r == 11 /\ sumNet r == -0.02
      /\ ~ Qabs (sumOwed r - sumPaid r) <= 0.01
      /\ ~ Qabs (sumNet r) <= 0.01
      /\ validateCalculation r
         = {| isValid := false;
              errors := [OwedDoesNotMatchPaid; NetAmountsDoNotSumToZero] |})
  /\ (exists r,
        defaultCalculator_calculateSession
          {| Session.participants := [alice; bob]; Session.items := [dinner] |}
        = Returned r
        /\ sumOwed r == 105 /\ sumPaid r == 110 /\ sumNet r == -5
        /\ isValid (validateCalculation r) = false).
Proof.
  split; eexists; (split; [vm_compute; reflexivity|]);
    repeat split; intros H; vm_compute in H; apply H; reflexivity.
Qed.

End CalculationsFacts.
(** ** The split engine: settlement *)

Module SettlementFacts.
Import Js JsFacts Calculations CalculationsFacts.

Definition positive (b : ParticipantBalance.t) : Prop := 0 < ParticipantBalance.netAmount b.





(** Case analysis on the test of the first conditional of the goal. *)
Ltac case_if E :=
  match goal with
  | |- context [if ?c then _ else _] => destruct c eqn:E
  end.










(** *** Who pays whom (C1) *)

(** The loop keeps the [participant] of every copy, so a property of the
    participants of the two queues holds of every transfer it adds. *)
Lemma settle_names (PD PC : option Participant.t -> Prop) (fuel : nat) :
  let sound t :=
    exists pd pc, PD (Some pd) /\ PC (Some pc)
                  /\ Transfer.from t = Participant.name pd
                  /\ Transfer.to t = Participant.name pc in
  forall debtors creditors instructions ts,
    Forall (fun b => PD (ParticipantBalance.participant b)) debtors ->
    Forall (fun b => PC (ParticipantBalance.participant b)) creditors ->
    Forall sound instructions ->
    settle fuel debtors creditors instructions = Returned ts ->
    Forall sound ts.
Proof.
  intros sound.
  induction fuel as [|fuel IH]; intros debtors creditors instructions ts HD HC Hacc Hts;
    destruct debtors as [|debtor debtors], creditors as [|creditor creditors];
    simpl in Hts; try discriminate; try (injection Hts as <-; exact Hacc).
  apply Forall_cons in HD as [Hd HD]. apply Forall_cons in HC as [Hc HC].
  unfold participant_name in Hts.
  destruct (ParticipantBalance.participant debtor) as [pd|] eqn:Epd; [|discriminate].
  destruct (ParticipantBalance.participant creditor) as [pc|] eqn:Epc; [|discriminate].
  simpl in Hts. eapply IH; [| | |exact Hts].
  - case_if E; [assumption|]. constructor; [|assumption]. simpl. now rewrite Epd.
  - case_if E; [assumption|]. constructor; [|assumption]. simpl. now rewrite Epc.
  - apply Forall_app. split; [assumption|]. constructor; [|constructor].
    exists pd, pc. simpl. auto.
Qed.

(** A transfer read as payer, payee and amount. *)
Definition transfer_is (t : Transfer.t) (from to : string) (amount : Q) : Prop :=
  Transfer.from t = from /\ Transfer.to t = to /\ Transfer.amount t == amount.

(** The balance of a participant who owes [owed] and paid [paid], as
    [calculateParticipantBalance] lays it out. *)
Definition balanceOf (p : Participant.t) (owed paid : Q) : ParticipantBalance.t :=
  {| ParticipantBalance.participant := Some p;
     ParticipantBalance.participantId := Participant.id p;
     ParticipantBalance.name := Participant.name p;
     ParticipantBalance.totalOwed := owed;
     ParticipantBalance.totalPaid := paid;
     ParticipantBalance.netAmount := owed - paid;
     ParticipantBalance.itemBreakdown := [];
     ParticipantBalance.paid := Some paid;
     ParticipantBalance.owes := Some owed;
     ParticipantBalance.balance := Some (owed - paid) |}.

(** What the filters make of a transfer: it goes from a participant
    whose net amount in [balances] is negative to one whose net amount is
    positive. *)
Definition from_negative_to_positive (balances : list ParticipantBalance.t)
    (t : Transfer.t) : Prop :=
  exists d c pd pc,
    In d balances /\ In c balances
    /\ ParticipantBalance.netAmount d < 0
    /\ 0 < ParticipantBalance.netAmount c
    /\ ParticipantBalance.participant d = Some pd
    /\ ParticipantBalance.participant c = Some pc
    /\ Transfer.from t = Participant.name pd
    /\ Transfer.to t = Participant.name pc.

(** The debtors are the balances below zero and the creditors those
    above zero, and each transfer goes from the head of the former to the
    head of the latter. *)
Lemma generatePaymentInstructions_direction (balances : list ParticipantBalance.t) ts :
  generatePaymentInstructions balances = Returned ts ->
  Forall (from_negative_to_positive balances) ts.
Proof.
  intros Hts.
  pose (PD := fun o : option Participant.t =>
                exists b, In b balances /\ ParticipantBalance.netAmount b < 0
                          /\ ParticipantBalance.participant b = o).
  pose (PC := fun o : option Participant.t =>
                exists b, In b balances /\ 0 < ParticipantBalance.netAmount b
                          /\ ParticipantBalance.participant b = o).
  apply (settle_names PD PC) in Hts.
  - eapply Forall_impl; [exact Hts|]. simpl.
    intros t (pd & pc & (d & Hd & Hdn & Hdp) & (c & Hc & Hcn & Hcp) & Hfrom & Hto).
    exists d, c, pd, pc. auto 10.
  - apply List.Forall_forall. intros b Hb. apply filter_In in Hb as [Hin Hb].
    apply ltb_lt in Hb. exists b. auto.
  - apply List.Forall_forall. intros b Hb. apply filter_In in Hb as [Hin Hb].
    apply gtb_gt in Hb. exists b. auto.
  - constructor.
Qed.

(** C1.  The direction of the transfers as the code computes it.  On
    every input each transfer goes from a participant whose net amount is
    negative to one whose net amount is positive.  Bob owes 20 and paid
    nothing (net 20), Alice paid 20 more than she owes (net -20): the one
    instruction is from Alice to Bob.  On the balances of the snack
    session (Alice paid 11 and owes 3.66, net -7.34; Bob and Charlie paid
    nothing and owe 3.66 each) Alice is told to pay 3.66 to Bob and 3.66
    to Charlie, while [calculatePaymentInstructions] on the same result
    lists Bob and Charlie as the payers and Alice as the receiver. *)
Theorem payment_instructions_direction_as_computed :
  (forall balances : list ParticipantBalance.t,
      match generatePaymentInstructions balances with
      | Returned ts => Forall (from_negative_to_positive balances) ts
      | _ => True
      end)
  /\ (exists t,
        generatePaymentInstructions [balanceOf bob 20 0; balanceOf alice 10 30]
        = Returned [t]
        /\ transfer_is t "Alice" "Bob" 20)
  /\ (exists r t1 t2,
        defaultCalculator_calculateSession
          {| Session.participants := [alice; bob; charlie]; Session.items := [snack] |}
        = Returned r
        /\ Forall2 (fun b '(name, paid, owes, net) => balance_is b name paid owes net)
             (CalculationResult.participants r)
             [("Alice", 11, 3.66, -7.34); ("Bob", 0, 3.66, 3.66);
              ("Charlie", 0, 3.66, 3.66)]%string
        /\ generatePaymentInstructions (CalculationResult.participants r)
           = Returned [t1; t2]
        /\ transfer_is t1 "Alice" "Bob" 3.66
        /\ transfer_is t2 "Alice" "Charlie" 3.66
        /\ map pay_name (fst (calculatePaymentInstructions r)) = ["Bob"; "Charlie"]%string
        /\ map rcv_name (snd (calculatePaymentInstructions r)) = ["Alice"]%string).
Proof.
  split; [|split].
  - intros balances.
    destruct (generatePaymentInstructions balances) as [ts| | |] eqn:Hts; try exact I.
    now apply generatePaymentInstructions_direction.
  - eexists. split; [vm_compute; reflexivity|]. repeat split.
  - do 3 eexists. split; [vm_compute; reflexivity|].
    split; [repeat constructor|].
    split; [vm_compute; reflexivity|]. repeat split.
Qed.

End SettlementFacts.
(** ** [generatePaymentInstructions] and its input (C10) *)

Module HeapFacts.
Import Js JsFacts Calculations CalculationsFacts SettlementFacts Heap.

Section Frame.

(** The heap at the call. *)
Variable h0 : heap.

(** [triple P m Q]: run from a heap that extends [h0] and satisfies [P],
    [m] leaves a heap that extends [h0], however it ends, and [Q] holds
    of the value and the heap when it returns. *)
Definition triple {A : Type} (P : heap -> Prop) (m : Run A) (Q : A -> heap -> Prop) : Prop :=
  forall h, h0 ⊆ h -> P h ->
    h0 ⊆ (m h).1 /\ forall a, (m h).2 = Returned a -> Q a (m h).1.

(** A location that is not in use at the call. *)
Definition new (l : loc) : Prop := h0 !! l = None.

(** [a] is an array made during the call whose elements were all made
    during the call. *)
Definition NewArray (a : loc) (h : heap) : Prop :=
  new a /\ is_Some (h !! a)
  /\ forall elements, h !! a = Some (ArrayObject elements) -> Forall new elements.

(** Assertions that survive an allocation, and a write of a balance. *)
Definition alloc_stable (P : heap -> Prop) : Prop :=
  forall h l o, P h -> h !! l = None -> P (<[l := o]> h).
Definition write_stable (P : heap -> Prop) : Prop :=
  forall h l b, P h -> P (<[l := BalanceObject b]> h).

Lemma triple_ret {A : Type} (P : heap -> Prop) (a : A) :
  triple P (mret a) (fun x h => x = a /\ P h).
Proof. intros h Hh HP. simpl. split; [exact Hh|]. intros x [= <-]. auto. Qed.

Lemma triple_lift {A : Type} (P : heap -> Prop) (o : Outcome A) :
  triple P (lift o) (fun x h => o = Returned x /\ P h).
Proof. intros h Hh HP. simpl. split; [exact Hh|]. intros x ->. auto. Qed.

Lemma triple_bind {A B : Type} (P : heap -> Prop) (Q : A -> heap -> Prop)
    (R : B -> heap -> Prop) (m : Run A) (k : A -> Run B) :
  triple P m Q -> (forall a, triple (Q a) (k a) R) -> triple P (m ≫= k) R.
Proof.
  intros Hm Hk h Hh HP. destruct (Hm h Hh HP) as [Hframe Hpost].
  unfold mbind, Run_bind, bind. destruct (m h) as [h' [a| | |]]; simpl in *;
    try (split; [exact Hframe | discriminate]).
  apply Hk; auto.
Qed.

Lemma triple_conseq {A : Type} (P P' : heap -> Prop) (Q Q' : A -> heap -> Prop) (m : Run A) :
  triple P m Q -> (forall h, P' h -> P h) -> (forall a h, Q a h -> Q' a h) ->
  triple P' m Q'.
Proof.
  intros Hm HP HQ h Hh HP'. destruct (Hm h Hh (HP h HP')) as [Hframe Hpost].
  split; [exact Hframe|]. intros a Ha. auto.
Qed.

Lemma triple_readArray (P : heap -> Prop) (a : loc) :
  triple P (readArray a) (fun elements h => h !! a = Some (ArrayObject elements) /\ P h).
Proof.
  intros h Hh HP. unfold readArray.
  destruct (h !! a) as [[elements|b]|] eqn:E; simpl;
    (split; [exact Hh|]); try discriminate.
  intros x [= <-]. auto.
Qed.

Lemma triple_readBalance (P : heap -> Prop) (l : loc) :
  triple P (readBalance l) (fun b h => h !! l = Some (BalanceObject b) /\ P h).
Proof.
  intros h Hh HP. unfold readBalance.
  destruct (h !! l) as [[elements|b]|] eqn:E; simpl;
    (split; [exact Hh|]); try discriminate.
  intros x [= <-]. auto.
Qed.

Lemma fresh_unused (h : heap) : h !! fresh (dom h) = None.
Proof. apply not_elem_of_dom. apply is_fresh. Qed.

Lemma triple_alloc (P : heap -> Prop) (o : object) :
  triple P (alloc o)
    (fun l h' => new l /\ exists h, P h /\ h !! l = None /\ h' = <[l := o]> h).
Proof.
  intros h Hh HP. unfold alloc. simpl.
  pose proof (fresh_unused h) as Hfresh.
  assert (new (fresh (dom h))) as Hnew by (eapply lookup_weaken_None; eauto).
  split; [now apply insert_subseteq_r|].
  intros l [= <-]. split; [exact Hnew|]. eauto.
Qed.

Lemma triple_write (P : heap -> Prop) (l : loc) (o : object) :
  new l ->
  triple P (write l o) (fun _ h' => exists h, P h /\ h' = <[l := o]> h).
Proof.
  intros Hnew h Hh HP. unfold write. simpl.
  split; [now apply insert_subseteq_r|]. intros _ _. eauto.
Qed.

Lemma NewArray_alloc (a : loc) : alloc_stable (NewArray a).
Proof.
  intros h l o (Hnew & [x Hx] & Hel) Hl.
  assert (l <> a) by congruence.
  split; [exact Hnew|]. rewrite lookup_insert_ne by assumption. eauto.
Qed.

Lemma NewArray_write_balance (a : loc) : write_stable (NewArray a).
Proof.
  intros h l b (Hnew & Hsome & Hel). split; [exact Hnew|].
  destruct (decide (l = a)) as [->|Hne].
  - rewrite lookup_insert_eq. split; [eauto | discriminate].
  - rewrite lookup_insert_ne by assumption. auto.
Qed.

Lemma NewArray_write_array (a l : loc) (elements : list loc) (h : heap) :
  Forall new elements -> NewArray a h -> NewArray a (<[l := ArrayObject elements]> h).
Proof.
  intros Hall (Hnew & Hsome & Hel). split; [exact Hnew|].
  destruct (decide (l = a)) as [->|Hne].
  - rewrite lookup_insert_eq. split; [eauto|]. now intros ? [= <-].
  - rewrite lookup_insert_ne by assumption. auto.
Qed.

(** *** The statements of the loop keep the arrays of copies apart from
    the heap of the call *)

Lemma triple_update_netAmount (P : heap -> Prop) (l : loc) (f : Q -> Q) :
  new l -> write_stable P ->
  triple P (update_netAmount l f) (fun _ h => P h).
Proof.
  intros Hnew Hstable. unfold update_netAmount.
  eapply triple_bind; [apply triple_readBalance|]. intros b.
  eapply triple_conseq; [apply (triple_write P), Hnew | intros h [_ HP]; exact HP |].
  intros _ h (h1 & HP & ->). now apply Hstable.
Qed.

Lemma triple_assume {A : Type} (fact : Prop) (P : heap -> Prop) (Q : A -> heap -> Prop)
    (m : Run A) :
  (forall h, P h -> fact) -> (fact -> triple P m Q) -> triple P m Q.
Proof. intros Hfact Hm h Hh HP. exact (Hm (Hfact h HP) h Hh HP). Qed.

Lemma triple_skip {A : Type} (P : heap -> Prop) (Q : A -> heap -> Prop) (m : Run A) :
  triple P m Q -> triple P m (fun _ _ => True).
Proof. intros Hm. eapply triple_conseq; [exact Hm | auto | auto]. Qed.

Lemma triple_readBalance_keep (P : heap -> Prop) (l : loc) :
  triple P (readBalance l) (fun _ h => P h).
Proof.
  eapply triple_conseq; [apply (triple_readBalance P) | auto | intros b h [_ HP]; exact HP].
Qed.

Lemma triple_lift_keep {A : Type} (P : heap -> Prop) (o : Outcome A) :
  triple P (lift o) (fun _ h => P h).
Proof.
  eapply triple_conseq; [apply (triple_lift P) | auto | intros b h [_ HP]; exact HP].
Qed.

Lemma triple_ret_keep {A : Type} (P : heap -> Prop) (a : A) :
  triple P (mret a) (fun _ h => P h).
Proof.
  eapply triple_conseq; [apply (triple_ret P) | auto | intros b h [_ HP]; exact HP].
Qed.

(** The two arrays of copies. *)
Definition Copies (debtors creditors : loc) (h : heap) : Prop :=
  NewArray debtors h /\ NewArray creditors h.

Lemma Copies_write_stable debtors creditors : write_stable (Copies debtors creditors).
Proof. intros h l b [Hd Hc]. split; now apply NewArray_write_balance. Qed.

Lemma Copies_element debtors creditors h a elements l :
  Copies debtors creditors h -> a = debtors \/ a = creditors ->
  h !! a = Some (ArrayObject elements) -> In l elements -> new l.
Proof.
  intros [(_ & _ & Hd) (_ & _ & Hc)] [-> | ->] Hlook Hin;
    [apply Hd in Hlook | apply Hc in Hlook];
    rewrite List.Forall_forall in Hlook; auto.
Qed.

Lemma triple_Array_shift debtors creditors a :
  a = debtors \/ a = creditors ->
  triple (Copies debtors creditors) (Array_shift a) (fun _ h => Copies debtors creditors h).
Proof.
  intros Ha.
  apply (triple_assume (new a)).
  { intros h [Hd Hc]. destruct Ha as [-> | ->]; [apply Hd | apply Hc]. }
  intros Hnew. unfold Array_shift.
  eapply triple_bind; [apply triple_readArray|]. intros elements.
  apply (triple_assume (Forall new (tail elements))).
  { intros h [Hlook HC]. apply List.Forall_forall. intros l Hl.
    eapply Copies_element; eauto. destruct elements; [destruct Hl | now right]. }
  intros Hall.
  eapply triple_conseq; [apply (triple_write (Copies debtors creditors)), Hnew | |].
  - intros h [_ HC]. exact HC.
  - intros _ h (h1 & [Hd Hc] & ->). split; now apply NewArray_write_array.
Qed.

Lemma triple_shift_if_settled debtors creditors l a :
  a = debtors \/ a = creditors ->
  triple (Copies debtors creditors) (shift_if_settled l a)
         (fun _ h => Copies debtors creditors h).
Proof.
  intros Ha. unfold shift_if_settled.
  eapply triple_bind; [apply triple_readBalance_keep|]. intros b.
  destruct (ltb _ _); [now apply triple_Array_shift | apply triple_ret_keep].
Qed.

(** The loop writes to the copies and to their two arrays only. *)
Lemma triple_settle (fuel : nat) :
  forall debtors creditors instructions,
    triple (Copies debtors creditors) (settle fuel debtors creditors instructions)
           (fun _ _ => True).
Proof.
  induction fuel as [|fuel IH]; intros debtors creditors instructions; cbn [settle];
    (eapply triple_bind; [apply triple_readArray|]); intros ds;
    (eapply triple_bind; [apply triple_readArray|]); intros cs;
    destruct ds as [|debtor ds], cs as [|creditor cs];
    try (eapply triple_skip; apply triple_ret).
  - eapply triple_skip. apply triple_lift.
  - apply (triple_assume (new debtor /\ new creditor)).
    { intros h (Hcs & Hds & HC). split.
      - apply (Copies_element _ _ _ _ _ _ HC (or_introl eq_refl) Hds). now left.
      - apply (Copies_element _ _ _ _ _ _ HC (or_intror eq_refl) Hcs). now left. }
    intros [Hnd Hnc].
    eapply triple_conseq with (P := Copies debtors creditors) (Q := fun _ _ => True);
      [| intros h (_ & _ & HC); exact HC | auto].
    eapply triple_bind; [apply triple_readBalance_keep|]. intros d.
    eapply triple_bind; [apply triple_readBalance_keep|]. intros c.
    eapply triple_bind; [apply triple_lift_keep|]. intros from.
    eapply triple_bind; [apply triple_lift_keep|]. intros to.
    eapply triple_bind;
      [apply triple_update_netAmount; [exact Hnd | apply Copies_write_stable]|].
    intros ?.
    eapply triple_bind;
      [apply triple_update_netAmount; [exact Hnc | apply Copies_write_stable]|].
    intros ?.
    eapply triple_bind; [apply triple_shift_if_settled; now left|]. intros ?.
    eapply triple_bind; [apply triple_shift_if_settled; now right|]. intros ?.
    apply IH.
Qed.

Lemma triple_filterRefs (P : heap -> Prop) pred refs :
  triple P (filterRefs pred refs) (fun _ h => P h).
Proof.
  induction refs as [|r refs IH]; cbn [filterRefs]; [apply triple_ret_keep|].
  eapply triple_bind; [apply triple_readBalance_keep|]. intros b.
  eapply triple_bind; [apply IH|]. intros kept. apply triple_ret_keep.
Qed.

Lemma triple_Array_filter (P : heap -> Prop) pred a :
  alloc_stable P -> triple P (Array_filter pred a) (fun _ h => P h).
Proof.
  intros Hstable. unfold Array_filter.
  eapply triple_bind; [apply triple_readArray|]. intros refs.
  eapply triple_bind; [apply triple_filterRefs|]. intros kept.
  eapply triple_conseq; [apply (triple_alloc P) | intros h [_ HP]; exact HP |].
  intros l h (_ & h1 & HP & Hl & ->). now apply Hstable.
Qed.

Lemma triple_copyRefs (P : heap -> Prop) refs :
  alloc_stable P ->
  triple P (copyRefs refs) (fun copies h => Forall new copies /\ P h).
Proof.
  intros Hstable.
  induction refs as [|r refs IH]; cbn [copyRefs].
  - eapply triple_conseq; [apply (triple_ret P) | auto |].
    intros copies h [-> HP]. split; [constructor | exact HP].
  - eapply triple_bind; [apply triple_readBalance_keep|]. intros b.
    eapply triple_bind; [apply triple_alloc|]. intros copy.
    apply (triple_assume (new copy)); [intros h [Hnew _]; exact Hnew|]. intros Hnew.
    eapply triple_bind.
    + eapply triple_conseq; [apply IH | | intros copies h H; exact H].
      intros h (_ & h1 & HP & Hl & ->). now apply Hstable.
    + intros copies.
      eapply triple_conseq; [apply triple_ret | intros h H; exact H |].
      intros x h (-> & Hall & HP). split; [now constructor | exact HP].
Qed.

Lemma triple_Array_mapCopy (P : heap -> Prop) a :
  alloc_stable P ->
  triple P (Array_mapCopy a) (fun copies h => NewArray copies h /\ P h).
Proof.
  intros Hstable. unfold Array_mapCopy.
  eapply triple_bind; [apply triple_readArray|]. intros refs.
  eapply triple_bind.
  { eapply triple_conseq; [apply (triple_copyRefs P), Hstable | | intros x h H; exact H].
    intros h [_ HP]. exact HP. }
  intros copies.
  apply (triple_assume (Forall new copies)); [intros h [Hall _]; exact Hall|]. intros Hall.
  eapply triple_conseq; [apply (triple_alloc P) | intros h [_ HP]; exact HP |].
  intros l h (Hnew & h1 & HP & Hl & ->). split; [|now apply Hstable].
  split; [exact Hnew|]. rewrite lookup_insert_eq. split; [eauto|]. now intros ? [= <-].
Qed.

Lemma triple_generatePaymentInstructions fuel balances :
  triple (fun _ => True) (Heap.generatePaymentInstructions_fuel fuel balances)
         (fun _ _ => True).
Proof.
  unfold Heap.generatePaymentInstructions_fuel.
  eapply triple_bind; [apply triple_Array_filter; now intros h l o _ _|]. intros negatives.
  eapply triple_bind; [apply triple_Array_mapCopy; now intros h l o _ _|]. intros debtors.
  eapply triple_bind.
  { apply (triple_Array_filter (fun h => NewArray debtors h /\ True)).
    intros h l o [Hd _] Hl. split; [now apply NewArray_alloc | exact I]. }
  intros positives.
  eapply triple_bind.
  { apply (triple_Array_mapCopy (fun h => NewArray debtors h /\ True)).
    intros h l o [Hd _] Hl. split; [now apply NewArray_alloc | exact I]. }
  intros creditors.
  eapply triple_conseq; [apply triple_settle | | auto].
  intros h (Hc & Hd & _). now split.
Qed.

End Frame.

(** *** The heap run computes what the function on values computes *)

(** The object at [l] is the balance [b]. *)
Definition is_balance (h : heap) (l : loc) (b : ParticipantBalance.t) : Prop :=
  h !! l = Some (BalanceObject b).

Lemma run_bind {A B : Type} (m : Run A) (k : A -> Run B) (h h' : heap) (a : A) :
  m h = (h', Returned a) -> (m ≫= k) h = k a h'.
Proof. intros H. unfold mbind, Run_bind, bind. now rewrite H. Qed.

Lemma readArray_run (h : heap) (a : loc) (elements : list loc) :
  h !! a = Some (ArrayObject elements) -> readArray a h = (h, Returned elements).
Proof. intros H. unfold readArray. now rewrite H. Qed.

Lemma readBalance_run (h : heap) (l : loc) (b : ParticipantBalance.t) :
  is_balance h l b -> readBalance l h = (h, Returned b).
Proof. intros H. unfold readBalance. now rewrite H. Qed.

Lemma update_netAmount_run (h : heap) (l : loc) (b : ParticipantBalance.t) (f : Q -> Q) :
  is_balance h l b ->
  update_netAmount l f h
  = (<[l := BalanceObject
             (ParticipantBalance.set_netAmount b (f (ParticipantBalance.netAmount b)))]> h,
     Returned tt).
Proof.
  intros H. unfold update_netAmount. now rewrite (run_bind _ _ _ _ _ (readBalance_run _ _ _ H)).
Qed.

Lemma shift_if_settled_run (h : heap) (l a : loc) (b : ParticipantBalance.t) elements :
  is_balance h l b -> h !! a = Some (ArrayObject elements) ->
  shift_if_settled l a h
  = ((if ltb (Math_abs (ParticipantBalance.netAmount b)) 0.01
      then <[a := ArrayObject (tail elements)]> h else h),
     Returned tt).
Proof.
  intros Hl Ha. unfold shift_if_settled.
  rewrite (run_bind _ _ _ _ _ (readBalance_run _ _ _ Hl)).
  destruct (ltb _ _); [|reflexivity].
  unfold Array_shift. now rewrite (run_bind _ _ _ _ _ (readArray_run _ _ _ Ha)).
Qed.

Lemma Forall2_is_balance_agree (h h' : heap) (ls : list loc) bs :
  Forall2 (is_balance h) ls bs ->
  (forall l, In l ls -> h' !! l = h !! l) ->
  Forall2 (is_balance h') ls bs.
Proof.
  induction 1 as [|l b ls bs Hl _ IH]; intros Hagree; constructor.
  - unfold is_balance. rewrite Hagree; [exact Hl | now left].
  - apply IH. intros l' Hl'. apply Hagree. now right.
Qed.

Lemma Forall2_is_balance_not_array (h : heap) (ls : list loc) bs a elements :
  Forall2 (is_balance h) ls bs -> h !! a = Some (ArrayObject elements) -> ~ In a ls.
Proof.
  intros Hall Ha. induction Hall as [|l b ls bs Hl _ IH]; intros Hin; [destruct Hin|].
  destruct Hin as [-> | Hin]; [|auto]. unfold is_balance in Hl. congruence.
Qed.

(** The two arrays of copies [d] and [c], with elements [dl] and [cl],
    hold the two queues [ds] and [cs] of the function on values, and no
    object is reached twice. *)
Definition Rep (h : heap) (d c : loc) (dl cl : list loc)
    (ds cs : list ParticipantBalance.t) : Prop :=
  h !! d = Some (ArrayObject dl) /\ h !! c = Some (ArrayObject cl)
  /\ Forall2 (is_balance h) dl ds /\ Forall2 (is_balance h) cl cs
  /\ List.NoDup (dl ++ cl) /\ d <> c.

Lemma Rep_sym h d c dl cl ds cs : Rep h d c dl cl ds cs -> Rep h c d cl dl cs ds.
Proof.
  intros (Hd & Hc & Hds & Hcs & Hnd & Hne). repeat split; auto.
  apply NoDup_ListNoDup. apply NoDup_ListNoDup in Hnd.
  now rewrite (comm app).
Qed.

(** Writing the head of the first queue. *)
Lemma Rep_update_head h d c l dl cl b ds cs v :
  Rep h d c (l :: dl) cl (b :: ds) cs ->
  Rep (<[l := BalanceObject v]> h) d c (l :: dl) cl (v :: ds) cs.
Proof.
  intros (Hd & Hc & Hds & Hcs & Hnd & Hne).
  assert (l <> d) as Hld.
  { intros ->. eapply Forall2_is_balance_not_array; [exact Hds | exact Hd | now left]. }
  assert (l <> c) as Hlc.
  { intros ->. eapply Forall2_is_balance_not_array; [exact Hds | exact Hc | now left]. }
  simpl in Hnd. apply List.NoDup_cons_iff in Hnd as [Hnotin Hnd].
  apply List.Forall2_cons_iff in Hds as [_ Hds].
  unfold Rep. rewrite !lookup_insert_ne by assumption.
  repeat split; auto.
  - constructor; [apply lookup_insert_eq|].
    apply (Forall2_is_balance_agree h); [exact Hds|].
    intros l' Hl'. apply lookup_insert_ne. intros ->. apply Hnotin, in_or_app. now left.
  - apply (Forall2_is_balance_agree h); [exact Hcs|].
    intros l' Hl'. apply lookup_insert_ne. intros ->. apply Hnotin, in_or_app. now right.
  - simpl. now constructor.
Qed.

(** Dropping the head of the first queue. *)
Lemma Rep_shift h d c l dl cl b ds cs :
  Rep h d c (l :: dl) cl (b :: ds) cs ->
  Rep (<[d := ArrayObject dl]> h) d c dl cl ds cs.
Proof.
  intros (Hd & Hc & Hds & Hcs & Hnd & Hne).
  simpl in Hnd. apply List.NoDup_cons_iff in Hnd as [_ Hnd].
  pose proof (Forall2_is_balance_not_array _ _ _ _ _ Hds Hd) as Hnot_d.
  pose proof (Forall2_is_balance_not_array _ _ _ _ _ Hcs Hd) as Hnot_c.
  apply List.Forall2_cons_iff in Hds as [_ Hds].
  unfold Rep. rewrite lookup_insert_eq, lookup_insert_ne by assumption.
  repeat split; auto.
  - apply (Forall2_is_balance_agree h); [exact Hds|].
    intros l' Hl'. apply lookup_insert_ne. intros ->. apply Hnot_d. now right.
  - apply (Forall2_is_balance_agree h); [exact Hcs|].
    intros l' Hl'. apply lookup_insert_ne. now intros ->.
Qed.

(** [shift_if_settled] on the head of the first queue. *)
Lemma Rep_shift_if_settled h d c l dl cl b ds cs :
  Rep h d c (l :: dl) cl (b :: ds) cs ->
  exists h' dl',
    shift_if_settled l d h = (h', Returned tt)
    /\ Rep h' d c dl' cl
         (if ltb (Math_abs (ParticipantBalance.netAmount b)) 0.01 then ds else b :: ds) cs.
Proof.
  intros HRep. pose proof HRep as (Hd & _ & Hds & _).
  apply List.Forall2_cons_iff in Hds as [Hl _].
  rewrite (shift_if_settled_run _ _ _ _ _ Hl Hd). simpl.
  destruct (ltb _ _); do 2 eexists; (split; [reflexivity|]);
    [eapply Rep_shift | ]; exact HRep.
Qed.

(** The loop on the heap ends as the loop on values. *)
Lemma settle_refines (fuel : nat) :
  forall h d c dl cl ds cs instructions,
    Rep h d c dl cl ds cs ->
    (Heap.settle fuel d c instructions h).2 = Calculations.settle fuel ds cs instructions.
Proof.
  induction fuel as [|fuel IH]; intros h d c dl cl ds cs instructions HRep;
    pose proof HRep as (Hd & Hc & Hds & Hcs & _);
    cbn [Heap.settle];
    rewrite (run_bind _ _ _ _ _ (readArray_run _ _ _ Hd)),
            (run_bind _ _ _ _ _ (readArray_run _ _ _ Hc));
    destruct Hds as [|debtor dv dl ds Hdv Hds]; try reflexivity;
    destruct Hcs as [|creditor cv cl cs Hcv Hcs]; try reflexivity.
  rewrite (run_bind _ _ _ _ _ (readBalance_run _ _ _ Hdv)),
          (run_bind _ _ _ _ _ (readBalance_run _ _ _ Hcv)).
  cbn [Calculations.settle].
  destruct (participant_name dv) as [from| | |]; try reflexivity.
  rewrite (run_bind (lift (Returned from)) _ h h from eq_refl).
  destruct (participant_name cv) as [to| | |]; try reflexivity.
  rewrite (run_bind (lift (Returned to)) _ h h to eq_refl).
  set (paymentAmount := Math_min (Math_abs (ParticipantBalance.netAmount dv))
                                 (ParticipantBalance.netAmount cv)).
  set (dv' := ParticipantBalance.set_netAmount dv
                (ParticipantBalance.netAmount dv + paymentAmount)).
  set (cv' := ParticipantBalance.set_netAmount cv
                (ParticipantBalance.netAmount cv - paymentAmount)).
  rewrite (run_bind _ _ _ _ _ (update_netAmount_run _ _ _ _ Hdv)).
  fold paymentAmount dv'.
  pose proof (Rep_update_head _ _ _ _ _ _ _ _ _ dv' HRep) as HRep1.
  apply Rep_sym in HRep1.
  assert (is_balance (<[debtor := BalanceObject dv']> h) creditor cv) as Hcv1.
  { destruct HRep1 as (_ & _ & H & _). now apply List.Forall2_cons_iff in H as [H _]. }
  rewrite (run_bind _ _ _ _ _ (update_netAmount_run _ _ _ _ Hcv1)).
  fold cv'.
  pose proof (Rep_update_head _ _ _ _ _ _ _ _ _ cv' HRep1) as HRep2.
  apply Rep_sym in HRep2.
  destruct (Rep_shift_if_settled _ _ _ _ _ _ _ _ _ HRep2) as (h3 & dl3 & Hrun3 & HRep3).
  rewrite (run_bind _ _ _ _ _ Hrun3).
  apply Rep_sym in HRep3.
  destruct (Rep_shift_if_settled _ _ _ _ _ _ _ _ _ HRep3) as (h4 & cl4 & Hrun4 & HRep4).
  rewrite (run_bind _ _ _ _ _ Hrun4).
  apply Rep_sym in HRep4.
  simpl. now apply (IH _ _ _ _ _ _ _ _ HRep4).
Qed.

Lemma Forall2_is_balance_weaken (h h' : heap) (ls : list loc) bs :
  Forall2 (is_balance h) ls bs -> h ⊆ h' -> Forall2 (is_balance h') ls bs.
Proof.
  intros Hall Hsub. eapply Forall2_impl; [exact Hall|].
  intros l b Hl. eapply lookup_weaken; eauto.
Qed.

Lemma filterRefs_run (h : heap) pred (refs : list loc) bs :
  Forall2 (is_balance h) refs bs ->
  exists kept,
    filterRefs pred refs h = (h, Returned kept)
    /\ Forall2 (is_balance h) kept (List.filter pred bs).
Proof.
  induction 1 as [|r b refs bs Hr _ (kept & Hrun & Hkept)]; cbn [filterRefs List.filter].
  - exists []. split; [reflexivity | constructor].
  - rewrite (run_bind _ _ _ _ _ (readBalance_run _ _ _ Hr)), (run_bind _ _ _ _ _ Hrun).
    eexists. split; [reflexivity|]. destruct (pred b); [now constructor | assumption].
Qed.

Lemma copyRefs_run (refs : list loc) :
  forall (h : heap) bs,
    Forall2 (is_balance h) refs bs ->
    exists h' copies,
      copyRefs refs h = (h', Returned copies)
      /\ h ⊆ h'
      /\ Forall2 (is_balance h') copies bs
      /\ List.NoDup copies
      /\ Forall (fun l => h !! l = None) copies.
Proof.
  induction refs as [|r refs IH]; intros h bs Hall.
  - apply Forall2_nil_inv_l in Hall as ->. exists h, [].
    split; [reflexivity|]. split; [reflexivity|].
    split; [constructor|]. split; constructor.
  - apply Forall2_cons_inv_l in Hall as (b & bs' & Hr & Hall & ->).
    cbn [copyRefs]. rewrite (run_bind _ _ _ _ _ (readBalance_run _ _ _ Hr)).
    unfold alloc at 1. set (copy := fresh (dom h)).
    pose proof (fresh_unused h) as Hfresh. fold copy in Hfresh.
    assert (h ⊆ <[copy := BalanceObject b]> h) as Hsub by now apply insert_subseteq.
    destruct (IH (<[copy := BalanceObject b]> h) bs'
                (Forall2_is_balance_weaken _ _ _ _ Hall Hsub))
      as (h' & copies & Hrun & Hsub' & Hcopies & Hnd & Hunused).
    exists h', (copy :: copies).
    rewrite (run_bind _ (fun copy0 => copies0 ← copyRefs refs; mret (copy0 :: copies0))
               h (<[copy := BalanceObject b]> h) copy eq_refl).
    rewrite (run_bind _ _ _ _ _ Hrun).
    split; [reflexivity|]. split; [etrans; eassumption|].
    split; [|split].
    + constructor; [|exact Hcopies].
      eapply lookup_weaken; [apply lookup_insert_eq | exact Hsub'].
    + constructor; [|exact Hnd]. intros Hin.
      rewrite List.Forall_forall in Hunused. specialize (Hunused copy Hin).
      rewrite lookup_insert_eq in Hunused. discriminate.
    + constructor; [exact Hfresh|].
      eapply Forall_impl; [exact Hunused|]. intros l Hl.
      exact (lookup_weaken_None _ _ _ Hl Hsub).
Qed.

(** Filtering the input array and copying what passes: a new array of new
    objects that hold the filtered balances. *)
Lemma filter_copy_run (h : heap) pred balances bs :
  holds h balances bs ->
  exists h1 h2 filtered copiesArray copies,
    Array_filter pred balances h = (h1, Returned filtered)
    /\ Array_mapCopy filtered h1 = (h2, Returned copiesArray)
    /\ h ⊆ h2
    /\ h2 !! copiesArray = Some (ArrayObject copies)
    /\ Forall2 (is_balance h2) copies (List.filter pred bs)
    /\ List.NoDup copies
    /\ Forall (fun l => h !! l = None) copies
    /\ h !! copiesArray = None.
Proof.
  intros (refs & Harr & Hrefs).
  destruct (filterRefs_run h pred refs bs Hrefs) as (kept & Hkept_run & Hkept).
  set (filtered := fresh (dom h)).
  pose proof (fresh_unused h) as Hfiltered. fold filtered in Hfiltered.
  set (h1 := <[filtered := ArrayObject kept]> h).
  assert (h ⊆ h1) as Hsub1 by now apply insert_subseteq.
  assert (Array_filter pred balances h = (h1, Returned filtered)) as Hrun1.
  { unfold Array_filter.
    now rewrite (run_bind _ _ _ _ _ (readArray_run _ _ _ Harr)),
                (run_bind _ _ _ _ _ Hkept_run). }
  destruct (copyRefs_run kept h1 _ (Forall2_is_balance_weaken _ _ _ _ Hkept Hsub1))
    as (h' & copies & Hcopy_run & Hsub' & Hcopies & Hnd & Hunused).
  set (copiesArray := fresh (dom h')).
  pose proof (fresh_unused h') as HcopiesArray. fold copiesArray in HcopiesArray.
  set (h2 := <[copiesArray := ArrayObject copies]> h').
  assert (h' ⊆ h2) as Hsub2 by now apply insert_subseteq.
  assert (Array_mapCopy filtered h1 = (h2, Returned copiesArray)) as Hrun2.
  { unfold Array_mapCopy.
    rewrite (run_bind _ _ _ _ _ (readArray_run h1 filtered kept (lookup_insert_eq _ _ _))).
    now rewrite (run_bind _ _ _ _ _ Hcopy_run). }
  exists h1, h2, filtered, copiesArray, copies.
  repeat split; try assumption.
  - transitivity h1; [exact Hsub1|]. transitivity h'; assumption.
  - apply lookup_insert_eq.
  - now apply (Forall2_is_balance_weaken h').
  - eapply Forall_impl; [exact Hunused|]. intros l Hl.
    exact (lookup_weaken_None _ _ _ Hl Hsub1).
  - apply (lookup_weaken_None _ _ _ HcopiesArray). transitivity h1; assumption.
Qed.

Lemma holds_weaken (h h' : heap) balances bs :
  holds h balances bs -> h ⊆ h' -> holds h' balances bs.
Proof.
  intros (refs & Harr & Hrefs) Hsub. exists refs. split.
  - eapply lookup_weaken; eauto.
  - now apply (Forall2_is_balance_weaken h).
Qed.

(** On a heap that holds the list [bs] at [balances], the function on the
    heap ends as the function on the list. *)
Lemma generatePaymentInstructions_refines (fuel : nat) (h : heap) balances bs :
  holds h balances bs ->
  (Heap.generatePaymentInstructions_fuel fuel balances h).2
  = Calculations.generatePaymentInstructions_fuel fuel bs.
Proof.
  intros Hholds. unfold Heap.generatePaymentInstructions_fuel.
  destruct (filter_copy_run h (fun b => ltb (ParticipantBalance.netAmount b) 0)
              balances bs Hholds)
    as (h1 & h2 & negatives & debtors & dl & Hrun1 & Hrun2 & Hsub2 & Hd & Hdl & Hnd_d
        & _ & _).
  rewrite (run_bind _ _ _ _ _ Hrun1), (run_bind _ _ _ _ _ Hrun2).
  destruct (filter_copy_run h2 (fun b => gtb (ParticipantBalance.netAmount b) 0)
              balances bs (holds_weaken _ _ _ _ Hholds Hsub2))
    as (h3 & h4 & positives & creditors & cl & Hrun3 & Hrun4 & Hsub4 & Hc & Hcl & Hnd_c
        & Hunused_c & Hunused_creditors).
  rewrite (run_bind _ _ _ _ _ Hrun3), (run_bind _ _ _ _ _ Hrun4).
  apply (settle_refines fuel h4 debtors creditors dl cl).
  repeat split; try assumption.
  - eapply lookup_weaken; eauto.
  - now apply (Forall2_is_balance_weaken h2).
  - apply NoDup_ListNoDup, NoDup_app. repeat split; try now apply NoDup_ListNoDup.
    intros l Hl_d Hl_c.
    apply list_elem_of_In in Hl_d, Hl_c.
    rewrite List.Forall_forall in Hunused_c. specialize (Hunused_c l Hl_c).
    assert (exists b, is_balance h2 l b) as [b Hb].
    { clear -Hdl Hl_d. induction Hdl as [|x b xs bs' Hx _ IH]; [destruct Hl_d|].
      destruct Hl_d as [-> | Hin]; eauto. }
    unfold is_balance in Hb. congruence.
  - intros ->. congruence.
Qed.

(** A heap with the array [[2; 3]] at location 1: Bob, who owes 20 and
    paid nothing, and Alice, who owes 10 and paid 30. *)
Definition example_balances : list ParticipantBalance.t :=
  [balanceOf bob 20 0; balanceOf alice 10 30].

Definition example_heap : heap :=
  <[1%positive := ArrayObject [2; 3]%positive]>
    (<[2%positive := BalanceObject (balanceOf bob 20 0)]>
       (<[3%positive := BalanceObject (balanceOf alice 10 30)]> ∅)).

(** C10.  [generatePaymentInstructions] does not modify its input.  Run
    from any heap, on any reference and with any fuel, it leaves every
    object of that heap as it was: what it writes are the copies and the
    arrays it made itself.  So a list of balances that the heap holds at
    [balances] before the call is held there after it, with every field
    of every element; and the call ends as the function on that list of
    values does. *)
Theorem generatePaymentInstructions_leaves_input
    (fuel : nat) (h : heap) (balances : loc) :
  let run := Heap.generatePaymentInstructions_fuel fuel balances h in
  h ⊆ run.1
  /\ (forall l o, h !! l = Some o -> run.1 !! l = Some o)
  /\ (forall bs,
        holds h balances bs ->
        holds run.1 balances bs
        /\ run.2 = Calculations.generatePaymentInstructions_fuel fuel bs).
Proof.
  intros run.
  assert (h ⊆ run.1) as Hframe.
  { apply (triple_generatePaymentInstructions h fuel balances h); [reflexivity | exact I]. }
  split; [exact Hframe | split].
  - intros l o Hl. eapply lookup_weaken; eauto.
  - intros bs Hholds. split.
    + now apply (holds_weaken h).
    + now apply generatePaymentInstructions_refines.
Qed.

(** The theorem on the example heap: the two balances are still there
    after the call. *)
Lemma generatePaymentInstructions_leaves_input_witness :
  holds example_heap 1%positive example_balances
  /\ holds (Heap.generatePaymentInstructions_fuel 2 1%positive example_heap).1
       1%positive example_balances.
Proof.
  assert (holds example_heap 1%positive example_balances) as Hholds.
  { exists [2; 3]%positive. split; [reflexivity|]. repeat constructor. }
  split; [exact Hholds|].
  exact (proj1 (proj2 (proj2 (generatePaymentInstructions_leaves_input
                                2 example_heap 1%positive))
                 example_balances Hholds)).
Defined.

End HeapFacts.

(** * Part III: further properties of the code *)

(** ** Rounding to the cent *)

Module RoundingFacts.
Import Js JsFacts.














End RoundingFacts.

(** ** More on the tax engine *)

Module TaxEngineMoreFacts.
Import Js JsFacts RoundingFacts MalaysianTaxCalculator TaxEngineFacts.

#[global] Instance applyMalaysianRounding_proper :
  Proper (Qeq ==> Qeq) applyMalaysianRounding.
Proof.
  intros x y Hxy. unfold applyMalaysianRounding.
  assert (Math_round (x * 100) = Math_round (y * 100)) as -> by now rewrite Hxy.
  reflexivity.
Qed.











End TaxEngineMoreFacts.

(** ** The split engine: what [calculateSession] returns *)

Module SplitEngineFacts.
Import Js JsFacts RoundingFacts Calculations CalculationsFacts SettlementFacts.

Lemma reduceSum_from {A : Type} (f : A -> Q) (l : list A) (acc : Q) :
  fold_left (fun sum x => sum + f x) l acc == acc + sumQ (map f l).
Proof.
  revert acc. induction l as [|x l IH]; intros acc; simpl; [ring|].
  rewrite IH. ring.
Qed.

Lemma reduceSum_sumQ {A : Type} (f : A -> Q) (l : list A) :
  reduceSum f l == sumQ (map f l).
Proof. unfold reduceSum. rewrite reduceSum_from. ring. Qed.

Lemma sumQ_zero {A : Type} (f : A -> Q) (l : list A) :
  (forall x, In x l -> f x == 0) -> sumQ (map f l) == 0.
Proof.
  induction l as [|x l IH]; intros H; simpl; [reflexivity|].
  rewrite (H x (or_introl eq_refl)), IH; [ring|]. intros y Hy. apply H. now right.
Qed.

Lemma gtb_false (a b : Q) : a <= b -> gtb a b = false.
Proof.
  intros H. destruct (gtb a b) eqn:E; [|reflexivity].
  apply gtb_gt in E. lra.
Qed.










(** X8.  A session with nothing to split.  Without items, or without
    participants, [calculateSession] returns the empty result, whose
    summary counts no item even when the session has some.  The empty
    result passes [validateCalculation], [generatePaymentInstructions]
    returns no transfer on its balances although they carry no
    [participant], and [calculatePaymentInstructions] lists nobody. *)
Theorem nothing_to_split (taxConfig : TaxConfig.t)
    (participants : list Participant.t) (items : list BillItem.t) :
  calculateSession taxConfig
    {| Session.participants := participants; Session.items := [] |}
  = Returned (createEmptyResult participants)
  /\ calculateSession taxConfig
       {| Session.participants := []; Session.items := items |}
     = Returned (createEmptyResult [])
  /\ Summary.itemCount (CalculationResult.summary (createEmptyResult participants)) = 0%nat
  /\ validateCalculation (createEmptyResult participants)
     = {| isValid := true; errors := [] |}
  /\ generatePaymentInstructions
       (CalculationResult.participants (createEmptyResult participants))
     = Returned []
  /\ calculatePaymentInstructions (createEmptyResult participants) = ([], []).
Proof.
  split; [|split; [|split; [|split; [|split]]]].
  - unfold calculateSession. simpl. rewrite orb_true_r. reflexivity.
  - reflexivity.
  - reflexivity.
  - unfold validateCalculation.
    assert (forall f : ParticipantBalance.t -> Q,
               (forall b, In b (CalculationResult.participants (createEmptyResult participants))
                          -> f b == 0) ->
               reduceSum f (CalculationResult.participants (createEmptyResult participants))
               == 0) as Hzero.
    { intros f Hf. rewrite reduceSum_sumQ. now apply sumQ_zero. }
    assert (forall b, In b (CalculationResult.participants (createEmptyResult participants))
                      -> ParticipantBalance.totalOwed b == 0
                         /\ ParticipantBalance.totalPaid b == 0
                         /\ ParticipantBalance.netAmount b == 0) as Hall.
    { intros b Hb. simpl in Hb. apply in_map_iff in Hb as (p & <- & _). simpl.
      repeat split; reflexivity. }
    cbv zeta.
    rewrite (gtb_false (Math_abs (reduceSum ParticipantBalance.totalOwed _ - _)) 0.01).
    2:{ rewrite !Hzero by (intros b Hb; apply Hall, Hb). vm_compute. discriminate. }
    rewrite (gtb_false (Math_abs (reduceSum ParticipantBalance.netAmount _)) 0.01).
    2:{ rewrite Hzero by (intros b Hb; apply Hall, Hb). vm_compute. discriminate. }
    reflexivity.
  - unfold generatePaymentInstructions, generatePaymentInstructions_fuel. simpl.
    assert (forall (f : ParticipantBalance.t -> bool) (ps : list Participant.t) g,
               (forall p, f (g p) = false) -> List.filter f (map g ps) = []) as Hnone.
    { intros f ps g Hf. induction ps as [|p ps IH]; simpl; [reflexivity|].
      now rewrite Hf. }
    rewrite !Hnone by (intros p; reflexivity).
    destruct (length _); reflexivity.
  - unfold calculatePaymentInstructions. simpl.
    assert (forall (ps : list Participant.t) acc,
               fold_left classifyStep
                 (map (fun p =>
                         {| ParticipantBalance.participant := None;
                            ParticipantBalance.participantId := Participant.id p;
                            ParticipantBalance.name := Participant.name p;
                            ParticipantBalance.totalOwed := 0;
                            ParticipantBalance.totalPaid := 0;
                            ParticipantBalance.netAmount := 0;
                            ParticipantBalance.itemBreakdown := [];
                            ParticipantBalance.paid := None;
                            ParticipantBalance.owes := None;
                            ParticipantBalance.balance := None |}) ps) acc = acc) as Hfold.
    { induction ps as [|p ps IH]; intros [toPay toReceive]; simpl; [reflexivity|].
      apply IH. }
    rewrite Hfold. reflexivity.
Qed.

(** *** Owed against paid *)














Section Conservation.

Variable taxConfig : TaxConfig.t.

(** [item.hasSst && item.sstAmount ? item.sstAmount : 0] *)
Definition storedSst (item : BillItem.t) : Q := withSst item (fun sst => sst) 0.


























End Conservation.






End SplitEngineFacts.

(** ** The smaller of an amount and zero *)

Module SettlementMoreFacts.
Import Js JsFacts RoundingFacts Calculations CalculationsFacts SettlementFacts.
Import SplitEngineFacts.



End SettlementMoreFacts.

(** ** [calculatePaymentInstructions]: matching payers with receivers *)

Module PaymentMatchingFacts.
Import Js JsFacts RoundingFacts Calculations CalculationsFacts SettlementFacts.
Import SplitEngineFacts SettlementMoreFacts.


(** What the receivers still miss, what the payers hand out and what the
    receivers get. *)
Definition due (receivers : list ReceiveEntry) : Q := sumQ (map rcv_amount receivers).
Definition owing (payers : list PayEntry) : Q := sumQ (map pay_amount payers).








Lemma due_app l l' : due (l ++ l') == due l + due l'.
Proof. unfold due. rewrite map_app. apply sumQ_app. Qed.
















End PaymentMatchingFacts.

(** ** The balances of the session page *)

Module SessionPageFacts.
Import Js JsFacts RoundingFacts Calculations CalculationsFacts SplitEngineFacts.
Import SessionPage.

(** A bill item as the item services return it, read by the page: the
    object has [totalAmount] and no field [amount]. *)
Definition asRead (item : BillItem.t) : Item :=
  {| amount := None;
     paidBy := BillItem.paidBy item;
     sharedBy := BillItem.sharedBy item;
     hasSst := BillItem.hasSst item |}.

Lemma reduceSum_filter {A : Type} (f : A -> Q) (g : A -> bool) (l : list A) :
  reduceSum f (List.filter g l) == sumQ (map (fun x => if g x then f x else 0) l).
Proof.
  rewrite reduceSum_sumQ. induction l as [|x l IH]; simpl; [reflexivity|].
  destruct (g x); simpl; rewrite IH; ring.
Qed.

Lemma toFixed2_zero (x : Q) : x == 0 -> toFixed2 x == 0.
Proof.
  intros Hx. unfold toFixed2.
  assert (ltb x 0 = false) as ->.
  { destruct (ltb x 0) eqn:E; [|reflexivity]. apply ltb_lt in E. lra. }
  change (roundToTwoDecimals x == 0). rewrite (roundToTwoDecimals_proper _ _ Hx).
  reflexivity.
Qed.


(** The three figures of a participant before [toFixed]. *)
Definition paidBefore (items : list Item) (participant : Participant.t) : Q :=
  reduceSum itemTotal
    (List.filter (fun item => String.eqb (paidBy item) (Participant.id participant)) items).

Definition owesBefore (items : list Item) (participant : Participant.t) : Q :=
  reduceSum (fun item => itemTotal item / shareCount item)
    (List.filter (fun item => includes (sharedBy item) (Participant.id participant)) items).

Lemma getParticipantBalances_figures participants items :
  participants <> [] -> items <> [] ->
  getParticipantBalances participants items
  = map (fun p =>
           {| id := Participant.id p;
              name := Participant.name p;
              paid := toFixed2 (paidBefore items p);
              owes := toFixed2 (owesBefore items p);
              balance := toFixed2 (paidBefore items p - owesBefore items p) |})
        participants.
Proof.
  intros Hp Hi. unfold getParticipantBalances.
  destruct participants; [contradiction|]. destruct items; [contradiction|]. reflexivity.
Qed.

(** X15.  The page reads the amount of an item from the field [amount],
    which the items of the item services do not have: on such items
    [getParticipantBalances] reports 0 paid, 0 owed and a balance of 0
    for every participant, whatever the items cost. *)
Theorem page_reads_no_amount
    (participants : list Participant.t) (items : list BillItem.t) :
  Forall (fun b => paid b == 0 /\ owes b == 0 /\ balance b == 0)
    (getParticipantBalances participants (map asRead items)).
Proof.
  destruct participants as [|p0 ps]; [constructor|].
  destruct items as [|i0 rest]; [constructor|].
  rewrite getParticipantBalances_figures by discriminate.
  apply Forall_map, Forall_forall. intros p _.
  assert (forall item, In item (map asRead (i0 :: rest)) -> itemTotal item == 0) as Hzero.
  { intros item Hitem. apply in_map_iff in Hitem as (b & <- & _).
    unfold itemTotal, amountOf. simpl. destruct (BillItem.hasSst b); ring. }
  assert (paidBefore (map asRead (i0 :: rest)) p == 0) as Hpaid.
  { unfold paidBefore. rewrite reduceSum_filter. apply sumQ_zero.
    intros item Hitem. destruct (String.eqb _ _); [now apply Hzero | reflexivity]. }
  assert (owesBefore (map asRead (i0 :: rest)) p == 0) as Howes.
  { unfold owesBefore. rewrite reduceSum_filter. apply sumQ_zero.
    intros item Hitem. destruct (includes _ _); [|reflexivity].
    rewrite (Hzero item Hitem). unfold Qdiv. ring. }
  cbn [paid owes balance].
  split; [now apply toFixed2_zero | split; [now apply toFixed2_zero|]].
  apply toFixed2_zero. rewrite Hpaid, Howes. ring.
Qed.







End SessionPageFacts.

(** ** The items in local storage *)

Module LocalStorageFacts.
Import Js JsFacts RoundingFacts Calculations CalculationsFacts SplitEngineFacts.
Import LocalStorage.

(** The id of a stored item. *)
Definition idOf (i : StoredItem.t) : string := BillItem.id (StoredItem.item i).

Lemma findIndex_Some itemId items index :
  findIndex itemId items = Some index ->
  exists current,
    items !! index = Some current /\ idOf current = itemId
    /\ Forall (fun i => idOf i <> itemId) (take index items).
Proof.
  revert index. induction items as [|i items IH]; intros index H; simpl in H.
  - discriminate.
  - destruct (String.eqb (BillItem.id (StoredItem.item i)) itemId) eqn:E.
    + injection H as <-. apply String.eqb_eq in E. exists i. simpl.
      repeat split; [exact E | constructor].
    + destruct (findIndex itemId items) as [k|] eqn:Hk; [|discriminate].
      injection H as <-. destruct (IH k eq_refl) as (current & Hlook & Hid & Hbefore).
      exists current. simpl. repeat split; try assumption.
      constructor; [|exact Hbefore]. apply String.eqb_neq in E. exact E.
Qed.

Lemma findIndex_None itemId items :
  findIndex itemId items = None <-> Forall (fun i => idOf i <> itemId) items.
Proof.
  induction items as [|i items IH]; simpl.
  - split; [constructor | reflexivity].
  - destruct (String.eqb (BillItem.id (StoredItem.item i)) itemId) eqn:E.
    + apply String.eqb_eq in E. split; [discriminate|].
      intros H. apply Forall_cons in H as [H _]. contradiction.
    + apply String.eqb_neq in E. destruct (findIndex itemId items) as [k|].
      * split; [discriminate|]. intros H. apply Forall_cons in H as [_ H].
        apply IH in H. discriminate.
      * split; [|reflexivity]. intros _. constructor; [exact E | now apply IH].
Qed.

Lemma storage_get_set (accepted : bool) items store :
  storage_get (storage_set accepted items store)
  = if accepted then items else storage_get store.
Proof. unfold storage_set. now destruct accepted. Qed.

Lemma filter_fresh (newId : string) (items : list StoredItem.t) :
  Forall (fun i => idOf i <> newId) items ->
  List.filter (fun i => negb (String.eqb (BillItem.id (StoredItem.item i)) newId)) items
  = items.
Proof.
  induction 1 as [|i items Hi _ IH]; simpl; [reflexivity|].
  apply String.eqb_neq in Hi. unfold idOf in Hi. rewrite Hi. simpl. now rewrite IH.
Qed.

(** X17.  [add] appends the new item to the stored array, so that
    [getBySession] returns it last among the items of its session and
    returns the items of every other session as before.  With an id that
    no stored item has, [remove] of that id brings every session back to
    what it was.  Both hold when the storage accepts the arrays; when it
    refuses the array of [add], the item is returned but not stored. *)
Theorem add_then_remove (accepted : bool)
    (newId sessionId : string) (data : AddItemForm.t) (store : Store) :
  let items := storage_get store in
  let newItem := snd (add accepted newId sessionId data store) in
  let store' := fst (add accepted newId sessionId data store) in
  idOf newItem = newId
  /\ (accepted = false -> store' = store)
  /\ (accepted = true ->
      getBySession sessionId store' = getBySession sessionId store ++ [newItem]
      /\ (forall other, other <> sessionId ->
                        getBySession other store' = getBySession other store)
      /\ (Forall (fun i => idOf i <> newId) items ->
          forall session,
            getBySession session (remove true newId store') = getBySession session store)).
Proof.
  intros items newItem store'. split; [reflexivity|].
  change store' with (storage_set accepted (items ++ [newItem]) store). clear store'.
  split.
  - intros ->. reflexivity.
  - intros ->.
    assert (storage_get (storage_set true (items ++ [newItem]) store)
            = items ++ [newItem]) as Hstored by reflexivity.
    split; [|split].
    + unfold getBySession. rewrite Hstored, List.filter_app. simpl.
      fold items. now rewrite String.eqb_refl.
    + intros other Hother. unfold getBySession. rewrite Hstored, List.filter_app. simpl.
      fold items.
      assert (String.eqb sessionId other = false) as ->
        by (apply String.eqb_neq; congruence).
      now rewrite app_nil_r.
    + intros Hfresh session. unfold getBySession, remove.
      rewrite storage_get_set, Hstored, List.filter_app. simpl.
      change (BillItem.id (StoredItem.item newItem)) with newId.
      rewrite String.eqb_refl. simpl. rewrite app_nil_r.
      rewrite (filter_fresh newId items Hfresh). reflexivity.
Qed.

(** The theorem on an empty storage that accepts the array. *)
Lemma add_then_remove_witness :
  let data := AddItemForm.mk "Pizza" 30 "1" ["1"; "2"; "3"]%string false in
  let newItem := snd (add true "i1" "s1" data None) in
  let store' := fst (add true "i1" "s1" data None) in
  getBySession "s1" store' = [newItem]
  /\ getBySession "s1" (remove true "i1" store') = [].
Proof.
  intros data newItem store'.
  pose proof (add_then_remove true "i1" "s1" data None) as (_ & _ & H).
  destruct (H eq_refl) as (Hget & _ & Hremove).
  split; [exact Hget|].
  apply (Hremove ltac:(constructor) "s1"%string).
Defined.

Lemma insert_keeps {A : Type} (f : StoredItem.t -> A) (items : list StoredItem.t)
    (index : nat) (current updated : StoredItem.t) :
  items !! index = Some current -> f updated = f current ->
  map f (<[index := updated]> items) = map f items.
Proof.
  revert index. induction items as [|i items IH]; intros [|index] Hlook Hf; simpl in *;
    try discriminate.
  - injection Hlook as ->. now rewrite Hf.
  - f_equal. now apply IH.
Qed.

(** An item whose stored SST amount is 0 or missing gets no SST
    contribution from the engine. *)
Lemma absent_sst_no_contribution taxConfig participant item totalParticipants c :
  sstAmount_absent item ->
  calculateItemContribution taxConfig participant item totalParticipants = Returned c ->
  ItemContribution.sstContribution c = 0.
Proof.
  intros Habsent. unfold calculateItemContribution.
  rewrite (withSst_absent item) by assumption.
  destruct (negb _); [intros [= <-]; reflexivity|]. intros H.
  apply bind_Returned_inv in H as (baseShare & _ & H).
  apply bind_Returned_inv in H as (sst & Hsst & H).
  apply bind_Returned_inv in H as (serviceCharge & _ & H).
  apply mret_Returned_inv in Hsst, H. subst. reflexivity.
Qed.

(** X18.  [update] never changes the id or the session of a stored item,
    nor the number or the order of the items.  It is rejected with
    [Item not found] exactly when no stored item has the id, and then the
    storage is left as it was; otherwise, when some stored item has the
    id, it is fulfilled and the item it returns carries the id. *)
Theorem update_keeps_ids (accepted : bool)
    (itemId : string) (data : PartialAddItemForm.t) (store : Store) :
  let store' := fst (update accepted itemId data store) in
  let result := snd (update accepted itemId data store) in
  map idOf (storage_get store') = map idOf (storage_get store)
  /\ map StoredItem.sessionId (storage_get store')
     = map StoredItem.sessionId (storage_get store)
  /\ ((exists message, result = Rejected message)
      <-> Forall (fun i => idOf i <> itemId) (storage_get store))
  /\ (Forall (fun i => idOf i <> itemId) (storage_get store)
      /\ result = Rejected "Item not found" /\ store' = store
      \/ Exists (fun i => idOf i = itemId) (storage_get store)
         /\ exists updated, result = Fulfilled updated /\ idOf updated = itemId).
Proof.
  intros store' result. subst store' result. unfold update.
  destruct (findIndex itemId (storage_get store)) as [index|] eqn:Hfind.
  - destruct (findIndex_Some _ _ _ Hfind) as (current & Hlook & Hid & _).
    assert (Hex : Exists (fun i => idOf i = itemId) (storage_get store)).
    { apply Exists_exists. exists current. split; [|exact Hid].
      eapply list_elem_of_lookup_2. exact Hlook. }
    rewrite Hlook. cbn [fst snd]. rewrite storage_get_set.
    split; [|split; [|split]].
    + destruct accepted; [|reflexivity]. now apply insert_keeps with (current := current).
    + destruct accepted; [|reflexivity]. now apply insert_keeps with (current := current).
    + split; [intros [message H]; discriminate|].
      intros Hall. exfalso. apply Exists_exists in Hex as (i & Hin & Hi).
      rewrite Forall_forall in Hall. exact (Hall i Hin Hi).
    + right. split; [exact Hex|]. eexists. split; [reflexivity|]. exact Hid.
  - cbn [fst snd]. split; [reflexivity | split; [reflexivity|]].
    apply findIndex_None in Hfind. split.
    + split; [intros _; exact Hfind | intros _; eexists; reflexivity].
    + left. split; [exact Hfind | split; reflexivity].
Qed.

(** X19.  An [update] that does not mention [hasSst], such as a change
    of the name, keeps the flag of the stored item and sets its SST amount
    to 0.  The engine reads the stored amount, so it charges no SST for
    the updated item even when the flag is set. *)
Theorem update_without_flag_drops_sst (accepted : bool)
    (itemId : string) (data : PartialAddItemForm.t) (store store' : Store)
    (updated : StoredItem.t) :
  PartialAddItemForm.hasSst data = None ->
  update accepted itemId data store = (store', Fulfilled updated) ->
  (exists current,
      In current (storage_get store) /\ idOf current = itemId
      /\ BillItem.hasSst (StoredItem.item updated)
         = BillItem.hasSst (StoredItem.item current))
  /\ BillItem.sstAmount (StoredItem.item updated) = Some 0
  /\ (forall taxConfig participant totalParticipants c,
         calculateItemContribution taxConfig participant (StoredItem.item updated)
           totalParticipants = Returned c ->
         ItemContribution.sstContribution c = 0).
Proof.
  intros Hflag Hupdate. unfold update in Hupdate.
  destruct (findIndex itemId (storage_get store)) as [index|] eqn:Hfind; [|discriminate].
  destruct (findIndex_Some _ _ _ Hfind) as (current & Hlook & Hid & _).
  rewrite Hlook, Hflag in Hupdate. simpl in Hupdate.
  injection Hupdate as _ <-. cbn [StoredItem.item BillItem.hasSst BillItem.sstAmount].
  split; [|split].
  - exists current. split; [|split; [exact Hid | reflexivity]].
    apply list_elem_of_In. eapply list_elem_of_lookup_2. exact Hlook.
  - reflexivity.
  - intros taxConfig participant n c. apply absent_sst_no_contribution.
    right. exists 0. split; reflexivity.
Qed.

(** The theorem on the Drinks item, stored with its SST, on a change of
    the name. *)
Lemma update_without_flag_drops_sst_witness :
  let stored := StoredItem.mk drinks "s1" (Some 7.5) in
  let data := PartialAddItemForm.mk (Some "Soft drinks"%string) None None None None in
  let updated := StoredItem.mk
                   (BillItem.mk "2" "Soft drinks" 15 "2" ["2"; "3"]%string true (Some 0))
                   "s1" (Some (15 / lengthQ ["2"; "3"]%string)) in
  PartialAddItemForm.hasSst data = None
  /\ update true "2" data (Some [stored]) = (Some [updated], Fulfilled updated)
  /\ BillItem.hasSst (StoredItem.item updated) = true
  /\ BillItem.sstAmount (StoredItem.item updated) = Some 0.
Proof.
  intros stored data updated.
  assert (update true "2" data (Some [stored]) = (Some [updated], Fulfilled updated))
    as Hupdate by reflexivity.
  split; [reflexivity | split; [exact Hupdate | split; [reflexivity|]]].
  exact (proj1 (proj2 (update_without_flag_drops_sst true "2" data (Some [stored])
                         (Some [updated]) updated eq_refl Hupdate))).
Defined.

(** X20.  The SST of an amount comes out the same from the helper
    [calculateSst] of the utilities, from the calculator of the split
    engine under the default configuration and from [calculateItemTax];
    the amount that [add] stores for an item with SST is not rounded, and
    rounding it to the cent gives that figure. *)
Theorem sst_of_an_amount_agrees (amount : Q) :
  Utils.calculateSst amount None = Calculations.calculateSst DEFAULT_TAX_CONFIG amount
  /\ MalaysianTaxCalculator.TaxBreakdown.sstAmount
       (MalaysianTaxCalculator.calculateItemTax amount true false)
     == Utils.calculateSst amount None
  /\ (forall accepted newId sessionId name paidBy sharedBy store,
         match BillItem.sstAmount
                 (StoredItem.item
                    (snd (add accepted newId sessionId
                            (AddItemForm.mk name amount paidBy sharedBy true) store)))
         with
         | Some stored => stored = amount * 0.06
                          /\ roundToTwoDecimals stored == Utils.calculateSst amount None
         | None => False
         end).
Proof.
  split; [reflexivity | split].
  - unfold MalaysianTaxCalculator.calculateItemTax. cbv zeta.
    cbn [MalaysianTaxCalculator.TaxBreakdown.sstAmount].
    rewrite TaxEngineFacts.sstAmount_closed.
    unfold Utils.calculateSst. change (MalaysianTaxCalculator.roundToSen ?x)
      with (roundToTwoDecimals x).
    apply roundToTwoDecimals_proper. unfold TaxEngineFacts.sstOfItem. simpl. ring.
  - intros. simpl. split; reflexivity.
Qed.

(** *** What the storage holds after any sequence of operations *)








End LocalStorageFacts.

(** ** [suggestTaxSettings] *)

Module SuggestionFacts.
Import MalaysianTaxCalculator.

(** The normal form of an item name. *)
Definition normalized (itemName : string) : string := trim (toLowerCase itemName).

(** The suggestion of the loop over the entries, without the look-up of
    the name that precedes it in [suggestTaxSettings]. *)
Definition partialMatch (name : string) : TaxSuggestion.t :=
  match List.find (fun entry => String_includes name (fst entry)
                                || String_includes (fst entry) name) COMMON_ITEMS with
  | Some entry => snd entry
  | None => TaxSuggestion.mk false false "Default: no taxes applied"
  end.

Definition EXEMPT : TaxSuggestion.t :=
  TaxSuggestion.mk false false "Basic food items are typically SST-exempt".

Fixpoint noUpper (s : string) : bool :=
  match s with
  | EmptyString => true
  | String c s' => negb (isUpper c) && noUpper s'
  end.

Lemma suggestTaxSettings_unfold (itemName : string) :
  suggestTaxSettings itemName
  = match COMMON_ITEMS_get (normalized itemName) with
    | Some value => value
    | None => Suggestion (partialMatch (normalized itemName))
    end.
Proof.
  unfold suggestTaxSettings, partialMatch, normalized. cbv zeta.
  destruct (COMMON_ITEMS_get _); [reflexivity|].
  destruct (List.find _ COMMON_ITEMS); reflexivity.
Qed.

Lemma toLowerCase_noUpper (s : string) : noUpper (toLowerCase s) = true.
Proof.
  induction s as [|c s IH]; [reflexivity|]. cbn [toLowerCase noUpper].
  rewrite IH, andb_true_r. destruct (isUpper c) eqn:E; [|now rewrite E].
  unfold isUpper in *. apply andb_true_iff in E as [E1 E2].
  apply Nat.leb_le in E1, E2.
  rewrite Ascii.nat_ascii_embedding by lia.
  apply negb_true_iff, andb_false_iff. right. apply Nat.leb_gt. lia.
Qed.

Lemma trimStart_noUpper (s : string) : noUpper s = true -> noUpper (trimStart s) = true.
Proof.
  induction s as [|c s IH]; [reflexivity|]. cbn [trimStart noUpper]. intros H.
  apply andb_true_iff in H as [Hc Hs]. destruct (isSpace c); [now apply IH|].
  cbn [noUpper]. now rewrite Hc, Hs.
Qed.

Lemma trimEnd_noUpper (s : string) : noUpper s = true -> noUpper (trimEnd s) = true.
Proof.
  induction s as [|c s IH]; [reflexivity|]. cbn [trimEnd noUpper]. intros H.
  apply andb_true_iff in H as [Hc Hs]. destruct (_ && _); [reflexivity|].
  cbn [noUpper]. now rewrite Hc, IH.
Qed.

Lemma normalized_noUpper (itemName : string) : noUpper (normalized itemName) = true.
Proof. apply trimEnd_noUpper, trimStart_noUpper, toLowerCase_noUpper. Qed.

(** The look-up of a name: an entry of the table under that very name, an
    inherited property, or nothing. *)
Lemma COMMON_ITEMS_get_cases (name : string) :
  (exists entry, In entry COMMON_ITEMS /\ fst entry = name
                 /\ COMMON_ITEMS_get name = Some (Suggestion (snd entry)))
  \/ (In name OBJECT_PROTOTYPE /\ COMMON_ITEMS_get name = Some (Inherited name))
  \/ COMMON_ITEMS_get name = None.
Proof.
  unfold COMMON_ITEMS_get.
  destruct (List.find _ COMMON_ITEMS) as [entry|] eqn:Hfind.
  - left. exists entry. apply find_some in Hfind as [Hin Heq].
    apply String.eqb_eq in Heq. auto.
  - right. destruct (existsb _ OBJECT_PROTOTYPE) eqn:Hex; [left | now right].
    split; [|reflexivity]. apply existsb_exists in Hex as (p & Hin & Heq).
    apply String.eqb_eq in Heq. now subst p.
Qed.

(** Whatever the test, the loop over the entries never suggests the
    service charge without the SST. *)
Lemma find_never_service_charge_alone (test : string -> bool) :
  let s := match List.find (fun entry => test (fst entry)) COMMON_ITEMS with
           | Some entry => snd entry
           | None => TaxSuggestion.mk false false "Default: no taxes applied"
           end in
  implb (TaxSuggestion.hasServiceCharge s) (TaxSuggestion.hasSST s) = true.
Proof.
  cbn [List.find COMMON_ITEMS fst snd].
  repeat match goal with
         | |- context [if test ?k then _ else _] => destruct (test k)
         end; reflexivity.
Qed.

(** X22.  On the names [constructor] and [__proto__], in any case and
    with blanks around them, [suggestTaxSettings] returns the property
    that the table inherits from [Object.prototype] and no suggestion.  On
    every other name it returns the suggestion of the loop over the
    entries, so the look-up that precedes the loop changes nothing, and
    the suggestion never has the service charge without the SST. *)
Theorem suggestTaxSettings_result (itemName : string) :
  let name := normalized itemName in
  if existsb (String.eqb name) ["constructor"; "__proto__"]%string
  then suggestTaxSettings itemName = Inherited name
  else exists s,
         suggestTaxSettings itemName = Suggestion s
         /\ s = partialMatch name
         /\ implb (TaxSuggestion.hasServiceCharge s) (TaxSuggestion.hasSST s) = true.
Proof.
  intros name. rewrite suggestTaxSettings_unfold. fold name.
  pose proof (normalized_noUpper itemName) as Hlower. fold name in Hlower.
  destruct (existsb (String.eqb name) ["constructor"; "__proto__"]%string) eqn:Hex.
  - apply existsb_exists in Hex as (p & Hin & Heq). apply String.eqb_eq in Heq. subst p.
    destruct Hin as [<-|[<-|[]]]; reflexivity.
  - destruct (COMMON_ITEMS_get_cases name) as [(entry & Hin & Hname & ->)|[[Hin ->]| ->]].
    + exists (snd entry). split; [reflexivity|]. clearbody name. subst name. clear - Hin.
      cbn [In COMMON_ITEMS] in Hin.
      repeat (destruct Hin as [<-|Hin]; [split; reflexivity|]). destruct Hin.
    + exfalso. clearbody name. cbn [In OBJECT_PROTOTYPE] in Hin.
      repeat (destruct Hin as [<-|Hin]; [discriminate|]). destruct Hin.
    + exists (partialMatch name). split; [reflexivity | split; [reflexivity|]].
      exact (find_never_service_charge_alone
               (fun key => String_includes name key || String_includes key name)).
Qed.

(** The first five entries of the table are the exempt ones. *)
Lemma find_exempt_first (test : string -> bool) :
  existsb test ["rice"; "nasi lemak"; "roti canai"; "teh tarik"; "kopi"]%string = true ->
  match List.find (fun entry => test (fst entry)) COMMON_ITEMS with
  | Some entry => snd entry = EXEMPT
  | None => False
  end.
Proof.
  cbn [existsb List.find COMMON_ITEMS fst snd].
  repeat match goal with
         | |- context [if test ?k then _ else _] => destruct (test k)
         end; try reflexivity; discriminate.
Qed.

(** X23.  The exempt entries come first in the table and the first entry
    that matches wins: a name that contains one of [rice], [nasi lemak],
    [roti canai], [teh tarik] and [kopi], or that is a part of one of them
    as the empty name is, gets the exempt suggestion, also when it names
    a dish of a taxed entry. *)
Theorem exempt_entries_win (itemName : string) :
  let name := normalized itemName in
  existsb (fun key => String_includes name key || String_includes key name)
    ["rice"; "nasi lemak"; "roti canai"; "teh tarik"; "kopi"]%string = true ->
  suggestTaxSettings itemName = Suggestion EXEMPT.
Proof.
  intros name Hmatch. rewrite suggestTaxSettings_unfold. fold name.
  pose proof (find_exempt_first
                (fun key => String_includes name key || String_includes key name) Hmatch)
    as Hfind.
  assert (partialMatch name = EXEMPT) as Hpartial.
  { unfold partialMatch. destruct (List.find _ COMMON_ITEMS); [exact Hfind | destruct Hfind]. }
  destruct (COMMON_ITEMS_get_cases name) as [(entry & Hin & Hname & ->)|[[Hin ->]| ->]].
  - f_equal. rewrite <- Hpartial. clearbody name. subst name. clear - Hin Hmatch.
    cbn [In COMMON_ITEMS] in Hin.
    repeat (destruct Hin as [<-|Hin]; [try reflexivity; discriminate Hmatch|]). destruct Hin.
  - exfalso. clearbody name. clear - Hin Hmatch. cbn [In OBJECT_PROTOTYPE] in Hin.
    repeat (destruct Hin as [<-|Hin]; [discriminate Hmatch|]). destruct Hin.
  - now rewrite Hpartial.
Qed.

(** The theorem on a pizza that comes with rice, and on a blank name. *)
Lemma exempt_entries_win_witness :
  suggestTaxSettings "Pizza with Rice" = Suggestion EXEMPT
  /\ suggestTaxSettings "   " = Suggestion EXEMPT
  /\ suggestTaxSettings "pizza"
     = Suggestion (TaxSuggestion.mk true false "Fast food items are typically subject to SST").
Proof.
  split; [|split].
  - apply (exempt_entries_win "Pizza with Rice"). reflexivity.
  - apply (exempt_entries_win "   "). reflexivity.
  - reflexivity.
Defined.

End SuggestionFacts.

(** * Part IV: the engines on doubles *)

Module Binary64Facts.
Import Binary64.

Lemma pow2_pos (k : Z) : 0 < pow2 k.
Proof. apply Qpower.Qpower_0_lt. reflexivity. Qed.

Lemma pow2_plus (a b : Z) : pow2 (a + b) == pow2 a * pow2 b.
Proof. apply Qpower.Qpower_plus. discriminate. Qed.

Lemma pow2_minus (a b : Z) : pow2 (a - b) == pow2 a / pow2 b.
Proof. apply Qpower.Qpower_minus. discriminate. Qed.

Lemma pow2_Z (k : Z) : (0 <= k)%Z -> pow2 k == inject_Z (2 ^ k).
Proof. intros H. symmetry. apply (Qpower.Zpower_Qpower 2 k H). Qed.

Lemma pow2_le (a b : Z) : (a <= b)%Z -> pow2 a <= pow2 b.
Proof. intros H. apply Qpower.Qpower_le_compat_l; [exact H | discriminate]. Qed.

Lemma pow2_lt_inv (a b : Z) : pow2 a < pow2 b -> (a < b)%Z.
Proof. intros H. apply (Qpower.Qpower_lt_compat_l_inv 2); [exact H | reflexivity]. Qed.

Lemma Qred_inject_Z (n : Z) : Qred (inject_Z n) = inject_Z n.
Proof.
  unfold Qred, inject_Z.
  pose proof (Z.ggcd_gcd n 1) as Hg.
  pose proof (Z.ggcd_correct_divisors n 1) as Hd.
  destruct (Z.ggcd n 1) as [g [aa bb]]. simpl in *.
  rewrite Z.gcd_1_r in Hg. subst g.
  destruct Hd as [Ha Hb].
  assert (Ea : aa = n) by lia. assert (Eb : bb = 1%Z) by lia.
  rewrite Ea, Eb. reflexivity.
Qed.

(** [floorLog2] from below. *)
Lemma floorLog2_le (a : Q) : 0 < a -> pow2 (floorLog2 a) <= a.
Proof.
  intros Ha. unfold floorLog2.
  destruct (Qle_bool _ a) eqn:E; [apply Qle_bool_iff; exact E|].
  destruct a as [n d]. cbn [Qnum Qden].
  assert (Hn : (0 < n)%Z).
  { unfold Qlt in Ha. simpl in Ha. lia. }
  pose proof (Z.log2_spec n Hn) as [Hn1 _].
  pose proof (Z.log2_spec (Z.pos d) (Pos2Z.is_pos d)) as [_ Hd2].
  pose proof (Z.log2_nonneg n) as H0n.
  pose proof (Z.log2_nonneg (Z.pos d)) as H0d.
  replace (Z.log2 n - Z.log2 (Z.pos d) - 1)%Z
    with (Z.log2 n - Z.succ (Z.log2 (Z.pos d)))%Z by lia.
  rewrite pow2_minus, (pow2_Z (Z.log2 n)), (pow2_Z (Z.succ (Z.log2 (Z.pos d)))) by lia.
  set (x := (2 ^ Z.log2 n)%Z) in *. set (y := (2 ^ Z.succ (Z.log2 (Z.pos d)))%Z) in *.
  assert (Hy : (0 < y)%Z) by lia.
  assert (Hx : (0 < x)%Z) by (apply Z.pow_pos_nonneg; lia).
  apply Qle_shift_div_r.
  - change 0 with (inject_Z 0). rewrite <- Zlt_Qlt. exact Hy.
  - unfold Qle, Qmult, inject_Z. simpl. nia.
Qed.

Lemma floorLog2_lt (a : Q) (j : Z) : 0 < a -> a < pow2 j -> (floorLog2 a < j)%Z.
Proof.
  intros Ha Hj. apply pow2_lt_inv.
  eapply Qle_lt_trans; [apply floorLog2_le; exact Ha | exact Hj].
Qed.

Lemma ulpExponent_le (a : Q) (j : Z) :
  0 < a -> a < pow2 (j + 53) -> (-1074 <= j)%Z -> (ulpExponent a <= j)%Z.
Proof.
  intros Ha Hj Hmin. pose proof (floorLog2_lt a _ Ha Hj). unfold ulpExponent. lia.
Qed.

Lemma ulpExponent_min (a : Q) : (-1074 <= ulpExponent a)%Z.
Proof. unfold ulpExponent. lia. Qed.

Lemma roundHalfEven_le (x : Q) (N : Z) : x <= inject_Z N -> (roundHalfEven x <= N)%Z.
Proof.
  intros H. unfold roundHalfEven.
  pose proof (Qfloor_le x) as Hf. pose proof (Qlt_floor x) as Hc.
  assert (Hfl : (Qfloor x <= N)%Z).
  { rewrite <- (Qfloor_Z N). apply Qfloor_resp_le. exact H. }
  assert (Hstrict : 0 < x - inject_Z (Qfloor x) -> (Qfloor x + 1 <= N)%Z).
  { intros Hp. assert (inject_Z (Qfloor x) < inject_Z N) by lra.
    rewrite <- Zlt_Qlt in H0. lia. }
  destruct (Qcompare_spec (x - inject_Z (Qfloor x)) (1 # 2)) as [E|E|E].
  - destruct (Z.even _); [exact Hfl | apply Hstrict; lra].
  - exact Hfl.
  - apply Hstrict. lra.
Qed.

Lemma roundHalfEven_ge (x : Q) (N : Z) : inject_Z N <= x -> (N <= roundHalfEven x)%Z.
Proof.
  intros H. unfold roundHalfEven.
  assert (Hfl : (N <= Qfloor x)%Z).
  { rewrite <- (Qfloor_Z N). apply Qfloor_resp_le. exact H. }
  destruct (Qcompare _ _); [destruct (Z.even _)| |]; lia.
Qed.

Lemma roundHalfEven_near (x : Q) :
  x - (1 # 2) <= inject_Z (roundHalfEven x) <= x + (1 # 2).
Proof.
  unfold roundHalfEven.
  pose proof (Qfloor_le x) as Hf. pose proof (Qlt_floor x) as Hc.
  rewrite inject_Z_plus in Hc. change (inject_Z 1) with 1 in Hc.
  destruct (Qcompare_spec (x - inject_Z (Qfloor x)) (1 # 2)) as [E|E|E].
  - destruct (Z.even _); [|rewrite inject_Z_plus; change (inject_Z 1) with 1]; lra.
  - lra.
  - rewrite inject_Z_plus; change (inject_Z 1) with 1. lra.
Qed.

(** Rounding stays on the near side of every multiple of a last place
    that is at least as coarse. *)
Lemma roundPositive_le (a : Q) (n j : Z) :
  a <= inject_Z n * pow2 j -> (ulpExponent a <= j)%Z ->
  roundPositive a <= inject_Z n * pow2 j.
Proof.
  intros Hle He. unfold roundPositive. rewrite Qred_correct.
  set (e := ulpExponent a) in *.
  pose proof (pow2_pos e) as Hpe.
  assert (Hj : pow2 j == inject_Z (2 ^ (j - e)) * pow2 e).
  { rewrite <- pow2_Z by lia. rewrite <- pow2_plus. replace (j - e + e)%Z with j by lia.
    reflexivity. }
  assert (Hx : a / pow2 e <= inject_Z (n * 2 ^ (j - e))).
  { apply Qle_shift_div_r; [exact Hpe|]. rewrite inject_Z_mult. rewrite Hj in Hle.
    clearbody e. lra. }
  apply roundHalfEven_le in Hx. rewrite Zle_Qle, inject_Z_mult in Hx.
  rewrite Hj. clearbody e.
  set (m := inject_Z (roundHalfEven (a / pow2 e))) in *. clearbody m.
  set (p := pow2 e) in *. clearbody p.
  set (k := inject_Z (2 ^ (j - e))) in *. clearbody k.
  set (nn := inject_Z n) in *. clearbody nn. nra.
Qed.

Lemma roundPositive_ge (a : Q) (n j : Z) :
  inject_Z n * pow2 j <= a -> (ulpExponent a <= j)%Z ->
  inject_Z n * pow2 j <= roundPositive a.
Proof.
  intros Hle He. unfold roundPositive. rewrite Qred_correct.
  set (e := ulpExponent a) in *.
  pose proof (pow2_pos e) as Hpe.
  assert (Hj : pow2 j == inject_Z (2 ^ (j - e)) * pow2 e).
  { rewrite <- pow2_Z by lia. rewrite <- pow2_plus. replace (j - e + e)%Z with j by lia.
    reflexivity. }
  assert (Hx : inject_Z (n * 2 ^ (j - e)) <= a / pow2 e).
  { apply Qle_shift_div_l; [exact Hpe|]. rewrite inject_Z_mult. rewrite Hj in Hle.
    clearbody e. lra. }
  apply roundHalfEven_ge in Hx. rewrite Zle_Qle, inject_Z_mult in Hx.
  rewrite Hj. clearbody e.
  set (m := inject_Z (roundHalfEven (a / pow2 e))) in *. clearbody m.
  set (p := pow2 e) in *. clearbody p.
  set (k := inject_Z (2 ^ (j - e))) in *. clearbody k.
  set (nn := inject_Z n) in *. clearbody nn. nra.
Qed.

Lemma roundPositive_nonneg (a : Q) : 0 <= a -> 0 <= roundPositive a.
Proof.
  intros Ha. pose proof (roundPositive_ge a 0 (ulpExponent a)) as H.
  change (inject_Z 0) with 0 in H. rewrite Qmult_0_l in H. apply H; [exact Ha | lia].
Qed.

(** Rounding moves a number by at most half a last place. *)
Lemma roundPositive_near (a : Q) :
  Qabs (roundPositive a - a) <= pow2 (ulpExponent a) * (1 # 2).
Proof.
  unfold roundPositive. rewrite Qred_correct.
  set (e := ulpExponent a). pose proof (pow2_pos e) as Hpe.
  pose proof (roundHalfEven_near (a / pow2 e)) as [H1 H2].
  set (m := inject_Z (roundHalfEven (a / pow2 e))) in *. clearbody m.
  assert (Ha : a == (a / pow2 e) * pow2 e).
  { field. intros H0. rewrite H0 in Hpe. apply (Qlt_irrefl 0); exact Hpe. }
  set (x := a / pow2 e) in *. clearbody x. clearbody e.
  set (p := pow2 e) in *. clearbody p.
  apply Qabs_Qle_condition. rewrite Ha. split; nra.
Qed.

Lemma maxValue_grid : maxValue == inject_Z (2 ^ 53 - 1) * pow2 971.
Proof. unfold maxValue. rewrite inject_Z_mult, (pow2_Z 971) by lia. reflexivity. Qed.

Lemma maxValue_lt : maxValue < pow2 1024.
Proof.
  rewrite (pow2_Z 1024) by lia. unfold maxValue. rewrite <- Zlt_Qlt.
  change (2 ^ 1024)%Z with (2 ^ 53 * 2 ^ 971)%Z.
  assert (0 < 2 ^ 971)%Z by (apply Z.pow_pos_nonneg; lia). nia.
Qed.

Lemma roundPositive_finite (a : Q) : 0 < a -> a <= maxValue -> roundPositive a <= maxValue.
Proof.
  intros H0 Ha. rewrite maxValue_grid in *. apply roundPositive_le; [exact Ha|].
  apply ulpExponent_le; [exact H0| |lia].
  eapply Qle_lt_trans; [exact Ha|]. rewrite <- maxValue_grid. exact maxValue_lt.
Qed.

Lemma fl_proper (q q' : Q) : q == q' -> fl q = fl q'.
Proof. intros H. unfold fl. rewrite (Qred_complete q q' H). reflexivity. Qed.

(** What [fl] returns, by the sign of the argument. *)
Lemma fl_zero (q : Q) : q == 0 -> fl q = Finite 0.
Proof.
  intros H. rewrite (fl_proper q 0 H). reflexivity.
Qed.

Lemma fl_positive (q : Q) :
  0 < q -> q <= maxValue ->
  fl q = Finite (roundPositive (Qred q)) /\ 0 <= roundPositive (Qred q) <= maxValue.
Proof.
  intros H0 Hm. unfold fl, roundReduced.
  assert (H0' : 0 < Qred q) by (rewrite Qred_correct; exact H0).
  assert (Hm' : Qred q <= maxValue) by (rewrite Qred_correct; exact Hm).
  pose proof (roundPositive_finite _ H0' Hm') as Hf.
  pose proof (roundPositive_nonneg (Qred q) (Qlt_le_weak _ _ H0')) as Hn.
  destruct (Qcompare_spec (Qred q) 0) as [E|E|E]; [rewrite E in H0'; lra | lra |].
  cbv zeta. rewrite (proj2 (Qle_bool_iff _ _) Hf). split; [reflexivity | split; assumption].
Qed.

Lemma fl_negative (q : Q) :
  q < 0 -> - maxValue <= q ->
  fl q = Finite (- roundPositive (- Qred q))
  /\ 0 <= roundPositive (- Qred q) <= maxValue.
Proof.
  intros H0 Hm. unfold fl, roundReduced.
  assert (H0' : 0 < - Qred q) by (rewrite Qred_correct; lra).
  assert (Hm' : - Qred q <= maxValue) by (rewrite Qred_correct; lra).
  pose proof (roundPositive_finite _ H0' Hm') as Hf.
  pose proof (roundPositive_nonneg (- Qred q) (Qlt_le_weak _ _ H0')) as Hn.
  destruct (Qcompare_spec (Qred q) 0) as [E|E|E]; [rewrite E in H0'; lra | | lra].
  cbv zeta. rewrite (proj2 (Qle_bool_iff _ _) Hf). split; [reflexivity | split; assumption].
Qed.


(** A multiple of a last place fine enough for it is a double. *)
Lemma roundPositive_exact (a : Q) (n j : Z) :
  a == inject_Z n * pow2 j -> (ulpExponent a <= j)%Z -> roundPositive a = Qred a.
Proof.
  intros Ha He.
  assert (H : roundPositive a == a).
  { apply Qle_antisym.
    - rewrite Ha at 2. apply roundPositive_le; [rewrite Ha; apply Qle_refl | exact He].
    - rewrite Ha at 1. apply roundPositive_ge; [rewrite Ha; apply Qle_refl | exact He]. }
  unfold roundPositive in *. apply Qred_complete. rewrite Qred_correct in H. exact H.
Qed.

(** Integers below [2^53] are doubles. *)
Lemma fl_Z (n : Z) : (Z.abs n < 2 ^ 53)%Z -> fl (inject_Z n) = Finite (inject_Z n).
Proof.
  intros Hn. unfold fl. rewrite Qred_inject_Z. unfold roundReduced.
  assert (Hmax : inject_Z (2 ^ 53) <= maxValue) by (apply Qle_bool_iff; reflexivity).
  assert (Hgrid : forall m, (0 < m < 2 ^ 53)%Z ->
            roundPositive (inject_Z m) = inject_Z m).
  { intros m Hm. rewrite <- (Qred_inject_Z m) at 2.
    apply (roundPositive_exact _ m 0).
    - change (pow2 0) with 1. ring.
    - apply ulpExponent_le; [| |lia].
      + change 0 with (inject_Z 0). rewrite <- Zlt_Qlt. lia.
      + change (0 + 53)%Z with 53%Z. rewrite (pow2_Z 53) by lia.
        rewrite <- Zlt_Qlt. lia. }
  destruct (Qcompare_spec (inject_Z n) 0) as [E|E|E].
  - assert (n = 0)%Z by (unfold Qeq in E; simpl in E; lia). subst. reflexivity.
  - change 0 with (inject_Z 0) in E. rewrite <- Zlt_Qlt in E.
    change (- inject_Z n) with (inject_Z (- n)).
    rewrite Hgrid by lia.
    assert (Hle : inject_Z (- n) <= maxValue).
    { eapply Qle_trans; [|exact Hmax]. rewrite <- Zle_Qle. lia. }
    apply Qle_bool_iff in Hle. rewrite Hle.
    change (- inject_Z (- n)) with (inject_Z (- - n)). rewrite Z.opp_involutive.
    reflexivity.
  - change 0 with (inject_Z 0) in E. rewrite <- Zlt_Qlt in E.
    rewrite Hgrid by lia.
    assert (Hle : inject_Z n <= maxValue).
    { eapply Qle_trans; [|exact Hmax]. rewrite <- Zle_Qle. lia. }
    apply Qle_bool_iff in Hle. rewrite Hle. reflexivity.
Qed.

Lemma ofZ_small (n : Z) : (Z.abs n < 2 ^ 53)%Z -> ofZ n = Finite (inject_Z n).
Proof. apply fl_Z. Qed.


Lemma pow2_lt_maxValue (j : Z) : (j <= 1023)%Z -> pow2 j <= maxValue.
Proof.
  intros Hj. apply Qle_trans with (pow2 1023); [apply pow2_le; exact Hj|].
  rewrite (pow2_Z 1023) by lia. apply Qle_bool_iff. reflexivity.
Qed.

(** The rounding error: below [2^(j+53)] a result moves by at most half
    of [2^j]. *)
Lemma fl_near (q : Q) (j : Z) :
  Qabs q < pow2 (j + 53) -> (-1074 <= j <= 970)%Z ->
  exists r, fl q = Finite r /\ Qabs (r - q) <= pow2 j * (1 # 2)
            /\ (0 <= q -> 0 <= r) /\ (q <= 0 -> r <= 0).
Proof.
  intros Hq Hj.
  assert (Hmax : Qabs q <= maxValue).
  { apply Qlt_le_weak. eapply Qlt_le_trans; [exact Hq|]. apply pow2_lt_maxValue. lia. }
  pose proof (pow2_pos j) as Hpj.
  assert (Hhalf : forall a, 0 < a -> a < pow2 (j + 53) ->
            Qabs (roundPositive a - a) <= pow2 j * (1 # 2)).
  { intros a Ha Hlt. eapply Qle_trans; [apply roundPositive_near|].
    apply Qmult_le_compat_r; [|discriminate].
    apply pow2_le. apply ulpExponent_le; [exact Ha | exact Hlt | lia]. }
  destruct (Qlt_le_dec 0 q) as [Hp|Hn].
  - rewrite Qabs_pos in Hq, Hmax by lra.
    destruct (fl_positive q Hp Hmax) as (E & Hr1 & Hr2).
    exists (roundPositive (Qred q)). split; [exact E|].
    split; [|split; intros; lra].
    rewrite <- (Qred_correct q) at 2. apply Hhalf; rewrite Qred_correct; assumption.
  - destruct (Qle_lt_or_eq _ _ Hn) as [Hlt|Heq].
    + rewrite Qabs_neg in Hq, Hmax by lra.
      destruct (fl_negative q Hlt ltac:(lra)) as (E & Hr1 & Hr2).
      exists (- roundPositive (- Qred q)). split; [exact E|].
      split; [|split; intros; lra].
      assert (H : Qabs (roundPositive (- Qred q) - - Qred q) <= pow2 j * (1 # 2))
        by (apply Hhalf; rewrite Qred_correct; lra).
      rewrite Qred_correct in H at 2.
      set (r := roundPositive (- Qred q)) in *. clearbody r.
      apply Qabs_Qle_condition in H. apply Qabs_Qle_condition. split; lra.
    + exists 0. rewrite (fl_zero q Heq). split; [reflexivity|].
      split; [|split; intros; lra].
      rewrite Heq. change (Qabs (0 - 0)) with 0. lra.
Qed.

Lemma inRange_Finite (x : number) :
  inRange x = true -> exists q, x = Finite q /\ - maxValue <= q <= maxValue.
Proof.
  destruct x as [q| | |]; try discriminate. cbn. intros H.
  apply Qle_bool_iff, Qabs_Qle_condition in H. eauto.
Qed.




Lemma add_Finite (a b : Q) : add (Finite a) (Finite b) = fl (a + b).
Proof. reflexivity. Qed.

Lemma sub_Finite (a b : Q) : sub (Finite a) (Finite b) = fl (a - b).
Proof. reflexivity. Qed.

Lemma mul_Finite (a b : Q) : mul (Finite a) (Finite b) = fl (a * b).
Proof. reflexivity. Qed.

Lemma div_Finite (a b : Q) : ~ b == 0 -> div (Finite a) (Finite b) = fl (a / b).
Proof.
  intros H. unfold div. destruct (Qeq_bool b 0) eqn:E; [|reflexivity].
  apply Qeq_bool_iff in E. contradiction.
Qed.

Lemma ofZ_100 : ofZ 100 = Finite 100.
Proof. vm_compute. reflexivity. Qed.

End Binary64Facts.

(** ** Rounding to the cent on doubles *)

Module RoundingOnDoublesFacts.
Import Binary64 Binary64Facts Doubles.

Lemma ofZ_Finite (n : Z) : (Z.abs n < 2 ^ 53)%Z -> ofZ n = Finite (inject_Z n).
Proof. apply fl_Z. Qed.

Lemma Qfloor_of_bounds (x : Q) (n : Z) :
  inject_Z n <= x -> x < inject_Z n + 1 -> Qfloor x = n.
Proof.
  intros Hl Hu.
  pose proof (Qfloor_le x) as Hf. pose proof (Qlt_floor x) as Hc.
  rewrite inject_Z_plus in Hc. change (inject_Z 1) with 1 in Hc.
  assert (H1 : inject_Z (Qfloor x) < inject_Z (n + 1)).
  { rewrite inject_Z_plus. change (inject_Z 1) with 1. lra. }
  assert (H2 : inject_Z n < inject_Z (Qfloor x + 1)).
  { rewrite inject_Z_plus. change (inject_Z 1) with 1. lra. }
  rewrite <- Zlt_Qlt in H1, H2. lia.
Qed.

Lemma inject_Z_bounds (n lo hi : Z) :
  inject_Z lo <= inject_Z n <= inject_Z hi -> (lo <= n <= hi)%Z.
Proof. intros [H1 H2]. rewrite <- Zle_Qle in H1, H2. lia. Qed.

(** The count of cents that [roundToTwoDecimals], [roundToSen] and
    [applyMalaysianRounding] read off an amount of at most 1e9 either
    way: a whole number, within half a cent and the rounding error of one
    product of the amount. *)
Lemma cents_of_amount (q : Q) :
  - (1000000000) <= q <= 1000000000 ->
  exists cents : Z,
    Math_round (mul (Finite q) (ofZ 100)) = Finite (inject_Z cents)
    /\ (-100000000001 <= cents <= 100000000001)%Z
    /\ (0 <= q -> (0 <= cents)%Z)
    /\ Qabs (inject_Z cents - q * 100) <= (1 # 2) + (1 # 131072).
Proof.
  intros Hq. rewrite ofZ_100, mul_Finite.
  destruct (fl_near (q * 100) (-16)) as (r & Er & Hr & Hpos & _); [|lia|].
  { change (-16 + 53)%Z with 37%Z. rewrite (pow2_Z 37) by lia.
    apply Qle_lt_trans with (inject_Z 100000000000); [|rewrite <- Zlt_Qlt; reflexivity].
    change (inject_Z 100000000000) with 100000000000.
    apply Qabs_Qle_condition. split; lra. }
  assert (Hp : pow2 (-16) * (1 # 2) == 1 # 131072) by reflexivity.
  rewrite Hp in Hr. apply Qabs_Qle_condition in Hr.
  rewrite Er. cbn [Math_round].
  pose proof (Qfloor_le (r + (1 # 2))) as Hf. pose proof (Qlt_floor (r + (1 # 2))) as Hc.
  rewrite inject_Z_plus in Hc. change (inject_Z 1) with 1 in Hc.
  set (cents := Qfloor (r + (1 # 2))) in *.
  exists cents. split; [reflexivity|]. split; [|split].
  - assert (H : (-100000000001 - 1 < cents)%Z /\ (cents <= 100000000001)%Z).
    { split; [rewrite Zlt_Qlt | rewrite Zle_Qle].
      - change (inject_Z (-100000000001 - 1)) with (-100000000002).
        clearbody cents. lra.
      - change (inject_Z 100000000001) with 100000000001. clearbody cents. lra. }
    lia.
  - intros H0. specialize (Hpos ltac:(lra)).
    assert (H1 : inject_Z (-1) < inject_Z cents).
    { change (inject_Z (-1)) with (-1). clearbody cents. lra. }
    rewrite <- Zlt_Qlt in H1. lia.
  - apply Qabs_Qle_condition. clearbody cents. split; lra.
Qed.

(** The hundredth of a count of cents, as a double. *)
Lemma hundredth_of_cents (cents : Z) :
  (-100000000100 <= cents <= 100000000100)%Z ->
  exists x : Q,
    div (Finite (inject_Z cents)) (ofZ 100) = Finite x
    /\ fl (inject_Z cents / 100) = Finite x
    /\ Qabs (x - inject_Z cents / 100) <= 1 # 8388608.
Proof.
  intros Hc. rewrite ofZ_100, div_Finite by discriminate.
  destruct Hc as [Hl Hu]. rewrite Zle_Qle in Hl, Hu.
  change (inject_Z (-100000000100)) with (-100000000100) in Hl.
  change (inject_Z 100000000100) with 100000000100 in Hu.
  destruct (fl_near (inject_Z cents / 100) (-22)) as (x & Ex & Herr & _); [|lia|].
  { change (-22 + 53)%Z with 31%Z. rewrite (pow2_Z 31) by lia.
    apply Qle_lt_trans with (inject_Z 1000000001); [|rewrite <- Zlt_Qlt; reflexivity].
    change (inject_Z 1000000001) with 1000000001.
    unfold Qdiv. change (/ 100) with (1 # 100).
    set (c := inject_Z cents) in *. clearbody c.
    apply Qabs_Qle_condition. split; lra. }
  exists x. split; [exact Ex | split; [exact Ex|]].
  assert (Hp : pow2 (-22) * (1 # 2) == 1 # 8388608) by reflexivity.
  rewrite Hp in Herr. exact Herr.
Qed.

(** The count of cents read off the double of a count of cents is that
    count. *)
Lemma cents_of_hundredth (cents : Z) (x : Q) :
  (-100000000001 <= cents <= 100000000001)%Z ->
  Qabs (x - inject_Z cents / 100) <= 1 # 8388608 ->
  Math_round (mul (Finite x) (ofZ 100)) = Finite (inject_Z cents).
Proof.
  intros Hc Hx. rewrite ofZ_100, mul_Finite.
  destruct Hc as [Hl Hu]. rewrite Zle_Qle in Hl, Hu.
  change (inject_Z (-100000000001)) with (-100000000001) in Hl.
  change (inject_Z 100000000001) with 100000000001 in Hu.
  apply Qabs_Qle_condition in Hx. unfold Qdiv in Hx. change (/ 100) with (1 # 100) in Hx.
  destruct (fl_near (x * 100) (-16)) as (y & Ey & Hy & _); [|lia|].
  { change (-16 + 53)%Z with 37%Z. rewrite (pow2_Z 37) by lia.
    apply Qle_lt_trans with (inject_Z 100000000002); [|rewrite <- Zlt_Qlt; reflexivity].
    change (inject_Z 100000000002) with 100000000002.
    set (c := inject_Z cents) in *. clearbody c.
    apply Qabs_Qle_condition. split; lra. }
  assert (Hp : pow2 (-16) * (1 # 2) == 1 # 131072) by reflexivity.
  rewrite Hp in Hy. apply Qabs_Qle_condition in Hy.
  rewrite Ey. cbn [Math_round]. f_equal. f_equal.
  set (c := inject_Z cents) in *.
  apply Qfloor_of_bounds; fold c; clearbody c; lra.
Qed.

(** X1.  On doubles, for an amount of at most 1e9 either way,
    [roundToTwoDecimals] reads off the amount a whole number of cents,
    [Math.round(amount * 100)], which is within half a cent (and the
    rounding error of the product, less than 1e-5 cent) of the amount,
    and returns the double nearest to its hundredth; the result is within
    0.005 + 1e-6 of the amount.  The result is returned unchanged when
    the function is applied again.  [roundToSen] is the same function.
    A tie of the product goes up: 0.125 gives 0.13 and -0.125 gives
    -0.12.  A decimal tie goes where the product on doubles falls: 1.005
    gives 1.00, the double 0.075 gives 0.08, and the product of 1.45 and
    0.10 gives 0.14. *)
Theorem roundToTwoDecimals_whole_cents (q : Q) :
  - (1000000000) <= q <= 1000000000 ->
  exists (cents : Z) (result : Q),
    Math_round (mul (Finite q) (ofZ 100)) = Finite (inject_Z cents)
    /\ Qabs (inject_Z cents - q * 100) <= (1 # 2) + (1 # 100000)
    /\ roundToTwoDecimals (Finite q) = fl (inject_Z cents / 100)
    /\ roundToTwoDecimals (Finite q) = Finite result
    /\ Qabs (result - q) <= 0.005 + 0.000001
    /\ roundToTwoDecimals (roundToTwoDecimals (Finite q)) = roundToTwoDecimals (Finite q)
    /\ MalaysianTaxCalculator.roundToSen (Finite q) = roundToTwoDecimals (Finite q)
    /\ roundToTwoDecimals (fl 0.125) = fl 0.13
    /\ roundToTwoDecimals (fl (-0.125)) = fl (-0.12)
    /\ roundToTwoDecimals (fl 1.005) = fl 1.00
    /\ roundToTwoDecimals (fl 0.075) = fl 0.08
    /\ roundToTwoDecimals (mul (fl 1.45) (fl 0.10)) = fl 0.14.
Proof.
  intros Hq.
  destruct (cents_of_amount q Hq) as (cents & Ec & Hc & _ & Hnear).
  destruct (hundredth_of_cents cents ltac:(lia)) as (x & Ex & Efl & Hx).
  assert (Eres : roundToTwoDecimals (Finite q) = Finite x).
  { unfold roundToTwoDecimals. rewrite Ec. exact Ex. }
  exists cents, x.
  split; [exact Ec|].
  split; [eapply Qle_trans; [exact Hnear|]; apply Qle_bool_iff; reflexivity|].
  split; [rewrite Eres; symmetry; exact Efl|].
  split; [exact Eres|].
  split; [|split; [|split; [reflexivity|]]].
  - apply Qabs_Qle_condition in Hx, Hnear. unfold Qdiv in Hx.
    change (/ 100) with (1 # 100) in Hx.
    set (c := inject_Z cents) in *. clearbody c.
    apply Qabs_Qle_condition. split; lra.
  - rewrite Eres. unfold roundToTwoDecimals.
    rewrite (cents_of_hundredth cents x Hc Hx). exact Ex.
  - repeat match goal with |- _ /\ _ => split end; vm_compute; reflexivity.
Qed.

Lemma roundToTwoDecimals_whole_cents_witness :
  - (1000000000) <= 2.675 <= 1000000000
  /\ exists (cents : Z) (result : Q),
       Math_round (mul (Finite 2.675) (ofZ 100)) = Finite (inject_Z cents)
       /\ Qabs (inject_Z cents - 2.675 * 100) <= (1 # 2) + (1 # 100000)
       /\ roundToTwoDecimals (Finite 2.675) = fl (inject_Z cents / 100)
       /\ roundToTwoDecimals (Finite 2.675) = Finite result
       /\ Qabs (result - 2.675) <= 0.005 + 0.000001
       /\ roundToTwoDecimals (roundToTwoDecimals (Finite 2.675))
          = roundToTwoDecimals (Finite 2.675)
       /\ MalaysianTaxCalculator.roundToSen (Finite 2.675) = roundToTwoDecimals (Finite 2.675)
       /\ roundToTwoDecimals (fl 0.125) = fl 0.13
       /\ roundToTwoDecimals (fl (-0.125)) = fl (-0.12)
       /\ roundToTwoDecimals (fl 1.005) = fl 1.00
       /\ roundToTwoDecimals (fl 0.075) = fl 0.08
       /\ roundToTwoDecimals (mul (fl 1.45) (fl 0.10)) = fl 0.14.
Proof.
  assert (H : - (1000000000) <= 2.675 <= 1000000000)
    by (split; apply Qle_bool_iff; reflexivity).
  split; [exact H|]. exact (roundToTwoDecimals_whole_cents 2.675 H).
Defined.

End RoundingOnDoublesFacts.

(** ** The tax engine on doubles *)

Module TaxOnDoublesFacts.
Import Binary64 Binary64Facts Doubles Doubles.MalaysianTaxCalculator RoundingOnDoublesFacts.

Definition item (a : number) (sst serviceCharge exempt : bool) : TaxableItem :=
  {| amount := a; hasSST := sst; hasServiceCharge := serviceCharge; isExempt := exempt |}.

(** What the specification says of [calculateTaxes], in its words. *)

(** An item bears SST when it is not exempt and has the flag. *)
Definition taxed (x : TaxableItem) : bool := negb (isExempt x) && hasSST x.

(** The SST of one item: 6% of the amount plus, for an item with service
    charge, 10% of the amount. *)
Definition itemSst (x : TaxableItem) : number :=
  mul (add (amount x)
           (if hasServiceCharge x then mul (amount x) (fl 0.10) else Finite 0))
      (fl 0.06).

Definition sumOfItemSst (items : list TaxableItem) : number :=
  fold_left (fun sum x => if taxed x then add sum (itemSst x) else sum) items (Finite 0).

Definition sumOfAmounts (items : list TaxableItem) : number :=
  fold_left (fun sum x => add sum (amount x)) items (Finite 0).

(** The three accumulators of the first loop, one by one. *)
Lemma subtotal_fold (items : list TaxableItem) (acc : Bases) :
  b_subtotal (fold_left baseStep items acc)
  = fold_left (fun sum x => add sum (amount x)) items (b_subtotal acc).
Proof.
  revert acc. induction items as [|x items IH]; intros acc; [reflexivity|].
  cbn [fold_left]. rewrite IH. unfold baseStep. destruct (isExempt x); reflexivity.
Qed.

Lemma serviceChargeBase_fold (items : list TaxableItem) (acc : Bases) :
  b_serviceChargeBase (fold_left baseStep items acc)
  = fold_left (fun sum x => if negb (isExempt x) && hasServiceCharge x
                            then add sum (amount x) else sum)
      items (b_serviceChargeBase acc).
Proof.
  revert acc. induction items as [|x items IH]; intros acc; [reflexivity|].
  cbn [fold_left]. rewrite IH. unfold baseStep.
  destruct (isExempt x), (hasServiceCharge x); reflexivity.
Qed.

Lemma sstStep_fold (items : list TaxableItem) (sum : number) :
  fold_left sstStep items sum
  = fold_left (fun sum x => if taxed x then add sum (itemSst x) else sum) items sum.
Proof.
  revert sum. induction items as [|x items IH]; intros sum; [reflexivity|].
  cbn [fold_left]. rewrite IH. reflexivity.
Qed.

Lemma sstAmount_fold (items : list TaxableItem) :
  sstAmount (calculateTaxes items) = roundToSen (sumOfItemSst items).
Proof. unfold calculateTaxes, sumOfItemSst. cbn [sstAmount]. rewrite sstStep_fold. reflexivity. Qed.

Lemma serviceChargeAmount_fold (items : list TaxableItem) :
  serviceChargeAmount (calculateTaxes items)
  = roundToSen
      (mul (fold_left (fun sum x => if negb (isExempt x) && hasServiceCharge x
                                    then add sum (amount x) else sum)
              items (Finite 0))
           SERVICE_CHARGE_RATE).
Proof.
  unfold calculateTaxes. cbn [serviceChargeAmount]. rewrite serviceChargeBase_fold.
  reflexivity.
Qed.

(** C5.  On doubles, [calculateTaxes] computes the SST item by item: the
    SST amount is the sum, in the order of the list, of
    [(amount + (hasServiceCharge ? amount * 0.10 : 0)) * 0.06] over the
    items that are not exempt and have [hasSST], then multiplied by 100,
    rounded to the nearest integer and divided by 100.  One item of 2.75
    has the sum 0.16499999999999998 and the SST 0.16.  The item of 100
    with both flags yields the service charge 10, the SST 6.6 and the
    final total 116.6.  On the bill of 50 with SST, 30 with service
    charge and 20 with both, the service charge is 5 and the SST is 4.32,
    6% of 50 and of 20 + 2, and not the 4.50 that 6% of the SST base 70
    plus the whole service charge would give.  An exempt item,
    whatever its flags and its place in the list, is part of the subtotal
    and changes neither the service charge nor the SST. *)
Theorem calculateTaxes_sst_item_by_item :
  (forall items : list TaxableItem,
     sstAmount (calculateTaxes items)
     = div (Math_round (mul (sumOfItemSst items) (ofZ 100))) (ofZ 100))
  /\ (let x := item (fl 2.75) true false false in
      sumOfItemSst [x] = fl 0.16499999999999998
      /\ sstAmount (calculateTaxes [x]) = fl 0.16)
  /\ (let t := calculateTaxes [item (ofZ 100) true true false] in
      serviceChargeAmount t = ofZ 10
      /\ sstAmount t = fl 6.6
      /\ finalTotal t = fl 116.6)
  /\ (let t := calculateTaxes [item (ofZ 50) true false false;
                               item (ofZ 30) false true false;
                               item (ofZ 20) true true false] in
      serviceChargeAmount t = ofZ 5
      /\ sstAmount t = fl 4.32
      /\ roundToSen (mul (add (ofZ 70) (serviceChargeAmount t)) SST_RATE) = fl 4.5)
  /\ (forall (before after : list TaxableItem) (a : number) (sst serviceCharge : bool),
        let x := item a sst serviceCharge true in
        let t := calculateTaxes (before ++ x :: after) in
        subtotal t = roundToSen (sumOfAmounts (before ++ x :: after))
        /\ serviceChargeAmount t = serviceChargeAmount (calculateTaxes (before ++ after))
        /\ sstAmount t = sstAmount (calculateTaxes (before ++ after))).
Proof.
  split; [intros items; apply sstAmount_fold|].
  split; [split; vm_compute; reflexivity|].
  split; [split; [|split]; vm_compute; reflexivity|].
  split; [split; [|split]; vm_compute; reflexivity|].
  intros before after a sst serviceCharge x t. subst t. split; [|split].
  - unfold calculateTaxes, sumOfAmounts. cbn [subtotal]. rewrite subtotal_fold. reflexivity.
  - rewrite !serviceChargeAmount_fold, !fold_left_app. reflexivity.
  - rewrite !sstAmount_fold. unfold sumOfItemSst. rewrite !fold_left_app. reflexivity.
Qed.

(** *** [applyMalaysianRounding] *)

(** The digit rule on a whole number of cents. *)
Definition digitRule (cents : Z) : Z :=
  let d := (cents mod 10)%Z in
  if (d <=? 2)%Z then (cents - d)%Z
  else if (d <=? 7)%Z then (cents - d + 5)%Z
  else (cents - d + 10)%Z.

Lemma digitRule_nearest (cents : Z) :
  (digitRule cents mod 5 = 0)%Z /\ (Z.abs (digitRule cents - cents) <= 2)%Z.
Proof.
  unfold digitRule.
  pose proof (Z.mod_pos_bound cents 10 ltac:(lia)) as Hd.
  pose proof (Z.div_mod cents 10 ltac:(lia)) as Hc.
  set (d := (cents mod 10)%Z) in *. clearbody d.
  set (k := (cents / 10)%Z) in *. clearbody k.
  destruct (d <=? 2)%Z eqn:E2; [|destruct (d <=? 7)%Z eqn:E7].
  - apply Z.leb_le in E2. replace (cents - d)%Z with (2 * k * 5)%Z by lia.
    rewrite Z.mod_mul by lia. lia.
  - apply Z.leb_gt in E2. apply Z.leb_le in E7.
    replace (cents - d + 5)%Z with ((2 * k + 1) * 5)%Z by lia.
    rewrite Z.mod_mul by lia. lia.
  - apply Z.leb_gt in E7.
    replace (cents - d + 10)%Z with ((2 * k + 2) * 5)%Z by lia.
    rewrite Z.mod_mul by lia. lia.
Qed.

Lemma leb_Z (a b : Z) : leb (Finite (inject_Z a)) (Finite (inject_Z b)) = (a <=? b)%Z.
Proof. unfold leb, Qle_bool, inject_Z. cbn [Qnum Qden]. rewrite !Z.mul_1_r. reflexivity. Qed.

Lemma add_Z (a b : Z) :
  (Z.abs (a + b) < 2 ^ 53)%Z ->
  add (Finite (inject_Z a)) (Finite (inject_Z b)) = Finite (inject_Z (a + b)).
Proof.
  intros H. rewrite add_Finite, <- (fl_Z _ H). apply fl_proper.
  rewrite inject_Z_plus. reflexivity.
Qed.

Lemma sub_Z (a b : Z) :
  (Z.abs (a - b) < 2 ^ 53)%Z ->
  sub (Finite (inject_Z a)) (Finite (inject_Z b)) = Finite (inject_Z (a - b)).
Proof.
  intros H. rewrite sub_Finite, <- (fl_Z _ H). apply fl_proper.
  unfold Z.sub. rewrite inject_Z_plus, inject_Z_opp. reflexivity.
Qed.

(** [cents % 10] on a whole number of cents that is not negative. *)
Lemma rem_Z (c : Z) :
  (0 <= c)%Z ->
  rem (Finite (inject_Z c)) (Finite (inject_Z 10)) = Finite (inject_Z (c mod 10)).
Proof.
  intros Hc. change (inject_Z 10) with 10.
  unfold rem. change (Qeq_bool 10 0) with false. cbv iota.
  pose proof (Z.mod_pos_bound c 10 ltac:(lia)) as Hd.
  rewrite <- (fl_Z (c mod 10)) by lia. apply fl_proper.
  assert (Ht : truncate (inject_Z c / 10) = (c / 10)%Z).
  { unfold truncate.
    assert (H0 : 0 <= inject_Z c / 10).
    { apply Qle_shift_div_l; [reflexivity|]. rewrite Qmult_0_l.
      change 0 with (inject_Z 0). rewrite <- Zle_Qle. exact Hc. }
    apply Qle_bool_iff in H0. rewrite H0.
    symmetry. exact (Zdiv_Qdiv c 10). }
  rewrite Ht, Z.mod_eq by lia.
  unfold Z.sub. rewrite inject_Z_plus, inject_Z_opp, inject_Z_mult. reflexivity.
Qed.

(** The digit rule as [applyMalaysianRounding] computes it on a whole
    number of cents below [2^53]: every intermediate result is exact. *)
Lemma roundedCents_digitRule (cents : Z) :
  (0 <= cents <= 100000000001)%Z ->
  (if leb (rem (Finite (inject_Z cents)) (ofZ 10)) (ofZ 2)
   then sub (Finite (inject_Z cents)) (rem (Finite (inject_Z cents)) (ofZ 10))
   else if leb (rem (Finite (inject_Z cents)) (ofZ 10)) (ofZ 7)
   then add (sub (Finite (inject_Z cents)) (rem (Finite (inject_Z cents)) (ofZ 10)))
            (ofZ 5)
   else add (sub (Finite (inject_Z cents)) (rem (Finite (inject_Z cents)) (ofZ 10)))
            (ofZ 10))
  = Finite (inject_Z (digitRule cents)).
Proof.
  intros Hc.
  rewrite !ofZ_Finite by (simpl; lia).
  rewrite rem_Z by lia.
  pose proof (Z.mod_pos_bound cents 10 ltac:(lia)) as Hd.
  unfold digitRule. rewrite !leb_Z. rewrite sub_Z by lia.
  destruct (cents mod 10 <=? 2)%Z; [reflexivity|].
  destruct (cents mod 10 <=? 7)%Z; rewrite add_Z by lia; reflexivity.
Qed.

(** C6 (corrected).  On doubles, for an amount from 0 to 1e9,
    [applyMalaysianRounding] reads off the amount a whole number of
    cents, [Math.round(amount * 100)], which is within half a cent (and
    the rounding error of the product, less than 1e-5 cent) of the
    amount; it moves that number by the digit rule to the nearest
    multiple of 5, at most 2 cents away; and it returns the double
    nearest to the hundredth of the multiple.  The result is within
    0.025 + 1e-6 of the amount.  In particular 10.01 gives 10.00, 10.03
    gives 10.05, 10.08 gives 10.10 and 0.03 gives 0.05; and 0.125, whose
    product with 100 is the tie 12.5, has 13 cents and gives 0.15. *)
Theorem applyMalaysianRounding_digit_rule (q : Q) :
  0 <= q <= 1000000000 ->
  exists (cents : Z) (result : Q),
    Math_round (mul (Finite q) (ofZ 100)) = Finite (inject_Z cents)
    /\ Qabs (inject_Z cents - q * 100) <= (1 # 2) + (1 # 100000)
    /\ (digitRule cents mod 5 = 0)%Z
    /\ (Z.abs (digitRule cents - cents) <= 2)%Z
    /\ applyMalaysianRounding (Finite q) = fl (inject_Z (digitRule cents) / 100)
    /\ applyMalaysianRounding (Finite q) = Finite result
    /\ Qabs (result - q) <= 0.025 + 0.000001
    /\ applyMalaysianRounding (fl 10.01) = fl 10.00
    /\ applyMalaysianRounding (fl 10.03) = fl 10.05
    /\ applyMalaysianRounding (fl 10.08) = fl 10.10
    /\ applyMalaysianRounding (fl 0.03) = fl 0.05
    /\ applyMalaysianRounding (fl 0.125) = fl 0.15.
Proof.
  intros Hq.
  destruct (cents_of_amount q ltac:(lra)) as (cents & Ec & Hc & Hpos & Hnear).
  specialize (Hpos ltac:(lra)).
  assert (Hc' : (0 <= cents <= 100000000001)%Z) by lia. clear Hc Hpos.
  destruct (digitRule_nearest cents) as [H5 H2].
  assert (Eres : applyMalaysianRounding (Finite q)
                 = fl (inject_Z (digitRule cents) / 100)).
  { unfold applyMalaysianRounding. cbv zeta. rewrite Ec.
    rewrite (roundedCents_digitRule cents Hc').
    rewrite ofZ_100. apply div_Finite. discriminate. }
  set (rounded := digitRule cents) in *.
  assert (Hr : 0 <= inject_Z rounded / 100 <= 1000000001).
  { assert (H : (0 <= rounded <= 100000000100)%Z).
    { assert (rounded mod 5 = 0 -> -2 <= rounded -> 0 <= rounded)%Z as Hnn.
      { intros Hm Hge. pose proof (Z.div_mod rounded 5 ltac:(lia)). lia. }
      split; [apply Hnn; [exact H5 | lia] | lia]. }
    destruct H as [Hl Hu]. rewrite Zle_Qle in Hl, Hu.
    change (inject_Z 0) with 0 in Hl. change (inject_Z 100000000100) with 100000000100 in Hu.
    clearbody rounded. unfold Qdiv. change (/ 100) with (1 # 100).
    set (x := inject_Z rounded) in *. clearbody x. split; lra. }
  destruct (fl_near (inject_Z rounded / 100) (-22)) as (result & Er & Herr & _); [|lia|].
  { change (-22 + 53)%Z with 31%Z. rewrite (pow2_Z 31) by lia.
    rewrite Qabs_pos by (destruct Hr; assumption).
    apply Qle_lt_trans with (inject_Z 1000000001); [|rewrite <- Zlt_Qlt; reflexivity].
    change (inject_Z 1000000001) with 1000000001. destruct Hr; assumption. }
  exists cents, result.
  split; [exact Ec|].
  split; [eapply Qle_trans; [exact Hnear|]; apply Qle_bool_iff; reflexivity|].
  split; [exact H5|]. split; [exact H2|]. split; [exact Eres|].
  split; [rewrite Eres; exact Er|].
  split.
  - assert (Hp : pow2 (-22) * (1 # 2) == 1 # 8388608) by reflexivity.
    rewrite Hp in Herr. apply Qabs_Qle_condition in Herr.
    apply Qabs_Qle_condition in Hnear.
    assert (Hd : - (2) <= inject_Z rounded - inject_Z cents <= 2).
    { assert (H : (-2 <= rounded - cents <= 2)%Z) by lia. destruct H as [Hl Hu].
      rewrite Zle_Qle in Hl, Hu. unfold Z.sub in Hl, Hu.
      rewrite inject_Z_plus, inject_Z_opp in Hl, Hu.
      change (inject_Z (-2)) with (-2) in Hl. change (inject_Z 2) with 2 in Hu.
      split; lra. }
    clearbody rounded. unfold Qdiv in *. change (/ 100) with (1 # 100) in *.
    set (x := inject_Z rounded) in *. clearbody x.
    set (y := inject_Z cents) in *. clearbody y.
    apply Qabs_Qle_condition. split; lra.
  - repeat match goal with |- _ /\ _ => split end; vm_compute; reflexivity.
Qed.

Lemma applyMalaysianRounding_digit_rule_witness :
  0 <= 22.24 <= 1000000000
  /\ exists (cents : Z) (result : Q),
       Math_round (mul (Finite 22.24) (ofZ 100)) = Finite (inject_Z cents)
       /\ Qabs (inject_Z cents - 22.24 * 100) <= (1 # 2) + (1 # 100000)
       /\ (digitRule cents mod 5 = 0)%Z
       /\ (Z.abs (digitRule cents - cents) <= 2)%Z
       /\ applyMalaysianRounding (Finite 22.24) = fl (inject_Z (digitRule cents) / 100)
       /\ applyMalaysianRounding (Finite 22.24) = Finite result
       /\ Qabs (result - 22.24) <= 0.025 + 0.000001
       /\ applyMalaysianRounding (fl 10.01) = fl 10.00
       /\ applyMalaysianRounding (fl 10.03) = fl 10.05
       /\ applyMalaysianRounding (fl 10.08) = fl 10.10
       /\ applyMalaysianRounding (fl 0.03) = fl 0.05
       /\ applyMalaysianRounding (fl 0.125) = fl 0.15.
Proof.
  assert (H : 0 <= 22.24 <= 1000000000) by (split; apply Qle_bool_iff; reflexivity).
  split; [exact H|]. exact (applyMalaysianRounding_digit_rule 22.24 H).
Defined.

(** The distance of two numbers, when both are finite. *)
Definition distance (x y : number) : option Q :=
  match x, y with
  | Finite a, Finite b => Some (Qabs (a - b))
  | _, _ => None
  end.

(** C6 as stated fails on three amounts.  For -0.03 the result is 0,
    which is 0.03 away, and -0.05 is nearer.  For the double 0.075 the
    product with 100 is rounded to 7.5, the count of cents is 8 and the
    result is 0.10, more than 0.025 away, while 0.05 is less than 0.025
    away.  For 1e307 the product is infinite and the result is [NaN]. *)
Lemma applyMalaysianRounding_not_nearest :
  (applyMalaysianRounding (fl (-0.03)) = Finite 0
   /\ (exists far near,
         distance (Finite 0) (fl (-0.03)) = Some far
         /\ distance (fl (-0.05)) (fl (-0.03)) = Some near
         /\ 0.025 < far /\ near < 0.025))
  /\ (mul (fl 0.075) (ofZ 100) = fl 7.5
      /\ applyMalaysianRounding (fl 0.075) = fl 0.10
      /\ (exists far near,
            distance (fl 0.10) (fl 0.075) = Some far
            /\ distance (fl 0.05) (fl 0.075) = Some near
            /\ 0.025 < far /\ near < 0.025))
  /\ (inRange (fl (inject_Z (10 ^ 307))) = true
      /\ applyMalaysianRounding (fl (inject_Z (10 ^ 307))) = NaN).
Proof.
  split; [|split].
  - split; [vm_compute; reflexivity|].
    eexists _, _. split; [vm_compute; reflexivity|]. split; [vm_compute; reflexivity|].
    split; vm_compute; reflexivity.
  - split; [vm_compute; reflexivity|]. split; [vm_compute; reflexivity|].
    eexists _, _. split; [vm_compute; reflexivity|]. split; [vm_compute; reflexivity|].
    split; vm_compute; reflexivity.
  - split; vm_compute; reflexivity.
Qed.

(** X4.  On doubles the figures of [calculateTaxes] depend on the order
    of the items.  The three items 24.76, 26.47 and 7.52, all with SST,
    have the subtotal 58.75 in any order, and 6% of it is the tie 3.525;
    in the order given the sum of the three SST amounts is rounded to
    3.53 and the final total is 62.30, and with the last two items
    swapped to 3.52 and 62.25. *)
Theorem calculateTaxes_order_matters :
  let a := item (fl 24.76) true false false in
  let b := item (fl 26.47) true false false in
  let c := item (fl 7.52) true false false in
  Permutation [a; b; c] [a; c; b]
  /\ subtotal (calculateTaxes [a; b; c]) = fl 58.75
  /\ subtotal (calculateTaxes [a; c; b]) = fl 58.75
  /\ sstAmount (calculateTaxes [a; b; c]) = fl 3.53
  /\ sstAmount (calculateTaxes [a; c; b]) = fl 3.52
  /\ finalTotal (calculateTaxes [a; b; c]) = fl 62.30
  /\ finalTotal (calculateTaxes [a; c; b]) = fl 62.25.
Proof.
  intros a b c. split; [apply perm_skip, perm_swap|].
  repeat match goal with |- _ /\ _ => split end; vm_compute; reflexivity.
Qed.

End TaxOnDoublesFacts.

(** ** The split engine on doubles *)

Module SplitOnDoublesFacts.
Import Binary64 Binary64Facts Doubles Doubles.Calculations.

(** The SST that the engine takes for an item: the stored amount, when
    the item has the flag and the amount is there and is truthy. *)
Definition storedSst (item : BillItem.t) : option number :=
  if BillItem.hasSst item && truthy (BillItem.sstAmount item)
  then BillItem.sstAmount item else None.

(** An item with another flag and stored amount, with another total, and
    a configuration with another SST rate. *)
Definition setSst (item : BillItem.t) (flag : bool) (stored : option number) : BillItem.t :=
  {| BillItem.id := BillItem.id item; BillItem.name := BillItem.name item;
     BillItem.totalAmount := BillItem.totalAmount item;
     BillItem.paidBy := BillItem.paidBy item; BillItem.sharedBy := BillItem.sharedBy item;
     BillItem.hasSst := flag; BillItem.sstAmount := stored |}.

Definition setTotalAmount (item : BillItem.t) (a : number) : BillItem.t :=
  {| BillItem.id := BillItem.id item; BillItem.name := BillItem.name item;
     BillItem.totalAmount := a;
     BillItem.paidBy := BillItem.paidBy item; BillItem.sharedBy := BillItem.sharedBy item;
     BillItem.hasSst := BillItem.hasSst item; BillItem.sstAmount := BillItem.sstAmount item |}.

Definition setSstRate (taxConfig : TaxConfig.t) (rate : number) : TaxConfig.t :=
  {| TaxConfig.sstRate := rate;
     TaxConfig.serviceChargeRate := TaxConfig.serviceChargeRate taxConfig;
     TaxConfig.applyServiceChargeToAll := TaxConfig.applyServiceChargeToAll taxConfig |}.

Lemma withSst_stored {A : Type} (item : BillItem.t) (f : number -> A) (otherwise : A) :
  withSst item f otherwise
  = match storedSst item with
    | Some stored => f stored
    | None => otherwise
    end.
Proof.
  unfold withSst, storedSst.
  destruct (BillItem.sstAmount item) as [sst|]; [|destruct (BillItem.hasSst item); reflexivity].
  destruct (BillItem.hasSst item && truthy (Some sst)); reflexivity.
Qed.

(** An item may be replaced by one that moves every accumulator in the
    same way. *)
Lemma fold_left_replace {A S : Type} (body : S -> A -> S) (x y : A) :
  (forall s, body s x = body s y) ->
  forall before after s,
    fold_left body (before ++ x :: after) s = fold_left body (before ++ y :: after) s.
Proof.
  intros Hxy before after s. rewrite !fold_left_app. cbn [fold_left].
  rewrite Hxy. reflexivity.
Qed.

Lemma calculateSession_replace (taxConfig : TaxConfig.t) (x y : BillItem.t) :
  (forall participant totalParticipants acc,
     balanceStep taxConfig participant totalParticipants acc x
     = balanceStep taxConfig participant totalParticipants acc y) ->
  (forall acc, summaryStep taxConfig acc x = summaryStep taxConfig acc y) ->
  forall participants before after,
    calculateSession taxConfig
      {| Session.participants := participants; Session.items := before ++ x :: after |}
    = calculateSession taxConfig
        {| Session.participants := participants; Session.items := before ++ y :: after |}.
Proof.
  intros Hstep Hsum participants before after. unfold calculateSession.
  cbn [Session.participants Session.items]. rewrite !length_app. cbn [length].
  destruct (_ || _); [reflexivity|]. f_equal.
  - apply map_ext. intros p. unfold calculateParticipantBalance.
    rewrite (fold_left_replace _ x y (Hstep p (length participants))). reflexivity.
  - unfold calculateSummary. rewrite !length_app. cbn [length].
    rewrite (fold_left_replace _ x y Hsum). reflexivity.
Qed.

(** An item without stored SST is treated as the item without the flag. *)
Lemma unstored_as_unflagged (item : BillItem.t) (absent : option number) :
  storedSst (setSst item true absent) = None ->
  (forall (taxConfig : TaxConfig.t) (participant : Participant.t)
          (totalParticipants : nat) (acc : Totals),
     balanceStep taxConfig participant totalParticipants acc (setSst item true absent)
     = balanceStep taxConfig participant totalParticipants acc (setSst item false None))
  /\ (forall (taxConfig : TaxConfig.t) (participants : list Participant.t)
             (before after : list BillItem.t),
        calculateSession taxConfig
          {| Session.participants := participants;
             Session.items := before ++ setSst item true absent :: after |}
        = calculateSession taxConfig
            {| Session.participants := participants;
               Session.items := before ++ setSst item false None :: after |}).
Proof.
  intros Hnone.
  assert (Hwith : forall (A : Type) (f : number -> A) (otherwise : A),
            withSst (setSst item true absent) f otherwise
            = withSst (setSst item false None) f otherwise).
  { intros A f otherwise. rewrite withSst_stored, Hnone. reflexivity. }
  assert (Hstep : forall taxConfig participant totalParticipants acc,
            balanceStep taxConfig participant totalParticipants acc (setSst item true absent)
            = balanceStep taxConfig participant totalParticipants acc
                (setSst item false None)).
  { intros taxConfig participant totalParticipants acc.
    unfold balanceStep, calculateItemContribution.
    cbn [setSst BillItem.sharedBy BillItem.totalAmount BillItem.paidBy BillItem.id
         BillItem.name].
    rewrite !Hwith. reflexivity. }
  split; [exact Hstep|].
  intros taxConfig participants before after.
  apply calculateSession_replace; [apply Hstep|].
  intros acc. unfold summaryStep. rewrite Hwith. reflexivity.
Qed.

(** A pizza of 15.00 whose stored SST is 1.00 (6% would be 0.90), paid by
    [a] and shared by [a] and [b]. *)
Definition pizza (stored : option number) : BillItem.t :=
  {| BillItem.id := "i1"; BillItem.name := "Pizza";
     BillItem.totalAmount := fl 15;
     BillItem.paidBy := "a"; BillItem.sharedBy := ["a"; "b"];
     BillItem.hasSst := true; BillItem.sstAmount := stored |}.

Definition pizzaSession (stored : option number) : Session.t :=
  {| Session.participants :=
       [ {| Participant.id := "a"; Participant.name := "Alice" |};
         {| Participant.id := "b"; Participant.name := "Bob" |} ];
     Session.items := [pizza stored] |}.

Definition owedAndPaid (result : CalculationResult.t) : list (number * number) :=
  map (fun b => (ParticipantBalance.totalOwed b, ParticipantBalance.totalPaid b))
      (CalculationResult.participants result).

(** C9.  On doubles, the split engine takes the SST of an item from the
    stored [sstAmount] and never computes it.  A sharer's SST share is
    the stored amount divided by the number of sharers and rounded to two
    decimals; it is added, with the base share and the service charge
    share, to what the sharer owes.  The payer is credited the total
    amount, then the stored amount, then the service charge.  Neither the
    SST rate of the configuration nor the total amount of the item enters
    the share.  An item with [hasSst] whose [sstAmount] is missing, 0 or
    [NaN] has no stored SST, every participant's totals move as for the
    item without the flag, and [calculateSession] returns what it returns
    for the session with that item without the flag.  For the pizza of 15.00 with the stored
    SST 1.00, each sharer's SST share is 0.50 and not the 0.45 that 6%
    would give; the sharers owe 8.75 each and the payer has paid 17.50;
    with the stored SST 0 they owe 8.25 and the payer has paid 16.50. *)
Theorem sst_read_from_stored_amount :
  (forall (taxConfig : TaxConfig.t) (participant : Participant.t) (item : BillItem.t)
          (totalParticipants : nat),
     ItemContribution.sstContribution
       (calculateItemContribution taxConfig participant item totalParticipants)
     = match storedSst item with
       | Some stored =>
           if Js.includes (BillItem.sharedBy item) (Participant.id participant)
           then roundToTwoDecimals (div stored (lengthNumber (BillItem.sharedBy item)))
           else Finite 0
       | None => Finite 0
       end)
  /\ (forall (taxConfig : TaxConfig.t) (participant : Participant.t) (item : BillItem.t)
             (totalParticipants : nat) (acc : Totals),
        let share := calculateItemContribution taxConfig participant item totalParticipants in
        t_totalOwed (balanceStep taxConfig participant totalParticipants acc item)
        = (if gtb (ItemContribution.contribution share) (Finite 0)
           then add (t_totalOwed acc)
                    (add (add (ItemContribution.contribution share)
                              (ItemContribution.sstContribution share))
                         (ItemContribution.serviceChargeContribution share))
           else t_totalOwed acc)
        /\ t_totalPaid (balanceStep taxConfig participant totalParticipants acc item)
           = (if String.eqb (BillItem.paidBy item) (Participant.id participant)
              then add (match storedSst item with
                        | Some stored =>
                            add (add (t_totalPaid acc) (BillItem.totalAmount item)) stored
                        | None => add (t_totalPaid acc) (BillItem.totalAmount item)
                        end)
                       (calculateServiceCharge taxConfig (BillItem.totalAmount item))
              else t_totalPaid acc))
  /\ (forall (taxConfig : TaxConfig.t) (rate : number) (session : Session.t),
        calculateSession (setSstRate taxConfig rate) session
        = calculateSession taxConfig session)
  /\ (forall (taxConfig : TaxConfig.t) (participant : Participant.t) (item : BillItem.t)
             (totalParticipants : nat) (a : number),
        ItemContribution.sstContribution
          (calculateItemContribution taxConfig participant (setTotalAmount item a)
             totalParticipants)
        = ItemContribution.sstContribution
            (calculateItemContribution taxConfig participant item totalParticipants))
  /\ (forall item : BillItem.t,
        Forall (fun absent =>
                  storedSst (setSst item true absent) = None
                  /\ (forall (taxConfig : TaxConfig.t) (participant : Participant.t)
                             (totalParticipants : nat) (acc : Totals),
                        balanceStep taxConfig participant totalParticipants acc
                          (setSst item true absent)
                        = balanceStep taxConfig participant totalParticipants acc
                            (setSst item false None))
                  /\ (forall (taxConfig : TaxConfig.t) (participants : list Participant.t)
                             (before after : list BillItem.t),
                        calculateSession taxConfig
                          {| Session.participants := participants;
                             Session.items := before ++ setSst item true absent :: after |}
                        = calculateSession taxConfig
                            {| Session.participants := participants;
                               Session.items := before ++ setSst item false None :: after |}))
               [None; Some (Finite 0); Some NaN])
  /\ (calculateSst DEFAULT_TAX_CONFIG (fl 15) = fl 0.90
      /\ map (fun p => ItemContribution.sstContribution
                         (calculateItemContribution DEFAULT_TAX_CONFIG p
                            (pizza (Some (fl 1.00))) 2))
             (Session.participants (pizzaSession (Some (fl 1.00))))
         = [fl 0.50; fl 0.50]
      /\ owedAndPaid (calculateSession DEFAULT_TAX_CONFIG (pizzaSession (Some (fl 1.00))))
         = [(fl 8.75, fl 17.50); (fl 8.75, Finite 0)]
      /\ owedAndPaid (calculateSession DEFAULT_TAX_CONFIG (pizzaSession (Some (Finite 0))))
         = [(fl 8.25, fl 16.50); (fl 8.25, Finite 0)]).
Proof.
  split; [|split; [|split; [|split; [|split]]]].
  - intros taxConfig participant item totalParticipants.
    unfold calculateItemContribution.
    destruct (Js.includes _ _); cbn [negb ItemContribution.sstContribution].
    + apply withSst_stored.
    + destruct (storedSst item); reflexivity.
  - intros taxConfig participant item totalParticipants acc share. subst share.
    unfold balanceStep.
    destruct (gtb _ (Finite 0)), (String.eqb _ _);
      cbn [t_totalOwed t_totalPaid]; rewrite ?withSst_stored; split;
      try reflexivity; destruct (storedSst item); reflexivity.
  - intros taxConfig rate session. reflexivity.
  - intros taxConfig participant item totalParticipants a.
    unfold calculateItemContribution. cbn [setTotalAmount BillItem.sharedBy].
    destruct (Js.includes _ _); reflexivity.
  - intros item.
    repeat (constructor; [split; [reflexivity | apply unstored_as_unflagged; reflexivity]|]).
    constructor.
  - split; [vm_compute; reflexivity|]. split; [vm_compute; reflexivity|].
    split; vm_compute; reflexivity.
Qed.

End SplitOnDoublesFacts.

(** ** The settlement on doubles *)

Module SettlementOnDoublesFacts.
Import Binary64 Binary64Facts Doubles Doubles.Calculations.

(** What the loop keeps true of the amounts still in its two arrays: a
    debtor's amount is [-Infinity] or a double that is not positive, a
    creditor's is [Infinity] or a double that is not negative. *)
Definition owingAmount (x : number) : Prop :=
  x = NegInfinity \/ exists q, x = Finite q /\ - maxValue <= q <= 0.

Definition owedAmount (x : number) : Prop :=
  x = PosInfinity \/ exists q, x = Finite q /\ 0 <= q <= maxValue.

Definition owing (b : ParticipantBalance.t) : Prop :=
  owingAmount (ParticipantBalance.netAmount b).

Definition owed (b : ParticipantBalance.t) : Prop :=
  owedAmount (ParticipantBalance.netAmount b).







(** Case analysis on the test of the first conditional of the goal. *)
Ltac case_if E :=
  match goal with
  | |- context [if ?c then _ else _] => destruct c eqn:E
  end.



























(** A session of three: [C] pays 11.00 for [A], [B] pays 26.00 for
    themselves and 8.75 for [C]. *)
Definition shortSession : Session.t :=
  {| Session.participants :=
       [ {| Participant.id := "a"; Participant.name := "A" |};
         {| Participant.id := "b"; Participant.name := "B" |};
         {| Participant.id := "c"; Participant.name := "C" |} ];
     Session.items :=
       [ {| BillItem.id := "i1"; BillItem.name := "Lunch";
            BillItem.totalAmount := fl 11;
            BillItem.paidBy := "c"; BillItem.sharedBy := ["a"];
            BillItem.hasSst := false; BillItem.sstAmount := None |};
         {| BillItem.id := "i2"; BillItem.name := "Dinner";
            BillItem.totalAmount := fl 26;
            BillItem.paidBy := "b"; BillItem.sharedBy := ["b"];
            BillItem.hasSst := false; BillItem.sstAmount := None |};
         {| BillItem.id := "i3"; BillItem.name := "Taxi";
            BillItem.totalAmount := fl 8.75;
            BillItem.paidBy := "b"; BillItem.sharedBy := ["c"];
            BillItem.hasSst := false; BillItem.sstAmount := None |} ] |}.

(** X12.  On doubles the settlement can stop a cent short.  For the
    session above [calculateSession] returns the net amounts 11.37,
    -11.36 and -3.06.  [generatePaymentInstructions] pairs the first
    negative amount with the first positive one: one transfer of 11.36
    from [B] to [A].  What is left of 11.37 is 11.37 - 11.36, which on
    doubles is below 0.01, so [A] counts as settled, the loop ends after
    this one iteration, and the cent is never asked of [C], whose -3.06
    is not touched. *)
Theorem settlement_stops_a_cent_short :
  let balances :=
    CalculationResult.participants (calculateSession DEFAULT_TAX_CONFIG shortSession) in
  map ParticipantBalance.netAmount balances = [fl 11.37; fl (-11.36); fl (-3.06)]
  /\ (forall n : nat,
        generatePaymentInstructions_fuel (S n) balances
        = Returned [ {| Transfer.from := "B"; Transfer.to := "A";
                        Transfer.amount := fl 11.36 |} ])
  /\ ltb (sub (fl 11.37) (fl 11.36)) (fl 0.01) = true
  /\ ltb (Finite 0) (sub (fl 11.37) (fl 11.36)) = true.
Proof.
  intros balances. split; [vm_compute; reflexivity|]. split.
  - intros n. destruct n; vm_compute; reflexivity.
  - split; vm_compute; reflexivity.
Qed.

End SettlementOnDoublesFacts.
